(** * Mirror (Orizzi): a shallow embedding of the request pipeline

    The development follows the TypeScript sources:
    - [security/allowlist.ts]   allowlist matcher
    - [security/ssrf-guard.ts]  SSRF guard
    - [cache/file-cache.ts]     on-disk cache with TTL and size eviction
    - [mirror/rewrite-html.ts]  HTML attribute rewriter
    - [db/sqlite.ts]            mirror registry and event log
    - [mirror/proxy.ts]         resolve and proxy pipeline
    - [routes/public.ts]        public routes
    - [mirror/rewrite-css.ts]   the URL rewriter of the CSS pass
    - [ui/launcher.ts]          HTML escaping of the launcher page

    JavaScript strings are modelled as [string] (ASCII text: hostnames,
    header names, slugs, file names and URL references as they appear on the
    wire).  Everything the program obtains from the outside (DNS, the upstream
    network, the clock, random bytes) is read through the [World] interface,
    and library code that is not part of the repository (the WHATWG URL
    parser, SHA-256, the IPv6 recogniser of [net.isIP], cheerio, postcss) is
    reached through the [Platform] interface. *)

From Stdlib Require Import ZArith String Ascii List Bool Lia DecimalString.
From Stdlib Require Import Sorting.Permutation Sorting.Sorted.
From stdpp Require Import base strings list gmap.
Import ListNotations.

#[local] Open Scope string_scope.
#[local] Open Scope Z_scope.
#[local] Set Warnings "-register-all".
#[local] Arguments String.append !_ _ / : simpl nomatch.

(* ===================================================================== *)
(** ** JavaScript string primitives *)
(* ===================================================================== *)

Module Js.

(** [\s] restricted to ASCII: TAB, LF, VT, FF, CR and space. *)
Definition is_ws (c : ascii) : bool :=
  let n := nat_of_ascii c in
  ((9 <=? n)%nat && (n <=? 13)%nat) || (n =? 32)%nat.

Definition is_upper (c : ascii) : bool :=
  let n := nat_of_ascii c in (65 <=? n)%nat && (n <=? 90)%nat.

Definition is_lower (c : ascii) : bool :=
  let n := nat_of_ascii c in (97 <=? n)%nat && (n <=? 122)%nat.

Definition is_digit (c : ascii) : bool :=
  let n := nat_of_ascii c in (48 <=? n)%nat && (n <=? 57)%nat.

Definition lower_char (c : ascii) : ascii :=
  if is_upper c then ascii_of_nat (nat_of_ascii c + 32) else c.

(** [s.toLowerCase()] *)
Fixpoint toLowerCase (s : string) : string :=
  match s with
  | EmptyString => EmptyString
  | String c s' => String (lower_char c) (toLowerCase s')
  end.

(** Removal of a leading, respectively trailing, run of characters
    satisfying [p]: the regular expressions [/^p+/] and [/p+$/] replaced by
    the empty string. *)
Fixpoint dropStart (p : ascii -> bool) (s : string) : string :=
  match s with
  | EmptyString => EmptyString
  | String c s' => if p c then dropStart p s' else s
  end.

Fixpoint dropEnd (p : ascii -> bool) (s : string) : string :=
  match s with
  | EmptyString => EmptyString
  | String c s' =>
      match dropEnd p s' with
      | EmptyString => if p c then EmptyString else String c EmptyString
      | t => String c t
      end
  end.

(** [s.trim()] *)
Definition trim (s : string) : string := dropEnd is_ws (dropStart is_ws s).

(** [s.startsWith(p)] *)
Definition startsWith (s p : string) : bool := String.prefix p s.

(** [s.endsWith(p)] *)
Fixpoint endsWith (s p : string) : bool :=
  if String.eqb s p then true
  else match s with
       | EmptyString => false
       | String _ s' => endsWith s' p
       end.

(** [s.includes(p)] *)
Fixpoint includes (s p : string) : bool :=
  if String.prefix p s then true
  else match s with
       | EmptyString => false
       | String _ s' => includes s' p
       end.

(** [s.split(c)] for a one-character separator. *)
Fixpoint split (c : ascii) (s : string) : list string :=
  match s with
  | EmptyString => [EmptyString]
  | String a s' =>
      if Ascii.eqb a c then EmptyString :: split c s'
      else match split c s' with
           | [] => [String a EmptyString]
           | x :: xs => String a x :: xs
           end
  end.

(** [s.slice(0, n)] *)
Fixpoint slice0 (n : nat) (s : string) : string :=
  match n, s with
  | O, _ => EmptyString
  | _, EmptyString => EmptyString
  | S n', String c s' => String c (slice0 n' s')
  end.

(** [s.replace(c, '')] for a one-character string pattern: only the first
    occurrence is removed. *)
Fixpoint removeFirst (c : ascii) (s : string) : string :=
  match s with
  | EmptyString => EmptyString
  | String a s' => if Ascii.eqb a c then s' else String a (removeFirst c s')
  end.

(** [s.replace(/[^...]/g, r)]: every character outside the class is
    replaced by [r]. *)
Fixpoint replaceEach (keep : ascii -> bool) (r : ascii) (s : string) : string :=
  match s with
  | EmptyString => EmptyString
  | String a s' => String (if keep a then a else r) (replaceEach keep r s')
  end.

(** [s.replace(/[^...]+/g, r)]: every maximal run of characters outside the
    class is replaced by one [r]. *)
Fixpoint replaceRunsFrom (keep : ascii -> bool) (r : ascii) (inRun : bool)
    (s : string) : string :=
  match s with
  | EmptyString => EmptyString
  | String a s' =>
      if keep a then String a (replaceRunsFrom keep r false s')
      else if inRun then replaceRunsFrom keep r true s'
      else String r (replaceRunsFrom keep r true s')
  end.

Definition replaceRuns (keep : ascii -> bool) (r : ascii) (s : string) : string :=
  replaceRunsFrom keep r false s.

(** Every character of [s] satisfies [p]. *)
Fixpoint all_chars (p : ascii -> bool) (s : string) : bool :=
  match s with
  | EmptyString => true
  | String c s' => p c && all_chars p s'
  end.

Definition truthy (s : string) : bool := negb (String.eqb s "").

Definition upper_char (c : ascii) : ascii :=
  if is_lower c then ascii_of_nat (nat_of_ascii c - 32) else c.

(** [s.toUpperCase()] *)
Fixpoint toUpperCase (s : string) : string :=
  match s with
  | EmptyString => EmptyString
  | String c s' => String (upper_char c) (toUpperCase s')
  end.

(** [s.includes(c) ? s.slice(s.indexOf(c)) : ''] for a one-character [c]. *)
Fixpoint sliceFromFirst (c : ascii) (s : string) : string :=
  match s with
  | EmptyString => EmptyString
  | String a s' => if Ascii.eqb a c then s else sliceFromFirst c s'
  end.

Definition hex_digit (n : nat) : ascii :=
  if (n <? 10)%nat then ascii_of_nat (48 + n) else ascii_of_nat (55 + n).

(** Characters [encodeURIComponent] leaves alone: letters, digits and
    [- _ . ! ~ * ' ( )]. *)
Definition uri_unreserved (c : ascii) : bool :=
  is_upper c || is_lower c || is_digit c ||
  existsb (Ascii.eqb c) ["-"; "_"; "."; "!"; "~"; "*"; "'"; "("; ")"]%char.

(** [encodeURIComponent(s)]: every other byte becomes [%XX]. *)
Fixpoint encodeURIComponent (s : string) : string :=
  match s with
  | EmptyString => EmptyString
  | String c s' =>
      if uri_unreserved c then String c (encodeURIComponent s')
      else
        let n := nat_of_ascii c in
        String "%" (String (hex_digit (n / 16)) (String (hex_digit (n mod 16))
          (encodeURIComponent s')))
  end.

(** [String(n)] for a natural number. *)
Definition show_nat (n : nat) : string := NilZero.string_of_uint (Nat.to_uint n).

(** [s.replace(/c/g, r)] for a one-character pattern: every occurrence of
    [c] is replaced by [r]. *)
Fixpoint replaceAll (c : ascii) (r : string) (s : string) : string :=
  match s with
  | EmptyString => EmptyString
  | String a s' => if Ascii.eqb a c then r ++ replaceAll c r s' else String a (replaceAll c r s')
  end.

End Js.

(* ===================================================================== *)
(** ** Launcher page ([ui/launcher.ts]) *)
(* ===================================================================== *)

Module Launcher.

(** [escapeHtml(value)]: five replacements, one after the other. *)
Definition escapeHtml (value : string) : string :=
  Js.replaceAll "'" "&#39;"
    (Js.replaceAll "034" "&quot;"
       (Js.replaceAll ">" "&gt;"
          (Js.replaceAll "<" "&lt;"
             (Js.replaceAll "&" "&amp;" value)))).

End Launcher.

(* ===================================================================== *)
(** ** URLs and the platform interface *)
(* ===================================================================== *)

(** The fields of a WHATWG [URL] object that the program reads.  [port] is
    the empty string for the scheme's default port, [search] carries its
    leading [?] and [hash] its leading [#] (both empty when absent). *)
Record URL := mkURL {
  protocol : string;
  username : string;
  password : string;
  hostname : string;
  port : string;
  pathname : string;
  search : string;
  hash : string
}.

(** [url.host] *)
Definition URL_host (u : URL) : string :=
  if String.eqb (port u) "" then hostname u else hostname u ++ ":" ++ port u.

(** [url.origin]: a tuple origin for the special network schemes, the
    opaque origin [null] otherwise. *)
Definition URL_origin (u : URL) : string :=
  if existsb (String.eqb (protocol u)) ["https:"; "http:"; "ftp:"; "ws:"; "wss:"]
  then protocol u ++ "//" ++ URL_host u
  else "null".

(** [url.toString()] for a URL with an authority. *)
Definition URL_toString (u : URL) : string :=
  let cred :=
    if String.eqb (username u) "" && String.eqb (password u) "" then ""
    else if String.eqb (password u) "" then username u ++ "@"
    else username u ++ ":" ++ password u ++ "@" in
  protocol u ++ "//" ++ cred ++ URL_host u ++ pathname u ++ search u ++ hash u.

(** A parsed HTML document as cheerio exposes it: text (and other leaf)
    nodes, and elements with a tag name, an attribute list in source order
    and children. *)
Inductive node :=
| Text (content : string)
| Elem (tag : string) (attrs : list (string * string)) (children : list node).

(** Outcome of a computation that may throw [new Error(message)]. *)
Inductive result (A : Type) :=
| Ok (a : A)
| Throw (message : string).
Arguments Ok {A} a.
Arguments Throw {A} message.

Record CacheEntryMeta := mkMeta {
  meta_cacheKey : string;
  meta_slug : string;
  meta_cachedAt : Z;
  meta_contentType : string;
  meta_status : Z;
  meta_headers : list (string * string);
  meta_bodyFile : string;
  meta_size : Z
}.

(** Library code outside the repository, kept abstract. *)
Class Platform := {
  (** [net.isIP(s) === 6] *)
  net_isIPv6 : string -> bool;
  (** [crypto.createHash('sha256').update(s).digest('hex')] *)
  sha256_hex : string -> string;
  (** [new URL(s)]; [None] when the constructor throws *)
  URL_parse : string -> option URL;
  (** [new URL(s, base)]; [None] when the constructor throws *)
  URL_resolve : string -> URL -> option URL;
  (** the setter [url.pathname = s] *)
  URL_set_pathname : URL -> string -> URL;
  (** the setter [url.search = s] *)
  URL_set_search : URL -> string -> URL;
  (** [JSON.stringify(meta)] for a cache metadata record *)
  JSON_stringify_meta : CacheEntryMeta -> string;
  (** cheerio's [load(html)] and [$.html()] *)
  cheerio_load : string -> list node;
  cheerio_html : list node -> string
}.

(** What the process observes of its environment.  Every operation takes the
    current state of the outside world and returns the next one, so that two
    calls with the same arguments may answer differently. *)
Record UpstreamResponse := mkResponse {
  resp_status : Z;
  (** [response.headers.entries()]: names are lower case *)
  resp_headers : list (string * string);
  (** [await response.arrayBuffer()], or the message of its rejection *)
  resp_body : result string
}.

Class World (W : Type) := {
  (** [dns.lookup(hostname, {all: true, verbatim: true})]: the addresses of
      the answers, or the message of the rejection *)
  dns_lookup : string -> W -> W * result (list string);
  (** [fetch(url, {method, headers, redirect: 'manual', signal})] *)
  upstream_fetch : string -> URL -> list (string * string) -> W -> W * result UpstreamResponse;
  (** [Date.now()] *)
  date_now : W -> W * Z;
  (** [new Date().toISOString()] *)
  date_iso : W -> W * string;
  (** [crypto.randomBytes(n).toString('hex')] *)
  random_hex : nat -> W -> W * string
}.

(* ===================================================================== *)
(** ** Allowlist matcher ([security/allowlist.ts]) *)
(* ===================================================================== *)

Record AllowlistEntry := mkEntry {
  entry_id : string;
  entry_host : string;
  allowSubdomains : bool;
  schemes : list string;
  enabled : bool;
  label : option string
}.

Record AllowlistFile := mkAllowlist {
  version : Z;
  entries : list AllowlistEntry
}.

Module AllowlistStore.

Definition is_dot (c : ascii) : bool := Ascii.eqb c ".".

Definition normalizeHost (host : string) : string :=
  Js.dropEnd is_dot (Js.dropStart is_dot (Js.toLowerCase (Js.trim host))).

(** The body of the [for] loop of [match], over the remaining entries. *)
Fixpoint match_loop (host scheme : string) (es : list AllowlistEntry)
    : option AllowlistEntry :=
  match es with
  | [] => None
  | entry :: rest =>
      if negb (enabled entry) then match_loop host scheme rest
      else if negb (existsb (String.eqb scheme) (schemes entry))
      then match_loop host scheme rest
      else if String.eqb (entry_host entry) host then Some entry
      else if allowSubdomains entry && Js.endsWith host ("." ++ entry_host entry)
      then Some entry
      else match_loop host scheme rest
  end.

(** [match(url)] *)
Definition match_ (state : AllowlistFile) (url : URL) : option AllowlistEntry :=
  let host := normalizeHost (hostname url) in
  let scheme := Js.removeFirst ":" (protocol url) in
  match_loop host scheme (entries state).

(** [isAllowed(url)] *)
Definition isAllowed (state : AllowlistFile) (url : URL) : bool :=
  match match_ state url with Some _ => true | None => false end.

(** [getById(id)] *)
Definition getById (state : AllowlistFile) (id : string) : option AllowlistEntry :=
  List.find (fun entry => String.eqb (entry_id entry) id) (entries state).

(** [enabledCount()] *)
Definition enabledCount (state : AllowlistFile) : nat :=
  length (List.filter enabled (entries state)).

(** The store: the state in memory, and the state that [save()] wrote to the
    allowlist file last. *)
Record Store := mkStore {
  st_state : AllowlistFile;
  st_saved : AllowlistFile
}.

(** [save()] *)
Definition save (st : Store) : Store := mkStore (st_state st) (st_state st).

(** [entries.findIndex(p)]; [None] is [-1]. *)
Fixpoint findIndex {A} (p : A -> bool) (l : list A) : option nat :=
  match l with
  | [] => None
  | x :: rest =>
      if p x then Some O
      else match findIndex p rest with
           | Some i => Some (S i)
           | None => None
           end
  end.

(** [upsert(entry)] *)
Definition upsert (st : Store) (entry : AllowlistEntry) : Store * AllowlistEntry :=
  let normalized :=
    mkEntry (entry_id entry) (normalizeHost (entry_host entry)) (allowSubdomains entry)
      (if (length (schemes entry) =? 0)%nat then ["https"] else schemes entry)
      (enabled entry) (label entry) in
  let es := entries (st_state st) in
  let es' :=
    match findIndex (fun item => String.eqb (entry_id item) (entry_id normalized)) es with
    | Some index => <[index := normalized]> es
    | None => (es ++ [normalized])%list
    end in
  (save (mkStore (mkAllowlist (version (st_state st)) es') (st_saved st)), normalized).

(** The body of a [PATCH]: the fields of an entry other than [id], each
    optional. *)
Record EntryPatch := mkPatch {
  patch_host : option string;
  patch_allowSubdomains : option bool;
  patch_schemes : option (list string);
  patch_enabled : option bool;
  patch_label : option string
}.

(** [patch(id, patch)] *)
Definition patch (st : Store) (id : string) (p : EntryPatch)
    : Store * option AllowlistEntry :=
  match getById (st_state st) id with
  | None => (st, None)
  | Some current =>
      let next :=
        mkEntry (entry_id current)
          (match patch_host p with
           | Some h => if Js.truthy h then normalizeHost h else entry_host current
           | None => entry_host current
           end)
          (default (allowSubdomains current) (patch_allowSubdomains p))
          (match patch_schemes p with
           | Some l => if (length l =? 0)%nat then schemes current else l
           | None => schemes current
           end)
          (default (enabled current) (patch_enabled p))
          (match patch_label p with Some l => Some l | None => label current end) in
      let '(st', item) := upsert st next in
      (st', Some item)
  end.

(** [remove(id)] *)
Definition remove (st : Store) (id : string) : Store * bool :=
  let before := length (entries (st_state st)) in
  let es' := List.filter (fun entry => negb (String.eqb (entry_id entry) id))
               (entries (st_state st)) in
  let st' := mkStore (mkAllowlist (version (st_state st)) es') (st_saved st) in
  if negb (length es' =? before)%nat then (save st', true) else (st', false).

End AllowlistStore.

(* ===================================================================== *)
(** ** Persistent state: registry, event log, cache directory *)
(* ===================================================================== *)

Record MirrorRecord := mkMirror {
  mr_id : string;
  mr_slug : string;
  mr_targetOrigin : string;
  mr_createdAt : string;
  mr_updatedAt : string;
  mr_lastPath : option string;
  mr_disabled : bool
}.

Inductive MirrorEventLevel := info | warn | error.

Inductive MirrorEventKind :=
| resolve | resolve_fail | proxy_error | ssrf_blocked_kind | cache_hit
| cache_miss | cache_purge | admin_action | upstream_timeout.

Inductive MetaValue :=
| MetaStr (s : string)
| MetaBool (b : bool).

Record MirrorEvent := mkEvent {
  ev_id : string;
  ev_at : string;
  ev_level : MirrorEventLevel;
  ev_kind : MirrorEventKind;
  ev_slug : option string;
  ev_message : string;
  ev_meta : list (string * MetaValue)
}.

(** The two tables of the SQLite database, rows in rowid order. *)
Record Db := mkDb {
  mirrors : list MirrorRecord;
  events : list MirrorEvent
}.

Record CachedResponse := mkCached {
  cr_status : Z;
  cr_headers : list (string * string);
  cr_body : string;
  cr_contentType : string;
  cr_cachedAt : Z
}.

(** Content of a file of the cache directory: the JSON text of a metadata
    record (which [JSON.parse] reads back), or any other bytes (on which
    [JSON.parse] of a metadata record fails). *)
Inductive File :=
| MetaJson (m : CacheEntryMeta)
| Bytes (b : string).

(** The cache directory: file names with their content, in the order in
    which [fs.readdirSync] lists them. *)
Definition Dir := list (string * File).

(** Ghost record of the validation and fetch steps of the upstream loop. *)
Inductive TraceEvent :=
| EvGuard (u : URL)    (** [assertSafeUrl(u)] returned normally *)
| EvMatch (u : URL)    (** [allowlist.match(u)] returned an entry *)
| EvFetch (u : URL)    (** [fetch(u)] is issued *)
| EvFollow (u : URL).  (** [current = u] after a redirect *)

Record Sys (W : Type) := mkSys {
  sys_world : W;
  sys_db : Db;
  sys_cache : Dir;
  sys_trace : list TraceEvent
}.
Arguments mkSys {W}.
Arguments sys_world {W}.
Arguments sys_db {W}.
Arguments sys_cache {W}.
Arguments sys_trace {W}.

(** *** The monad of the handlers: state and exceptions *)

Definition M (W A : Type) : Type := Sys W -> Sys W * result A.

Definition ret {W A} (a : A) : M W A := fun s => (s, Ok a).

Definition throw {W A} (message : string) : M W A := fun s => (s, Throw message).

Definition bind {W A B} (m : M W A) (k : A -> M W B) : M W B :=
  fun s =>
    match m s with
    | (s', Ok a) => k a s'
    | (s', Throw e) => (s', Throw e)
    end.

Definition try_catch {W A} (m : M W A) (handler : string -> M W A) : M W A :=
  fun s =>
    match m s with
    | (s', Ok a) => (s', Ok a)
    | (s', Throw e) => handler e s'
    end.

#[global] Instance M_ret {W} : MRet (M W) := fun A a => ret a.
#[global] Instance M_bind {W} : MBind (M W) := fun A B k m => bind m k.

Definition with_world {W A} (f : W -> W * A) : M W A :=
  fun s =>
    let (w, a) := f (sys_world s) in
    (mkSys w (sys_db s) (sys_cache s) (sys_trace s), Ok a).

Definition with_world_result {W A} (f : W -> W * result A) : M W A :=
  fun s =>
    let (w, r) := f (sys_world s) in
    (mkSys w (sys_db s) (sys_cache s) (sys_trace s), r).

Definition get_db {W} : M W Db := fun s => (s, Ok (sys_db s)).
Definition put_db {W} (d : Db) : M W unit :=
  fun s => (mkSys (sys_world s) d (sys_cache s) (sys_trace s), Ok tt).
Definition get_cache {W} : M W Dir := fun s => (s, Ok (sys_cache s)).
Definition put_cache {W} (d : Dir) : M W unit :=
  fun s => (mkSys (sys_world s) (sys_db s) d (sys_trace s), Ok tt).
Definition emit {W} (e : TraceEvent) : M W unit :=
  fun s => (mkSys (sys_world s) (sys_db s) (sys_cache s) (sys_trace s ++ [e]), Ok tt).

(* ===================================================================== *)
(** ** SSRF guard ([security/ssrf-guard.ts]) *)
(* ===================================================================== *)

Module SsrfGuard.

(** [ToInt32] and [ToUint32] on integers. *)
Definition to_int32 (z : Z) : Z := (z + 2 ^ 31) mod 2 ^ 32 - 2 ^ 31.
Definition to_uint32 (z : Z) : Z := z mod 2 ^ 32.

(** Value of a string of decimal digits. *)
Definition digit_value (c : ascii) : Z := Z.of_nat (nat_of_ascii c) - 48.

Fixpoint digits_value (acc : Z) (s : string) : Z :=
  match s with
  | EmptyString => acc
  | String c s' => digits_value (acc * 10 + digit_value c) s'
  end.

(** [Number(s)] on the strings the guard passes to it: decimal digit
    strings (the empty string is [0]); [None] is [NaN]. *)
Definition js_Number (s : string) : option Z :=
  if Js.all_chars Js.is_digit s then Some (digits_value 0 s) else None.

(** [(acc << 8) + Number(octet)]: the shift works on [ToInt32(acc)] ([NaN]
    becomes [0]) and wraps to a signed 32-bit value; the sum is [NaN] when
    the octet is. *)
Definition ip_step (acc : option Z) (octet : string) : option Z :=
  let shifted := to_int32 (Z.shiftl (to_int32 (default 0 acc)) 8) in
  match js_Number octet with
  | Some n => Some (shifted + n)
  | None => None
  end.

(** [ipToInt(ip)]; the final [>>> 0] is [ToUint32]. *)
Definition ipToInt (ip : string) : Z :=
  to_uint32 (default 0 (fold_left ip_step (Js.split "." ip) (Some 0))).

Definition IPV4_PRIVATE_RANGES : list (Z * Z) :=
  [ (ipToInt "0.0.0.0", ipToInt "0.255.255.255");
    (ipToInt "10.0.0.0", ipToInt "10.255.255.255");
    (ipToInt "100.64.0.0", ipToInt "100.127.255.255");
    (ipToInt "127.0.0.0", ipToInt "127.255.255.255");
    (ipToInt "169.254.0.0", ipToInt "169.254.255.255");
    (ipToInt "172.16.0.0", ipToInt "172.31.255.255");
    (ipToInt "192.0.0.0", ipToInt "192.0.0.255");
    (ipToInt "192.0.2.0", ipToInt "192.0.2.255");
    (ipToInt "192.168.0.0", ipToInt "192.168.255.255");
    (ipToInt "198.18.0.0", ipToInt "198.19.255.255");
    (ipToInt "198.51.100.0", ipToInt "198.51.100.255");
    (ipToInt "203.0.113.0", ipToInt "203.0.113.255");
    (ipToInt "224.0.0.0", ipToInt "255.255.255.255") ].

Definition isPrivateIpv4 (ip : string) : bool :=
  let value := ipToInt ip in
  existsb (fun '(start, end_) => (start <=? value) && (value <=? end_))
          IPV4_PRIVATE_RANGES.

Definition isBlockedIpv6 (ip : string) : bool :=
  let normalized := Js.toLowerCase ip in
  String.eqb normalized "::1" ||
  String.eqb normalized "::" ||
  Js.startsWith normalized "fc" ||
  Js.startsWith normalized "fd" ||
  Js.startsWith normalized "fe80:" ||
  Js.startsWith normalized "::ffff:127." ||
  Js.startsWith normalized "::ffff:10." ||
  Js.startsWith normalized "::ffff:192.168." ||
  Js.startsWith normalized "::ffff:172.16." ||
  Js.startsWith normalized "::ffff:172.17." ||
  Js.startsWith normalized "::ffff:172.18." ||
  Js.startsWith normalized "::ffff:172.19." ||
  Js.startsWith normalized "::ffff:172.2" ||
  Js.startsWith normalized "::ffff:169.254.".

(** One segment of a dotted-decimal IPv4 literal as [net.isIPv4] accepts it:
    [0]..[255] without a leading zero. *)
Definition v4Seg (s : string) : bool :=
  Js.all_chars Js.is_digit s &&
  match s with
  | EmptyString => false
  | String c EmptyString => true
  | String c rest =>
      negb (Ascii.eqb c "0") && (String.length rest <=? 2)%nat &&
      (digits_value 0 s <=? 255)
  end.

Definition isIPv4 (s : string) : bool :=
  match Js.split "." s with
  | [a; b; c; d] => v4Seg a && v4Seg b && v4Seg c && v4Seg d
  | _ => false
  end.

Section WithPlatform.
Context `{Platform}.

(** [net.isIP(s)] *)
Definition net_isIP (s : string) : Z :=
  if isIPv4 s then 4 else if net_isIPv6 s then 6 else 0.

(** [assertSafeIp(ip)] *)
Definition assertSafeIp (ip : string) : result unit :=
  let family := net_isIP ip in
  if family =? 0 then Throw "invalid_ip"
  else if (family =? 4) && isPrivateIpv4 ip then Throw "ssrf_blocked"
  else if (family =? 6) && isBlockedIpv6 ip then Throw "ssrf_blocked"
  else Ok tt.

(** [assertSafeHostname(hostname)] *)
Definition assertSafeHostname (hostname : string) : result unit :=
  let host := Js.toLowerCase (Js.trim hostname) in
  if negb (Js.truthy host) then Throw "empty_hostname"
  else if String.eqb host "localhost" || Js.endsWith host ".localhost"
  then Throw "ssrf_blocked"
  else if String.eqb host "metadata.google.internal" then Throw "ssrf_blocked"
  else if String.eqb host "169.254.169.254" then Throw "ssrf_blocked"
  else if negb (net_isIP host =? 0) then assertSafeIp host
  else Ok tt.

(** The loop [for (const answer of answers) assertSafeIp(answer.address)]. *)
Fixpoint assertSafeAnswers (answers : list string) : result unit :=
  match answers with
  | [] => Ok tt
  | address :: rest =>
      match assertSafeIp address with
      | Ok _ => assertSafeAnswers rest
      | Throw e => Throw e
      end
  end.

Definition lift {W A} (r : result A) : M W A := fun s => (s, r).

Context {W : Type} `{World W}.

(** [assertSafeResolvedHost(hostname)] *)
Definition assertSafeResolvedHost (hostname : string) : M W unit :=
  lift (assertSafeHostname hostname) ;;
  answers ← with_world_result (dns_lookup hostname) ;
  if (length answers =? 0)%nat then throw "dns_resolution_failed"
  else lift (assertSafeAnswers answers).

(** [assertSafeUrl(url, allowHttp)] *)
Definition assertSafeUrl (url : URL) (allowHttp : bool) : M W unit :=
  if negb (existsb (String.eqb (protocol url)) ["https:"; "http:"])
  then throw "invalid_scheme"
  else if String.eqb (protocol url) "http:" && negb allowHttp
  then throw "invalid_scheme"
  else if Js.truthy (username url) || Js.truthy (password url)
  then throw "credentials_not_allowed"
  else assertSafeResolvedHost (hostname url).

End WithPlatform.

End SsrfGuard.

(* ===================================================================== *)
(** ** The blocked IPv4 ranges as the specification lists them *)
(* ===================================================================== *)

Module SpecRanges.

(** Decimal text of an octet. *)
Definition digit_char (n : nat) : ascii := ascii_of_nat (48 + n).

Definition show_octet (n : nat) : string :=
  if (n <? 10)%nat then String (digit_char n) ""
  else if (n <? 100)%nat
  then String (digit_char (n / 10)) (String (digit_char (n mod 10)) "")
  else String (digit_char (n / 100))
         (String (digit_char ((n / 10) mod 10)) (String (digit_char (n mod 10)) "")).

(** The dotted-decimal literal [a.b.c.d]. *)
Definition dotted (a b c d : nat) : string :=
  show_octet a ++ "." ++ show_octet b ++ "." ++ show_octet c ++ "." ++ show_octet d.

Definition ipv4_value (a b c d : nat) : Z :=
  Z.of_nat a * 2 ^ 24 + Z.of_nat b * 2 ^ 16 + Z.of_nat c * 2 ^ 8 + Z.of_nat d.

(** Membership of a 32-bit address in the block [base/len]: the leading
    [len] bits agree. *)
Definition in_cidr (base : Z) (len : Z) (v : Z) : bool :=
  Z.shiftr v (32 - len) =? Z.shiftr base (32 - len).

(** [0.0.0.0/8], [10.0.0.0/8], [100.64.0.0/10], [127.0.0.0/8],
    [169.254.0.0/16], [172.16.0.0/12], [192.0.0.0/24], [192.0.2.0/24],
    [192.168.0.0/16], [198.18.0.0/15], [198.51.100.0/24], [203.0.113.0/24] *)
Definition blocked_blocks : list (Z * Z) :=
  [ (ipv4_value 0 0 0 0, 8); (ipv4_value 10 0 0 0, 8);
    (ipv4_value 100 64 0 0, 10); (ipv4_value 127 0 0 0, 8);
    (ipv4_value 169 254 0 0, 16); (ipv4_value 172 16 0 0, 12);
    (ipv4_value 192 0 0 0, 24); (ipv4_value 192 0 2 0, 24);
    (ipv4_value 192 168 0 0, 16); (ipv4_value 198 18 0 0, 15);
    (ipv4_value 198 51 100 0, 24); (ipv4_value 203 0 113 0, 24) ].

(** An address of one of the blocks above, or of [224.0.0.0/4] and above. *)
Definition blocked_ipv4 (a b c d : nat) : bool :=
  let v := ipv4_value a b c d in
  existsb (fun '(base, len) => in_cidr base len v) blocked_blocks
  || (ipv4_value 224 0 0 0 <=? v).

(** The hostnames the guard must refuse. *)
Definition blocked_hostname (h : string) : Prop :=
  h = "localhost"
  \/ Js.endsWith h ".localhost" = true
  \/ h = "metadata.google.internal"
  \/ h = "169.254.169.254"
  \/ exists a b c d : nat,
       (a < 256)%nat /\ (b < 256)%nat /\ (c < 256)%nat /\ (d < 256)%nat
       /\ h = dotted a b c d /\ blocked_ipv4 a b c d = true.

End SpecRanges.

(* ===================================================================== *)
(** ** Mirror registry ([db/sqlite.ts]) *)
(* ===================================================================== *)

Module MirrorDb.

(** [SELECT * FROM mirrors WHERE slug = ?] *)
Definition findMirrorBySlug (db : Db) (slug : string) : option MirrorRecord :=
  List.find (fun r => String.eqb (mr_slug r) slug) (mirrors db).

(** [SELECT * FROM mirrors WHERE target_origin = ? AND disabled = 0] *)
Definition findMirrorByOrigin (db : Db) (targetOrigin : string) : option MirrorRecord :=
  List.find (fun r => String.eqb (mr_targetOrigin r) targetOrigin && negb (mr_disabled r))
            (mirrors db).

Definition countMirrors (db : Db) : nat := length (mirrors db).

(** The effect of [UPDATE mirrors SET updated_at = ?, last_path =
    COALESCE(?, last_path) WHERE slug = ?] on one row. *)
Definition touchRow (slug : string) (lastPath : option string) (now : string)
    (r : MirrorRecord) : MirrorRecord :=
  if String.eqb (mr_slug r) slug
  then mkMirror (mr_id r) (mr_slug r) (mr_targetOrigin r) (mr_createdAt r) now
         (match lastPath with Some p => Some p | None => mr_lastPath r end)
         (mr_disabled r)
  else r.

Section WithWorld.
Context {W : Type} `{World W}.

(** [id(prefix)] *)
Definition id (pre : string) : M W string :=
  hex ← with_world (random_hex 8);
  mret (pre ++ "_" ++ hex).

(** [createMirror(slug, targetOrigin, lastPath)].  The [INSERT] fails on the
    primary key [id] and on the [UNIQUE] column [slug]. *)
Definition createMirror (slug targetOrigin : string) (lastPath : option string)
    : M W MirrorRecord :=
  now ← with_world date_iso;
  id ← id "mir";
  db ← get_db;
  if existsb (fun r => String.eqb (mr_id r) id) (mirrors db)
  then throw "UNIQUE constraint failed: mirrors.id"
  else if existsb (fun r => String.eqb (mr_slug r) slug) (mirrors db)
  then throw "UNIQUE constraint failed: mirrors.slug"
  else
    let row := mkMirror id slug targetOrigin now now lastPath false in
    put_db (mkDb (mirrors db ++ [row]) (events db)) ;;
    db' ← get_db;
    match findMirrorBySlug db' slug with
    | Some r => mret r
    | None => throw "TypeError: Cannot read properties of null"
    end.

(** [touchMirror(slug, lastPath)] *)
Definition touchMirror (slug : string) (lastPath : option string) : M W unit :=
  now ← with_world date_iso;
  db ← get_db;
  put_db (mkDb (map (touchRow slug lastPath now) (mirrors db)) (events db)).

(** The effect of [UPDATE mirrors SET disabled = ?, updated_at = ? WHERE
    slug = ?] on one row. *)
Definition disableRow (slug : string) (disabled : bool) (now : string)
    (r : MirrorRecord) : MirrorRecord :=
  if String.eqb (mr_slug r) slug
  then mkMirror (mr_id r) (mr_slug r) (mr_targetOrigin r) (mr_createdAt r) now
         (mr_lastPath r) disabled
  else r.

(** [setMirrorDisabled(slug, disabled)] *)
Definition setMirrorDisabled (slug : string) (disabled : bool)
    : M W (option MirrorRecord) :=
  now ← with_world date_iso;
  db ← get_db;
  put_db (mkDb (map (disableRow slug disabled now) (mirrors db)) (events db)) ;;
  db' ← get_db;
  mret (findMirrorBySlug db' slug).

(** [logEvent(params)].  The [INSERT] fails on the primary key [id]. *)
Definition logEvent (level : MirrorEventLevel) (kind : MirrorEventKind)
    (slug : option string) (message : string) (meta : list (string * MetaValue))
    : M W MirrorEvent :=
  id ← id "evt";
  at_ ← with_world date_iso;
  let event := mkEvent id at_ level kind slug message meta in
  db ← get_db;
  if existsb (fun e => String.eqb (ev_id e) id) (events db)
  then throw "UNIQUE constraint failed: events.id"
  else
    put_db (mkDb (mirrors db) (events db ++ [event])) ;;
    mret event.

End WithWorld.

End MirrorDb.

(* ===================================================================== *)
(** ** File cache ([cache/file-cache.ts]) *)
(* ===================================================================== *)

Module FileCache.

(** The constructor arguments other than the directory. *)
Record t := mk {
  ttlSeconds : Z;
  maxBytes : Z
}.

Definition is_slug_char (c : ascii) : bool :=
  Js.is_lower c || Js.is_upper c || Js.is_digit c || Ascii.eqb c "_" || Ascii.eqb c "-".

Definition safeSlug (slug : string) : string :=
  let s := Js.slice0 80 (Js.replaceEach is_slug_char "_" slug) in
  if Js.truthy s then s else "default".

(** File names of the two files of an entry, relative to the directory. *)
Definition metaName (slug cacheKey : string) : string :=
  safeSlug slug ++ "_" ++ cacheKey ++ ".json".

Definition bodyName (slug cacheKey : string) : string :=
  safeSlug slug ++ "_" ++ cacheKey ++ ".bin".

(** *** The directory *)

Definition fs_read (name : string) (d : Dir) : option File :=
  match List.find (fun '(n, _) => String.eqb n name) d with
  | Some (_, f) => Some f
  | None => None
  end.

Definition fs_exists (name : string) (d : Dir) : bool :=
  match fs_read name d with Some _ => true | None => false end.

(** [fs.rmSync(path, {force: true})] *)
Definition fs_rm (name : string) (d : Dir) : Dir :=
  List.filter (fun '(n, _) => negb (String.eqb n name)) d.

(** [fs.writeFileSync(path, content)].  A directory is held as the list
    that [fs.readdirSync] returns.  Node leaves the order of that list to the
    platform; here an existing file keeps its place and a new one is listed
    last.  The order decides nothing but which of two entries with the same
    [cachedAt] the eviction of [prune] removes first. *)
Fixpoint fs_write (name : string) (f : File) (d : Dir) : Dir :=
  match d with
  | [] => [(name, f)]
  | (n, g) :: rest =>
      if String.eqb n name then (n, f) :: rest else (n, g) :: fs_write name f rest
  end.

(** [fs.readdirSync(dir)] *)
Definition fs_readdir (d : Dir) : list string := map fst d.

(** [(now - cachedAt) / 1000 > ttlSeconds] *)
Definition expired (c : t) (now cachedAt : Z) : bool :=
  1000 * ttlSeconds c <? now - cachedAt.

Record PruneItem := mkItem {
  item_metaPath : string;
  item_bodyPath : string;
  item_cachedAt : Z;
  item_size : Z
}.

(** [metas.sort((a, b) => a.cachedAt - b.cachedAt)]: the sort of the
    language is stable, so it is the insertion sort that puts an item before
    the items of the same [cachedAt] that followed it. *)
Fixpoint insert_item (x : PruneItem) (l : list PruneItem) : list PruneItem :=
  match l with
  | [] => [x]
  | y :: ys =>
      if item_cachedAt x <=? item_cachedAt y then x :: y :: ys
      else y :: insert_item x ys
  end.

Fixpoint sort_items (l : list PruneItem) : list PruneItem :=
  match l with
  | [] => []
  | x :: xs => insert_item x (sort_items xs)
  end.

(** [metas.reduce((sum, item) => sum + item.size, 0)] *)
Definition total_size (l : list PruneItem) : Z :=
  fold_left (fun sum item => sum + item_size item) l 0.

Section WithWorld.
Context `{Platform} {W : Type} `{World W}.

(** [key(method, url)] *)
Definition key (method url : string) : string := sha256_hex (method ++ ":" ++ url).

(** [fs.readFileSync(path)] of a file as raw bytes. *)
Definition file_bytes (f : File) : string :=
  match f with
  | Bytes b => b
  | MetaJson m => JSON_stringify_meta m
  end.

Definition rm (name : string) : M W unit :=
  d ← get_cache; put_cache (fs_rm name d).

(** [removePair(metaPath, bodyPath)] *)
Definition removePair (metaPath bodyPath : string) : M W unit :=
  rm metaPath ;; rm bodyPath.

(** [get(slug, cacheKey)] *)
Definition get (c : t) (slug cacheKey : string) : M W (option CachedResponse) :=
  let metaFile := metaName slug cacheKey in
  d ← get_cache;
  if negb (fs_exists metaFile d) then mret None
  else
    match fs_read metaFile d with
    | Some (MetaJson meta) =>
        now ← with_world date_now;
        if expired c now (meta_cachedAt meta)
        then removePair metaFile (meta_bodyFile meta) ;; mret None
        else
          match fs_read (meta_bodyFile meta) d with
          | None => rm metaFile ;; mret None
          | Some body =>
              mret (Some (mkCached (meta_status meta) (meta_headers meta)
                            (file_bytes body) (meta_contentType meta)
                            (meta_cachedAt meta)))
          end
    | _ => rm metaFile ;; mret None
    end.

(** The first loop of [prune], over the listing taken at its start. *)
Fixpoint prune_scan (c : t) (files : list string) (metas : list PruneItem)
    : M W (list PruneItem) :=
  match files with
  | [] => mret metas
  | file :: rest =>
      if negb (Js.endsWith file ".json") then prune_scan c rest metas
      else
        d ← get_cache;
        match fs_read file d with
        | Some (MetaJson meta) =>
            let bodyPath := meta_bodyFile meta in
            if negb (fs_exists bodyPath d)
            then rm file ;; prune_scan c rest metas
            else
              now ← with_world date_now;
              if expired c now (meta_cachedAt meta)
              then removePair file bodyPath ;; prune_scan c rest metas
              else prune_scan c rest
                     (metas ++ [mkItem file bodyPath (meta_cachedAt meta) (meta_size meta)])
        | _ => rm file ;; prune_scan c rest metas
        end
  end.

(** The second loop of [prune], over the sorted items. *)
Fixpoint prune_evict (c : t) (items : list PruneItem) (total : Z) : M W unit :=
  match items with
  | [] => mret tt
  | item :: rest =>
      if total <=? maxBytes c then mret tt
      else
        removePair (item_metaPath item) (item_bodyPath item) ;;
        prune_evict c rest (total - item_size item)
  end.

(** [prune()] *)
Definition prune (c : t) : M W unit :=
  d ← get_cache;
  metas ← prune_scan c (fs_readdir d) [];
  let total := total_size metas in
  if total <=? maxBytes c then mret tt
  else prune_evict c (sort_items metas) total.

(** [set(slug, cacheKey, response)] *)
Definition set (c : t) (slug cacheKey : string) (response : CachedResponse) : M W unit :=
  let bodyFile := bodyName slug cacheKey in
  let metaFile := metaName slug cacheKey in
  let size := Z.of_nat (String.length (cr_body response)) in
  if maxBytes c <? 2 * size then mret tt
  else
    d ← get_cache;
    put_cache (fs_write bodyFile (Bytes (cr_body response)) d) ;;
    now ← with_world date_now;
    let meta := mkMeta cacheKey slug now (cr_contentType response) (cr_status response)
                  (cr_headers response) bodyFile size in
    d' ← get_cache;
    put_cache (fs_write metaFile (MetaJson meta) d') ;;
    prune c.

(** [purgeAll()] *)
Definition purgeAll : M W nat :=
  d ← get_cache;
  put_cache [] ;;
  mret (length d).

(** [purgeBySlug(slug)] *)
Definition purgeBySlug (slug : string) : M W nat :=
  d ← get_cache;
  let pre := safeSlug slug ++ "_" in
  put_cache (List.filter (fun '(n, _) => negb (Js.startsWith n pre)) d) ;;
  mret (length (List.filter (fun '(n, _) => Js.startsWith n pre) d)).

End WithWorld.

End FileCache.

(* ===================================================================== *)
(** ** HTML rewriter ([mirror/rewrite-html.ts]) *)
(* ===================================================================== *)

Module RewriteHtml.

Fixpoint takeWhile (p : ascii -> bool) (s : string) : string :=
  match s with
  | EmptyString => EmptyString
  | String c s' => if p c then String c (takeWhile p s') else EmptyString
  end.

(** [l.join(sep)] *)
Fixpoint join (sep : string) (l : list string) : string :=
  match l with
  | [] => ""
  | [x] => x
  | x :: rest => x ++ sep ++ join sep rest
  end.

Definition not_ws (c : ascii) : bool := negb (Js.is_ws c).

(** The first two elements of [item.split(/\s+/, 2)]; the second is the
    empty string when there is none. *)
Definition split_ws2 (item : string) : string * string :=
  let rest := Js.dropStart Js.is_ws (Js.dropStart not_ws item) in
  (takeWhile not_ws item, takeWhile not_ws rest).

(** [$(el).attr(name)] *)
Definition attr_get (name : string) (attrs : list (string * string)) : option string :=
  match List.find (fun '(n, _) => String.eqb n name) attrs with
  | Some (_, v) => Some v
  | None => None
  end.

(** [$(el).attr(name, value)] on an element that has the attribute. *)
Fixpoint attr_set (name value : string) (attrs : list (string * string))
    : list (string * string) :=
  match attrs with
  | [] => [(name, value)]
  | (n, v) :: rest =>
      if String.eqb n name then (n, value) :: rest else (n, v) :: attr_set name value rest
  end.

(** [$('tag').remove()] *)
Fixpoint remove_tag (t : string) (n : node) : list node :=
  match n with
  | Text s => [Text s]
  | Elem tag attrs children =>
      if String.eqb tag t then []
      else [Elem tag attrs (flat_map (remove_tag t) children)]
  end.

(** [$('tag').each((_, el) => ...)] where the callback only updates the
    attributes of [el]. *)
Fixpoint each_tag (t : string) (f : list (string * string) -> list (string * string))
    (n : node) : node :=
  match n with
  | Text s => Text s
  | Elem tag attrs children =>
      Elem tag (if String.eqb tag t then f attrs else attrs) (map (each_tag t f) children)
  end.

(** Some [meta] element with [name="robots"] occurs in the nodes; [inHead]
    tells whether they lie below a [head] element. *)
Fixpoint has_robots (inHead : bool) (n : node) : bool :=
  match n with
  | Text _ => false
  | Elem tag attrs children =>
      (inHead && String.eqb tag "meta" &&
         match attr_get "name" attrs with
         | Some v => String.eqb v "robots"
         | None => false
         end)
      || existsb (has_robots (inHead || String.eqb tag "head")) children
  end.

Definition robots_meta : node :=
  Elem "meta" [("name", "robots"); ("content", "noindex,nofollow")] [].

(** [$('head').prepend(...)] *)
Fixpoint prepend_to_head (n : node) : node :=
  match n with
  | Text s => Text s
  | Elem tag attrs children =>
      let children' := map prepend_to_head children in
      Elem tag attrs (if String.eqb tag "head" then robots_meta :: children' else children')
  end.

Definition attrSelectors : list (string * list string) :=
  [ ("a", ["href"]); ("link", ["href"]); ("script", ["src"]); ("img", ["src"]);
    ("img", ["srcset"]); ("source", ["src"; "srcset"]); ("video", ["src"; "poster"]);
    ("audio", ["src"]); ("iframe", ["src"]); ("form", ["action"]) ].

Section WithPlatform.
Context `{Platform}.

Definition buildMirrorPath (slug : string) (url : URL) : string :=
  let path := if String.eqb (pathname url) "/" then "" else pathname url in
  "/m/" ++ Js.encodeURIComponent slug ++ path ++ search url.

(** [maybeRewriteUrl(raw, baseUrl, targetOrigin, slug)] on a string. *)
Definition maybeRewriteUrl (raw : string) (baseUrl targetOrigin : URL) (slug : string)
    : string :=
  if negb (Js.truthy raw) then raw
  else
    let value := Js.trim raw in
    if negb (Js.truthy value) then raw
    else if Js.startsWith value "#" || Js.startsWith value "data:" ||
            Js.startsWith value "mailto:" || Js.startsWith value "tel:" ||
            Js.startsWith value "javascript:"
    then raw
    else
      match URL_resolve value baseUrl with
      | None => raw
      | Some resolved =>
          if negb (String.eqb (URL_origin resolved) (URL_origin targetOrigin)) then raw
          else buildMirrorPath slug resolved
      end.

(** The callback of [parts.map] in [rewriteSrcset]. *)
Definition rewriteSrcsetItem (baseUrl targetOrigin : URL) (slug item : string) : string :=
  let '(urlPart, descriptor) := split_ws2 item in
  let next := maybeRewriteUrl urlPart baseUrl targetOrigin slug in
  if Js.truthy descriptor then next ++ " " ++ descriptor else next.

(** [rewriteSrcset(raw, baseUrl, targetOrigin, slug)] on a string. *)
Definition rewriteSrcset (raw : string) (baseUrl targetOrigin : URL) (slug : string)
    : string :=
  if negb (Js.truthy raw) then raw
  else
    let parts := List.filter Js.truthy (map Js.trim (Js.split "," raw)) in
    join ", " (map (rewriteSrcsetItem baseUrl targetOrigin slug) parts).

(** The body of [for (const attr of attrs)] for one element. *)
Definition rewriteAttr (baseUrl targetOrigin : URL) (slug : string)
    (attrs : list (string * string)) (attr : string) : list (string * string) :=
  match attr_get attr attrs with
  | None => attrs
  | Some current =>
      if negb (Js.truthy current) then attrs
      else if String.eqb attr "srcset" then
        let next := rewriteSrcset current baseUrl targetOrigin slug in
        if Js.truthy next then attr_set attr next attrs else attrs
      else
        let next := maybeRewriteUrl current baseUrl targetOrigin slug in
        if Js.truthy next then attr_set attr next attrs else attrs
  end.

(** The loop over [attrSelectors]. *)
Definition rewriteAttrs (baseUrl targetOrigin : URL) (slug : string) (doc : list node)
    : list node :=
  fold_left
    (fun doc '(selector, attrs) =>
       map (each_tag selector
              (fun elAttrs => fold_left (rewriteAttr baseUrl targetOrigin slug) attrs elAttrs))
           doc)
    attrSelectors doc.

(** [rewriteHtmlDocument] between [load(html)] and [$.html()]. *)
Definition rewriteDom (baseUrl targetOrigin : URL) (slug : string) (doc : list node)
    : list node :=
  let doc1 := flat_map (remove_tag "base") doc in
  let doc2 := rewriteAttrs baseUrl targetOrigin slug doc1 in
  if existsb (has_robots false) doc2 then doc2 else map prepend_to_head doc2.

(** [rewriteHtmlDocument({html, baseUrl, targetOrigin, slug})] *)
Definition rewriteHtmlDocument (html : string) (baseUrl targetOrigin : URL) (slug : string)
    : string :=
  cheerio_html (rewriteDom baseUrl targetOrigin slug (cheerio_load html)).

End WithPlatform.

End RewriteHtml.

(* ===================================================================== *)
(** ** CSS URL rewriter ([mirror/rewrite-css.ts]) *)
(* ===================================================================== *)

Module RewriteCss.

Definition is_quote (c : ascii) : bool := Ascii.eqb c "'" || Ascii.eqb c "034".

(** The second alternative of the pattern: a single or double quote that
    ends the string. *)
Fixpoint dropLastQuote (s : string) : string :=
  match s with
  | EmptyString => EmptyString
  | String c EmptyString => if is_quote c then EmptyString else s
  | String c rest => String c (dropLastQuote rest)
  end.

(** The replacement in [maybeRewriteCssUrl] of the pattern that matches a
    single or double quote at the start or at the end of the string, by the
    empty string: a quote at the start and a quote at the end are removed. *)
Definition stripQuotes (s : string) : string :=
  dropLastQuote
    match s with
    | String c rest => if is_quote c then rest else s
    | EmptyString => s
    end.

Section WithPlatform.
Context `{Platform}.

Definition buildMirrorPath (slug : string) (url : URL) : string :=
  let path := if String.eqb (pathname url) "/" then "" else pathname url in
  "/m/" ++ Js.encodeURIComponent slug ++ path ++ search url.

(** [maybeRewriteCssUrl(raw, baseUrl, targetOrigin, slug)] *)
Definition maybeRewriteCssUrl (raw : string) (baseUrl targetOrigin : URL) (slug : string)
    : string :=
  let value := stripQuotes (Js.trim raw) in
  if negb (Js.truthy value) then raw
  else if Js.startsWith value "data:" || Js.startsWith value "#" then raw
  else
    match URL_resolve value baseUrl with
    | None => raw
    | Some resolved =>
        if negb (String.eqb (URL_origin resolved) (URL_origin targetOrigin)) then raw
        else buildMirrorPath slug resolved
    end.

End WithPlatform.

End RewriteCss.

(* ===================================================================== *)
(** ** Requests, replies, services *)
(* ===================================================================== *)

Record AppConfig := mkConfig {
  MIRROR_ENABLE_HTTP : bool;
  MIRROR_UPSTREAM_TIMEOUT_MS : Z;
  MIRROR_MAX_HTML_BYTES : Z;
  MIRROR_MAX_BINARY_BYTES : Z
}.

(** [methodsAllowed: ['GET', 'HEAD']] of [loadConfig] *)
Definition methodsAllowed : list string := ["GET"; "HEAD"].

(** The parts of [AppServices] that the handlers read; the database and the
    cache directory are in the state. *)
Record AppServices := mkServices {
  config : AppConfig;
  allowlist : AllowlistFile;
  cache : FileCache.t;
  serviceDisabled : bool
}.

(** A JSON request body: an object with a string field [url], or anything
    else. *)
Inductive Body :=
| BodyUrl (url : string)
| BodyOther.

Record Request := mkRequest {
  req_method : string;
  (** [request.url]: path and query string as received *)
  req_url : string;
  req_slug : string;
  (** [request.params['*']] *)
  req_tail : option string;
  (** [request.headers], names in lower case *)
  req_headers : list (string * string);
  req_body : Body
}.

Record ResolveResult := mkResolved {
  res_slug : string;
  res_targetOrigin : string;
  res_launchUrl : string;
  res_created : bool
}.

Inductive Payload :=
| PError (error : string)        (** [{ok: false, error}] *)
| PResolved (r : ResolveResult)  (** [{ok: true, slug, targetOrigin, launchUrl, created}] *)
| PBytes (body : string)
| PEmpty.

Record Reply := mkReply {
  reply_status : Z;
  reply_headers : gmap string string;
  reply_payload : option Payload
}.

(** [reply.code(n)] *)
Definition reply_code (n : Z) (r : Reply) : Reply :=
  mkReply n (reply_headers r) (reply_payload r).

(** [reply.header(key, value)]: the framework stores names in lower case. *)
Definition reply_header (key value : string) (r : Reply) : Reply :=
  mkReply (reply_status r) (<[Js.toLowerCase key := value]> (reply_headers r)) (reply_payload r).

(** [reply.send(payload)].  [reply_headers] holds the headers that the
    handlers set; what the framework adds of its own when it writes the
    response (a default [content-type], [content-length]) is outside the
    model. *)
Definition reply_send (p : Payload) (r : Reply) : Reply :=
  mkReply (reply_status r) (reply_headers r) (Some p).

(** The reply as the [onRequest] hook of [server.ts] hands it to a route. *)
Definition fresh_reply : Reply :=
  reply_header "x-robots-tag" "noindex, nofollow" (mkReply 200 ∅ None).

(** [headers.get(name)] on a header list with lower-case names. *)
Definition headers_get (name : string) (hs : list (string * string)) : option string :=
  match List.find (fun '(n, _) => String.eqb (Js.toLowerCase n) name) hs with
  | Some (_, v) => Some v
  | None => None
  end.

(** [rewriteCssText] of [mirror/rewrite-css.ts].  Its traversal of the
    postcss syntax tree is not modelled: the pipeline only needs the text it
    returns, or the message of the syntax error it throws. *)
Class CssRewriter := {
  rewriteCssText : string -> URL -> URL -> string -> result string
}.

(* ===================================================================== *)
(** ** Resolve and proxy pipeline ([mirror/proxy.ts]) *)
(* ===================================================================== *)

Module Proxy.

Definition is_lower_or_digit (c : ascii) : bool := Js.is_lower c || Js.is_digit c.
Definition is_dash (c : ascii) : bool := Ascii.eqb c "-".
Definition is_slash (c : ascii) : bool := Ascii.eqb c "/".

Definition slugifyHost (host : string) : string :=
  let s := Js.slice0 48
             (Js.dropEnd is_dash (Js.dropStart is_dash
                (Js.replaceRuns is_lower_or_digit "-" (Js.toLowerCase host)))) in
  if Js.truthy s then s else "site".

(** The [for] loop of [ensureUniqueSlug] over the remaining suffixes. *)
Fixpoint firstFreeSuffix (base : string) (exists_ : string -> bool) (suffixes : list nat)
    : option string :=
  match suffixes with
  | [] => None
  | i :: rest =>
      let next := base ++ "-" ++ Js.show_nat i in
      if negb (exists_ next) then Some next else firstFreeSuffix base exists_ rest
  end.

Definition hopByHop : list string :=
  [ "connection"; "transfer-encoding"; "keep-alive"; "proxy-authenticate";
    "proxy-authorization"; "te"; "trailers"; "upgrade" ].

(** The body of the loop of [copySafeHeaders]. *)
Definition copyHeader (rewrittenBody : bool) (reply : Reply) (h : string * string) : Reply :=
  let '(key, value) := h in
  let lower := Js.toLowerCase key in
  if existsb (String.eqb lower) hopByHop then reply
  else if String.eqb lower "content-security-policy" then reply
  else if String.eqb lower "set-cookie" then reply
  else if rewrittenBody &&
          (String.eqb lower "content-length" || String.eqb lower "content-encoding" ||
           String.eqb lower "etag")
  then reply
  else reply_header key value reply.

Definition copySafeHeaders (reply : Reply) (headers : list (string * string))
    (rewrittenBody : bool) : Reply :=
  reply_header "x-robots-tag" "noindex, nofollow"
    (fold_left (copyHeader rewrittenBody) headers reply).

Definition sanitizeOutgoingHeaders (request : Request) : list (string * string) :=
  let pick name :=
    match headers_get name (req_headers request) with
    | Some v => [(name, v)]
    | None => []
    end in
  pick "user-agent" ++ pick "accept" ++ pick "accept-language"
  ++ [("cache-control", "no-cache"); ("pragma", "no-cache")].

Definition buildLaunchUrl (slug : string) (url : URL) : string :=
  let path := if String.eqb (pathname url) "/" then "" else pathname url in
  "/m/" ++ Js.encodeURIComponent slug ++ path ++ search url.

(** [response.status >= 300 && response.status < 400 &&
    response.headers.get('location')] *)
Definition redirectLocation (response : UpstreamResponse) : option string :=
  if (300 <=? resp_status response) && (resp_status response <? 400) then
    match headers_get "location" (resp_headers response) with
    | Some l => if Js.truthy l then Some l else None
    | None => None
    end
  else None.

Section WithWorld.
Context `{Platform} `{CssRewriter} {W : Type} `{World W}.

Definition ensureUniqueSlug (base : string) (exists_ : string -> bool) : M W string :=
  if negb (exists_ base) then mret base
  else
    match firstFreeSuffix base exists_ (seq 2 998) with
    | Some next => mret next
    | None =>
        hex ← with_world (random_hex 3);
        mret (base ++ "-" ++ hex)
    end.

(** The [for] loop of [fetchWithRedirectValidation] with [hops] iterations
    left. *)
Fixpoint redirectLoop (services : AppServices) (method : string)
    (headers : list (string * string)) (hops : nat) (current : URL)
    : M W (UpstreamResponse * URL) :=
  match hops with
  | O => throw "too_many_redirects"
  | S hops' =>
      SsrfGuard.assertSafeUrl current (MIRROR_ENABLE_HTTP (config services)) ;;
      emit (EvGuard current) ;;
      match AllowlistStore.match_ (allowlist services) current with
      | None => throw "domain_not_allowed"
      | Some _ =>
          emit (EvMatch current) ;;
          emit (EvFetch current) ;;
          response ← with_world_result (upstream_fetch method current headers);
          match redirectLocation response with
          | Some location =>
              match URL_resolve location current with
              | None => throw "Invalid URL"
              | Some next =>
                  SsrfGuard.assertSafeUrl next (MIRROR_ENABLE_HTTP (config services)) ;;
                  emit (EvGuard next) ;;
                  match AllowlistStore.match_ (allowlist services) next with
                  | None => throw "domain_not_allowed"
                  | Some _ =>
                      emit (EvMatch next) ;;
                      emit (EvFollow next) ;;
                      redirectLoop services method headers hops' next
                  end
              end
          | None => mret (response, current)
          end
      end
  end.

(** [fetchWithRedirectValidation({request, upstreamUrl, services, method})];
    [new URL(upstreamUrl.toString())] is a copy of [upstreamUrl]. *)
Definition fetchWithRedirectValidation (request : Request) (upstreamUrl : URL)
    (services : AppServices) (method : string) : M W (UpstreamResponse * URL) :=
  redirectLoop services method (sanitizeOutgoingHeaders request) 5 upstreamUrl.

Definition resolveOrCreateMirrorForUrl (url : URL) : M W (bool * MirrorRecord) :=
  let targetOrigin := protocol url ++ "//" ++ URL_host url in
  db ← get_db;
  match MirrorDb.findMirrorByOrigin db targetOrigin with
  | Some existing =>
      MirrorDb.touchMirror (mr_slug existing) (Some (pathname url ++ search url)) ;;
      mret (false, existing)
  | None =>
      let baseSlug := slugifyHost (hostname url) in
      slug ← ensureUniqueSlug baseSlug
               (fun candidate =>
                  match MirrorDb.findMirrorBySlug db candidate with
                  | Some _ => true
                  | None => false
                  end);
      mirror ← MirrorDb.createMirror slug targetOrigin (Some (pathname url ++ search url));
      mret (true, mirror)
  end.

Definition resolveTargetUrl (services : AppServices) (rawUrl : string) : M W ResolveResult :=
  match URL_parse rawUrl with
  | None => throw "invalid_url"
  | Some parsed =>
      SsrfGuard.assertSafeUrl parsed (MIRROR_ENABLE_HTTP (config services)) ;;
      if negb (AllowlistStore.isAllowed (allowlist services) parsed)
      then throw "domain_not_allowed"
      else
        cm ← resolveOrCreateMirrorForUrl parsed;
        let '(created, mirror) := cm in
        MirrorDb.logEvent info resolve (Some (mr_slug mirror)) "Mirror resolved"
          [("url", MetaStr (URL_toString parsed)); ("created", MetaBool created)] ;;
        mret (mkResolved (mr_slug mirror) (mr_targetOrigin mirror)
                (buildLaunchUrl (mr_slug mirror) parsed) created)
  end.

(** The [catch] block of [handleMirrorRequest]. *)
Definition proxyErrorStatus (message : string) : Z :=
  if String.eqb message "domain_not_allowed" || String.eqb message "ssrf_blocked" then 403
  else if String.eqb message "invalid_url" then 400
  else 502.

Definition proxyErrorKind (message : string) : MirrorEventKind :=
  if String.eqb message "ssrf_blocked" then ssrf_blocked_kind
  else if Js.includes message "timeout" then upstream_timeout
  else proxy_error.

Definition proxyFailed (request : Request) (reply : Reply) (slug message : string)
    : M W Reply :=
  MirrorDb.logEvent error (proxyErrorKind message) (Some slug) "Proxy request failed"
    [("error", MetaStr message); ("path", MetaStr (req_url request))] ;;
  mret (reply_send (PError message) (reply_code (proxyErrorStatus message) reply)).

(** The [try] block of [handleMirrorRequest].  [Buffer.from(arrayBuffer)],
    [buffer.toString('utf8')] and [Buffer.from(text)] are the identity on
    byte strings. *)
Definition proxyUpstream (services : AppServices) (request : Request) (reply : Reply)
    (method slug cacheKey : string) (targetOrigin upstreamUrl : URL) : M W Reply :=
  fetched ← fetchWithRedirectValidation request upstreamUrl services method;
  let '(response, finalUrl) := fetched in
  let contentType :=
    default "application/octet-stream" (headers_get "content-type" (resp_headers response)) in
  let isHtml := Js.includes contentType "text/html" in
  let isCss := Js.includes contentType "text/css" in
  let textLike :=
    isHtml || isCss || Js.includes contentType "javascript" ||
    Js.includes contentType "json" || Js.startsWith contentType "text/" in
  if String.eqb method "HEAD" then
    mret (reply_send PEmpty
            (reply_header "x-cache" "MISS"
               (copySafeHeaders (reply_code (resp_status response) reply)
                  (resp_headers response) false)))
  else
    buffer ← SsrfGuard.lift (resp_body response);
    let byteLength := Z.of_nat (String.length buffer) in
    if textLike && isHtml && (MIRROR_MAX_HTML_BYTES (config services) <? byteLength)
    then mret (reply_send (PError "html_too_large") (reply_code 413 reply))
    else if negb textLike && (MIRROR_MAX_BINARY_BYTES (config services) <? byteLength)
    then mret (reply_send (PError "binary_too_large") (reply_code 413 reply))
    else
      out ← (if isHtml then
               mret (RewriteHtml.rewriteHtmlDocument buffer finalUrl targetOrigin slug, true)
             else if isCss then
               css ← SsrfGuard.lift (rewriteCssText buffer finalUrl targetOrigin slug);
               mret (css, true)
             else mret (buffer, false));
      let '(outputBody, rewritten) := out in
      let reply1 :=
        copySafeHeaders (reply_code (resp_status response) reply)
          (resp_headers response) rewritten in
      let reply2 := reply_header "x-cache" "MISS" reply1 in
      let reply3 :=
        if rewritten
        then reply_header "content-length" (Js.show_nat (String.length outputBody)) reply2
        else reply2 in
      let reply4 := reply_send (PBytes outputBody) reply3 in
      (if String.eqb method "GET" && (200 <=? resp_status response)
          && (resp_status response <? 300)
       then
         now ← with_world date_now;
         FileCache.set (cache services) slug cacheKey
           (mkCached (resp_status response) (map_to_list (reply_headers reply4))
              outputBody contentType now)
       else mret tt) ;;
      MirrorDb.touchMirror slug (Some (pathname finalUrl ++ search finalUrl)) ;;
      mret reply4.

Definition handleMirrorRequest (services : AppServices) (request : Request) (reply : Reply)
    : M W Reply :=
  let method := Js.toUpperCase (req_method request) in
  if negb (existsb (String.eqb method) methodsAllowed)
  then mret (reply_send (PError "method_not_allowed") (reply_code 405 reply))
  else if serviceDisabled services
  then mret (reply_send (PError "service_disabled") (reply_code 503 reply))
  else
    let slug := req_slug request in
    db ← get_db;
    match MirrorDb.findMirrorBySlug db slug with
    | None => mret (reply_send (PError "mirror_not_found") (reply_code 404 reply))
    | Some mirror =>
        if mr_disabled mirror
        then mret (reply_send (PError "mirror_not_found") (reply_code 404 reply))
        else
          let tail := Js.dropStart is_slash (default "" (req_tail request)) in
          match URL_parse (mr_targetOrigin mirror) with
          | None => throw "Invalid URL"
          | Some upstreamBase =>
              let rawQuery := Js.sliceFromFirst "?" (req_url request) in
              let upstreamUrl :=
                URL_set_search
                  (URL_set_pathname upstreamBase (if Js.truthy tail then "/" ++ tail else "/"))
                  rawQuery in
              let cacheKey := FileCache.key method (URL_toString upstreamUrl) in
              cached ← (if String.eqb method "GET"
                        then FileCache.get (cache services) slug cacheKey
                        else mret None);
              match cached with
              | Some hit =>
                  MirrorDb.logEvent info cache_hit (Some slug) "Cache hit"
                    [("url", MetaStr (URL_toString upstreamUrl))] ;;
                  mret (reply_send (PBytes (cr_body hit))
                          (reply_header "x-robots-tag" "noindex, nofollow"
                             (reply_header "x-cache" "HIT"
                                (fold_left (fun r '(k, v) => reply_header k v r)
                                   (cr_headers hit) (reply_code (cr_status hit) reply)))))
              | None =>
                  MirrorDb.logEvent info cache_miss (Some slug) "Cache miss"
                    [("url", MetaStr (URL_toString upstreamUrl))] ;;
                  try_catch
                    (proxyUpstream services request reply method slug cacheKey
                       upstreamBase upstreamUrl)
                    (proxyFailed request reply slug)
              end
          end
    end.

End WithWorld.

End Proxy.

(* ===================================================================== *)
(** ** Public routes ([routes/public.ts]) and the error handler of
       [server.ts] *)
(* ===================================================================== *)

Module Routes.

(** The status chosen by the [catch] block of [POST /api/resolve]. *)
Definition resolveErrorStatus (message : string) : Z :=
  if String.eqb message "invalid_url" || String.eqb message "invalid_scheme" then 400
  else if String.eqb message "domain_not_allowed" || String.eqb message "ssrf_blocked" then 403
  else if String.eqb message "rate_limited" then 429
  else 400.

(** [resolveBodySchema.safeParse(request.body)] *)
Definition parseResolveBody (b : Body) : option string :=
  match b with
  | BodyUrl url =>
      if (1 <=? String.length url)%nat && (String.length url <=? 2000)%nat
      then Some url else None
  | BodyOther => None
  end.

Section WithWorld.
Context `{Platform} `{CssRewriter} {W : Type} `{World W}.

(** [app.post('/api/resolve', ...)] *)
Definition apiResolve (services : AppServices) (request : Request) (reply : Reply)
    : M W Reply :=
  if serviceDisabled services
  then mret (reply_send (PError "service_disabled") (reply_code 503 reply))
  else
    match parseResolveBody (req_body request) with
    | None => mret (reply_send (PError "invalid_url") (reply_code 400 reply))
    | Some url =>
        try_catch
          (result ← Proxy.resolveTargetUrl services url;
           mret (reply_send (PResolved result) reply))
          (fun message =>
             MirrorDb.logEvent warn resolve_fail None "Resolve failed"
               [("error", MetaStr message); ("url", MetaStr url)] ;;
             mret (reply_send (PError message)
                     (reply_code (resolveErrorStatus message) reply)))
    end.

(** [app.route({method: ['GET', 'HEAD'], url, handler})]: a request with
    another method finds no route and is answered by the handler of
    [setNotFoundHandler] in [server.ts]. *)
Definition route_GET_HEAD (handler : Request -> Reply -> M W Reply) (request : Request)
    (reply : Reply) : M W Reply :=
  if String.eqb (req_method request) "GET" || String.eqb (req_method request) "HEAD"
  then handler request reply
  else mret (reply_send (PError "not_found") (reply_code 404 reply)).

(** The routes [/m/:slug] and [/m/:slug/*]. *)
Definition mirrorRoot (services : AppServices) : Request -> Reply -> M W Reply :=
  route_GET_HEAD
    (fun request reply =>
       Proxy.handleMirrorRequest services
         (mkRequest (req_method request) (req_url request) (req_slug request) (Some "")
            (req_headers request) (req_body request))
         reply).

Definition mirrorTail (services : AppServices) : Request -> Reply -> M W Reply :=
  route_GET_HEAD (fun request reply => Proxy.handleMirrorRequest services request reply).

(** A route run under [setErrorHandler]: an exception that escapes the
    handler carries no [statusCode], the reply is [500 internal_error]. *)
Definition serve (handler : Request -> Reply -> M W Reply) (request : Request)
    (s : Sys W) : Sys W * Reply :=
  match handler request fresh_reply s with
  | (s', Ok reply) => (s', reply)
  | (s', Throw _) =>
      (s', reply_send (PError "internal_error") (reply_code 500 fresh_reply))
  end.

End WithWorld.

End Routes.

(* ===================================================================== *)
(** ** A concrete platform and a scripted world *)
(* ===================================================================== *)

(** An executable instance of the two interfaces, used to run the handlers
    on concrete requests.  The URL functions follow the WHATWG parser on
    plain ASCII references (scheme, optional userinfo, host, optional port,
    path with dot segments, query, fragment; no percent-encoding, no
    backslashes, no IPv6 or non-canonical IPv4 hosts). *)
Module Model.

Definition not_in (cs : list ascii) (c : ascii) : bool := negb (existsb (Ascii.eqb c) cs).

(** [s] without its longest prefix of characters satisfying [p]. *)
Definition after (p : ascii -> bool) (s : string) : string := Js.dropStart p s.

Definition scheme_char (c : ascii) : bool :=
  Js.is_lower c || Js.is_upper c || Js.is_digit c ||
  existsb (Ascii.eqb c) ["+"; "-"; "."]%char.

(** The scheme of a reference that starts with [scheme:], in lower case. *)
Definition scheme_of (s : string) : option string :=
  let name := RewriteHtml.takeWhile scheme_char s in
  match name, after scheme_char s with
  | String c _, String ":" _ =>
      if Js.is_lower c || Js.is_upper c then Some (Js.toLowerCase name) else None
  | _, _ => None
  end.

Definition default_port (proto : string) : string :=
  if String.eqb proto "https:" then "443"
  else if String.eqb proto "http:" then "80"
  else "".

(** Removal of [.] and [..] segments; [segs] are the segments after the
    leading slash, [out] the segments kept so far, last first. *)
Fixpoint normalize_segments (segs : list string) (out : list string) : list string :=
  match segs with
  | [] => rev out
  | seg :: rest =>
      let last := match rest with [] => true | _ => false end in
      if String.eqb seg "." then
        if last then rev ("" :: out) else normalize_segments rest out
      else if String.eqb seg ".." then
        if last then rev ("" :: tl out) else normalize_segments rest (tl out)
      else normalize_segments rest (seg :: out)
  end.

(** A path that starts with a slash, without dot segments. *)
Definition normalize_path (path : string) : string :=
  match path with
  | String "/" rest =>
      "/" ++ RewriteHtml.join "/" (normalize_segments (Js.split "/" rest) [])
  | _ => "/"
  end.

(** The path, query and fragment of the text that follows the authority. *)
Definition split_tail (s : string) : string * string * string :=
  let path := RewriteHtml.takeWhile (not_in ["?"; "#"]%char) s in
  let rest := after (not_in ["?"; "#"]%char) s in
  let query := RewriteHtml.takeWhile (not_in ["#"]%char) rest in
  let frag := after (not_in ["#"]%char) rest in
  (path,
   if String.eqb query "?" then "" else query,
   if String.eqb frag "#" then "" else frag).

(** A URL of a special scheme from the text after [scheme://]. *)
Definition parse_authority (proto rest : string) : option URL :=
  let authority := RewriteHtml.takeWhile (not_in ["/"; "?"; "#"]%char) rest in
  let tail := after (not_in ["/"; "?"; "#"]%char) rest in
  let hasCred := Js.includes authority "@" in
  let cred := if hasCred then RewriteHtml.takeWhile (not_in ["@"]%char) authority else "" in
  let hostport :=
    if hasCred then
      match after (not_in ["@"]%char) authority with
      | String _ hp => hp
      | EmptyString => ""
      end
    else authority in
  let user := RewriteHtml.takeWhile (not_in [":"]%char) cred in
  let pass :=
    match after (not_in [":"]%char) cred with
    | String _ p => p
    | EmptyString => ""
    end in
  let host := Js.toLowerCase (RewriteHtml.takeWhile (not_in [":"]%char) hostport) in
  let port :=
    match after (not_in [":"]%char) hostport with
    | String _ p => if String.eqb p (default_port proto) then "" else p
    | EmptyString => ""
    end in
  let '(path, query, frag) := split_tail tail in
  if String.eqb host "" then None
  else Some (mkURL proto user pass host port
               (normalize_path (if String.eqb path "" then "/" else path)) query frag).

(** [new URL(s)] *)
Definition parse (s : string) : option URL :=
  let s := Js.trim s in
  match scheme_of s with
  | Some scheme =>
      let proto := scheme ++ ":" in
      let rest := match after scheme_char s with String _ r => r | EmptyString => "" end in
      if Js.startsWith rest "//" then
        parse_authority proto (Js.dropStart (Ascii.eqb "/") rest)
      else if String.eqb proto "https:" || String.eqb proto "http:" then None
      else
        let '(path, query, frag) := split_tail rest in
        Some (mkURL proto "" "" "" "" path query frag)
  | None => None
  end.

(** The directory of a path: everything up to its last slash. *)
Fixpoint dirname (path : string) : string :=
  match path with
  | EmptyString => EmptyString
  | String c rest =>
      if Js.includes rest "/" then String c (dirname rest)
      else if Ascii.eqb c "/" then String c EmptyString
      else EmptyString
  end.

(** [new URL(s, base)] *)
Definition resolve (s : string) (base : URL) : option URL :=
  let s := Js.trim s in
  match scheme_of s with
  | Some _ => parse s
  | None =>
      if Js.startsWith s "//" then parse (protocol base ++ s)
      else
        let '(path, query, frag) := split_tail s in
        if String.eqb path "" then
          Some (mkURL (protocol base) (username base) (password base) (hostname base)
                  (port base) (pathname base)
                  (if Js.startsWith s "?" then query else search base) frag)
        else
          let full :=
            if Js.startsWith path "/" then path else dirname (pathname base) ++ path in
          Some (mkURL (protocol base) (username base) (password base) (hostname base)
                  (port base) (normalize_path full) query frag)
  end.

Definition set_pathname (u : URL) (p : string) : URL :=
  mkURL (protocol u) (username u) (password u) (hostname u) (port u)
    (normalize_path (if Js.startsWith p "/" then p else "/" ++ p)) (search u) (hash u).

Definition set_search (u : URL) (q : string) : URL :=
  mkURL (protocol u) (username u) (password u) (hostname u) (port u) (pathname u)
    (if String.eqb q "" || String.eqb q "?" then ""
     else if Js.startsWith q "?" then q else "?" ++ q)
    (hash u).

Definition dquote : ascii := ascii_of_nat 34.

Definition void_elements : list string :=
  ["area"; "base"; "br"; "col"; "embed"; "hr"; "img"; "input"; "link"; "meta";
   "source"; "track"; "wbr"].

(** Text of a document: attribute values in double quotes, no closing tag
    for void elements, no escaping. *)
Fixpoint html_of (n : node) : string :=
  match n with
  | Text s => s
  | Elem tag attrs children =>
      "<" ++ tag
      ++ fold_right (fun '(k, v) acc => " " ++ k ++ "=" ++ String dquote (v ++ String dquote acc))
           "" attrs
      ++ ">"
      ++ (if existsb (String.eqb tag) void_elements then ""
          else fold_right (fun c acc => html_of c ++ acc) "" children ++ "</" ++ tag ++ ">")
  end.

Definition html_text (doc : list node) : string :=
  fold_right (fun c acc => html_of c ++ acc) "" doc.

Definition lookup_table {A} (key : string) (table : list (string * A)) : option A :=
  match List.find (fun '(k, _) => String.eqb k key) table with
  | Some (_, v) => Some v
  | None => None
  end.

(** A page with one in-origin link, and what one pass of the rewriter for
    the slug [example-com] makes of it. *)
Definition linked_page : list node :=
  [ Elem "html" []
      [ Elem "head" [] [];
        Elem "body" [] [ Elem "a" [("href", "/x")] [Text "next"] ] ] ].

Definition linked_page_once : list node :=
  [ Elem "html" []
      [ Elem "head" [] [ Elem "meta" [("name", "robots"); ("content", "noindex,nofollow")] [] ];
        Elem "body" [] [ Elem "a" [("href", "/m/example-com/x")] [Text "next"] ] ] ].

(** A page whose references all point elsewhere, and what one pass of the
    rewriter makes of it. *)
Definition foreign_page : list node :=
  [ Elem "html" []
      [ Elem "head" [] [ Elem "base" [("href", "https://other.org/")] [] ];
        Elem "body" []
          [ Elem "a" [("href", "https://other.org/x")] [Text "out"];
            Elem "a" [("href", "#top")] [Text "up"];
            Elem "img" [("srcset", "https://cdn.other.org/a.png   1x ,https://cdn.other.org/b.png 2x")] [] ] ] ].

Definition foreign_page_once : list node :=
  [ Elem "html" []
      [ Elem "head" [] [ Elem "meta" [("name", "robots"); ("content", "noindex,nofollow")] [] ];
        Elem "body" []
          [ Elem "a" [("href", "https://other.org/x")] [Text "out"];
            Elem "a" [("href", "#top")] [Text "up"];
            Elem "img" [("srcset", "https://cdn.other.org/a.png 1x, https://cdn.other.org/b.png 2x")] [] ] ] ].

(** The pages whose text the model can load back. *)
Definition known_pages : list (string * list node) :=
  map (fun doc => (html_text doc, doc))
      [linked_page; linked_page_once; foreign_page; foreign_page_once].

(** Stand-ins for the functions that no run below depends on: the digest is
    the identity, the IPv6 recogniser looks for two colons, and a text
    outside [known_pages] is loaded as the body text of an empty page. *)
#[export] Instance platform : Platform := {
  net_isIPv6 s := Js.includes (after (not_in [":"]%char) s) ":" &&
                  Js.includes (match after (not_in [":"]%char) s with
                               | String _ r => r | EmptyString => "" end) ":";
  sha256_hex s := s;
  JSON_stringify_meta m := meta_cacheKey m;
  URL_parse := parse;
  URL_resolve := resolve;
  URL_set_pathname := set_pathname;
  URL_set_search := set_search;
  cheerio_load s :=
    default [Elem "html" [] [Elem "head" [] []; Elem "body" [] [Text s]]]
            (lookup_table s known_pages);
  cheerio_html := html_text
}.

#[export] Instance css : CssRewriter := {
  rewriteCssText text _ _ _ := Ok text
}.

(** The outside world as a script: a clock that advances by one
    millisecond per reading, a counter behind the random bytes, a DNS table
    and a table of upstream responses by URL. *)
Record Script := mkScript {
  clock : Z;
  counter : nat;
  dns_table : list (string * result (list string));
  net_table : list (string * result UpstreamResponse)
}.

#[export] Instance world : World Script := {
  dns_lookup h w :=
    (w, default (Throw ("getaddrinfo ENOTFOUND " ++ h)) (lookup_table h (dns_table w)));
  upstream_fetch method url headers w :=
    (w, default (Throw "fetch failed") (lookup_table (URL_toString url) (net_table w)));
  date_now w := (mkScript (clock w + 1) (counter w) (dns_table w) (net_table w), clock w);
  date_iso w :=
    (mkScript (clock w + 1) (counter w) (dns_table w) (net_table w),
     "T" ++ Js.show_nat (Z.to_nat (clock w)));
  random_hex n w :=
    (mkScript (clock w) (S (counter w)) (dns_table w) (net_table w),
     Js.show_nat (counter w))
}.

End Model.

(** Concrete services, requests and worlds on which the handlers are run. *)
Module Scenario.
Import Model.

Definition services : AppServices :=
  mkServices
    (mkConfig false 12000 5242880 26214400)
    (mkAllowlist 1 [mkEntry "example" "example.com" false ["https"] true None])
    (FileCache.mk 7200 1073741824)
    false.

Definition example_root : URL := mkURL "https:" "" "" "example.com" "" "/" "" "".

(** A world in which [example.com] resolves to a public address. *)
Definition public_world : Script :=
  mkScript 1000 0 [("example.com", Ok ["93.184.216.34"])] [].

(** A world in which the lookup of [example.com] returns no answer. *)
Definition silent_dns_world : Script :=
  mkScript 1000 0 [("example.com", Ok [])] [].

Definition redirect_to (location : string) : result UpstreamResponse :=
  Ok (mkResponse 301 [("location", location)] (Ok "")).

(** A world in which [https://example.com/] starts a chain of redirects
    that never ends: [/] to [/1] to [/2] ... to [/6]. *)
Definition redirecting_world : Script :=
  mkScript 1000 0 [("example.com", Ok ["93.184.216.34"])]
    [ ("https://example.com/", redirect_to "/1");
      ("https://example.com/1", redirect_to "/2");
      ("https://example.com/2", redirect_to "/3");
      ("https://example.com/3", redirect_to "/4");
      ("https://example.com/4", redirect_to "/5");
      ("https://example.com/5", redirect_to "/6") ].

(** A world in which [https://example.com/] answers with an HTML page and
    headers that must not be forwarded. *)
Definition page_world : Script :=
  mkScript 1000 0 [("example.com", Ok ["93.184.216.34"])]
    [ ("https://example.com/",
       Ok (mkResponse 200
             [ ("content-type", "text/html; charset=utf-8");
               ("content-length", "9999");
               ("content-encoding", "gzip");
               ("etag", "abc");
               ("set-cookie", "sid=1");
               ("connection", "keep-alive");
               ("content-security-policy", "default-src 'self'");
               ("x-robots-tag", "all");
               ("cache-control", "max-age=60") ]
             (Ok "hello"))) ].

Definition start (w : Script) (db : Db) (d : Dir) : Sys Script := mkSys w db d [].

Definition empty_db : Db := mkDb [] [].

Definition example_mirror : MirrorRecord :=
  mkMirror "mir_0" "example-com" "https://example.com" "T0" "T0" (Some "/") false.

Definition registered_db : Db := mkDb [example_mirror] [].

Definition resolve_request (url : string) : Request :=
  mkRequest "POST" "/api/resolve" "" None [] (BodyUrl url).

Definition mirror_request (method : string) : Request :=
  mkRequest method "/m/example-com/" "example-com" (Some "") [("accept", "text/html")] BodyOther.

End Scenario.

(* ===================================================================== *)
(** ** Notions used in the statements and tactics used in the proofs *)
(* ===================================================================== *)

Definition octet_check (n : nat) : bool :=
  let s := SpecRanges.show_octet n in
  Js.all_chars Js.is_digit s && SsrfGuard.v4Seg s
  && (SsrfGuard.digits_value 0 s =? Z.of_nat n).

Definition digit_or_dot (c : ascii) : bool := Js.is_digit c || Ascii.eqb c ".".

Ltac shiftr_to_div :=
  repeat match goal with
    | H : context [Z.shiftr ?x ?k] |- _ =>
        let k' := eval vm_compute in k in
        let p := eval vm_compute in (2 ^ k') in
        replace (Z.shiftr x k) with (x / p) in H
          by (symmetry; apply (Z.shiftr_div_pow2 x k'); lia)
    end.

(** Only the state of the outside world differs. *)
Definition same_stores {W} (s s' : Sys W) : Prop :=
  sys_db s' = sys_db s /\ sys_cache s' = sys_cache s /\ sys_trace s' = sys_trace s.


Definition is_fetch (e : TraceEvent) : bool :=
  match e with EvFetch _ => true | _ => false end.

Definition is_follow (e : TraceEvent) : bool :=
  match e with EvFollow _ => true | _ => false end.

(** Number of events of a kind in a trace. *)
Definition count_events (p : TraceEvent -> bool) (tr : list TraceEvent) : nat :=
  length (List.filter p tr).

(** Scanning a trace with its two previous events at hand: a fetch and a
    followed redirect come right after the guard and the allowlist match of
    the same URL. *)
Fixpoint validated_from (p2 p1 : option TraceEvent) (tr : list TraceEvent) : Prop :=
  match tr with
  | [] => True
  | e :: rest =>
      match e with
      | EvFetch u | EvFollow u => p2 = Some (EvGuard u) /\ p1 = Some (EvMatch u)
      | _ => True
      end
      /\ validated_from p1 (Some e) rest
  end.

(** Wherever a fetch of [u], or a redirect followed to [u], occurs in the
    trace, the two events just before it are the guard passing on [u] and
    the allowlist matching [u]. *)
Definition validated_before (tr : list TraceEvent) : Prop :=
  forall (pre post : list TraceEvent) (u : URL),
    tr = (pre ++ EvFetch u :: post)%list \/ tr = (pre ++ EvFollow u :: post)%list ->
    exists pre' : list TraceEvent, pre = (pre' ++ [EvGuard u; EvMatch u])%list.

(** The runs of the fetch loop, told by the calls they make.  A state is
    threaded from call to call, so that a call made out of turn, or left
    out, shows in the state the run ends in. *)
Section ValidatedRuns.
Context `{Platform} {W : Type} `{World W}.
Variables (services : AppServices) (method : string) (headers : list (string * string)).

Definition logged (e : TraceEvent) (s : Sys W) : Sys W :=
  mkSys (sys_world s) (sys_db s) (sys_cache s) (sys_trace s ++ [e]).

Definition in_world (w : W) (s : Sys W) : Sys W :=
  mkSys w (sys_db s) (sys_cache s) (sys_trace s).

(** From [s], [assertSafeUrl] returns on [u] and the allowlist has an entry
    that matches [u]; the run is then in [s']. *)
Definition checks_pass (u : URL) (s s' : Sys W) : Prop :=
  exists s1 : Sys W,
    SsrfGuard.assertSafeUrl u (MIRROR_ENABLE_HTTP (config services)) s = (s1, Ok tt)
    /\ AllowlistStore.match_ (allowlist services) u <> None
    /\ s' = logged (EvMatch u) (logged (EvGuard u) s1).

(** From [s], [assertSafeUrl] throws [e] on [u], or it returns and no
    allowlist entry matches [u]. *)
Definition checks_stop (u : URL) (s s' : Sys W) (e : string) : Prop :=
  SsrfGuard.assertSafeUrl u (MIRROR_ENABLE_HTTP (config services)) s = (s', Throw e)
  \/ exists s1 : Sys W,
       SsrfGuard.assertSafeUrl u (MIRROR_ENABLE_HTTP (config services)) s = (s1, Ok tt)
       /\ AllowlistStore.match_ (allowlist services) u = None
       /\ s' = logged (EvGuard u) s1
       /\ e = "domain_not_allowed".

(** From [s], [fetch(u, {method, headers, ...})] is called and gives [r]. *)
Definition fetch_issued (u : URL) (s s' : Sys W) (r : result UpstreamResponse) : Prop :=
  exists w : W,
    upstream_fetch method u headers (sys_world s) = (w, r)
    /\ s' = in_world w (logged (EvFetch u) s).

(** [validated_run hops u s s' r]: the loop, with [hops] iterations left and
    [u] as current URL, goes from [s] to [s'] with outcome [r].  Every rule
    with a fetch of a URL has, as the step before it, the checks passing on
    that URL from the state the run is in; a redirect target goes through
    the checks when the redirect is read, and again as the current URL of the
    next iteration. *)
Inductive validated_run :
    nat -> URL -> Sys W -> Sys W -> result (UpstreamResponse * URL) -> Prop :=
| run_exhausted (u : URL) (s : Sys W) :
    validated_run 0 u s s (Throw "too_many_redirects")
| run_stopped (hops : nat) (u : URL) (s s' : Sys W) (e : string) :
    checks_stop u s s' e ->
    validated_run (S hops) u s s' (Throw e)
| run_fetch_failed (hops : nat) (u : URL) (s s1 s2 : Sys W) (e : string) :
    checks_pass u s s1 ->
    fetch_issued u s1 s2 (Throw e) ->
    validated_run (S hops) u s s2 (Throw e)
| run_returned (hops : nat) (u : URL) (s s1 s2 : Sys W) (response : UpstreamResponse) :
    checks_pass u s s1 ->
    fetch_issued u s1 s2 (Ok response) ->
    Proxy.redirectLocation response = None ->
    validated_run (S hops) u s s2 (Ok (response, u))
| run_bad_location (hops : nat) (u : URL) (s s1 s2 : Sys W)
    (response : UpstreamResponse) (location : string) :
    checks_pass u s s1 ->
    fetch_issued u s1 s2 (Ok response) ->
    Proxy.redirectLocation response = Some location ->
    URL_resolve location u = None ->
    validated_run (S hops) u s s2 (Throw "Invalid URL")
| run_redirect_stopped (hops : nat) (u next : URL) (s s1 s2 s3 : Sys W)
    (response : UpstreamResponse) (location e : string) :
    checks_pass u s s1 ->
    fetch_issued u s1 s2 (Ok response) ->
    Proxy.redirectLocation response = Some location ->
    URL_resolve location u = Some next ->
    checks_stop next s2 s3 e ->
    validated_run (S hops) u s s3 (Throw e)
| run_redirected (hops : nat) (u next : URL) (s s1 s2 s3 s' : Sys W)
    (response : UpstreamResponse) (location : string)
    (r : result (UpstreamResponse * URL)) :
    checks_pass u s s1 ->
    fetch_issued u s1 s2 (Ok response) ->
    Proxy.redirectLocation response = Some location ->
    URL_resolve location u = Some next ->
    checks_pass next s2 s3 ->
    validated_run hops next (logged (EvFollow next) s3) s' r ->
    validated_run (S hops) u s s' r.

End ValidatedRuns.

(** The header names that never reach the client: hop-by-hop headers,
    [content-security-policy] and [set-cookie]. *)
Definition always_dropped : list string :=
  [ "connection"; "transfer-encoding"; "keep-alive"; "proxy-authenticate";
    "proxy-authorization"; "te"; "trailers"; "upgrade";
    "content-security-policy"; "set-cookie" ].

(** The header names dropped in addition when the body was rewritten. *)
Definition dropped_when_rewritten : list string :=
  [ "content-length"; "content-encoding"; "etag" ].

(** Size that a file of the directory contributes to the live cache at time
    [t]: the recorded size of a metadata file (a [.json] name with parseable
    content) whose body file is present and which has not expired. *)
Definition live_size (c : FileCache.t) (t : Z) (d : Dir) (entry : string * File) : Z :=
  match entry with
  | (name, MetaJson m) =>
      if Js.endsWith name ".json"
         && FileCache.fs_exists (meta_bodyFile m) d
         && negb (FileCache.expired c t (meta_cachedAt m))
      then meta_size m else 0
  | (_, Bytes _) => 0
  end.

(** Total byte size of the live entries of a directory at time [t]. *)
Definition liveBytes (c : FileCache.t) (t : Z) (d : Dir) : Z :=
  fold_right (fun entry acc => live_size c t d entry + acc) 0 d.

(** A directory lists each name once, and recorded sizes are byte counts. *)
Definition dir_ok (d : Dir) : Prop :=
  List.NoDup (map fst d)
  /\ forall n m, In (n, MetaJson m) d -> 0 <= meta_size m.

(** The directory after [removePair] on each item of a list. *)
Definition remove_items (items : list FileCache.PruneItem) (d : Dir) : Dir :=
  fold_left
    (fun d item =>
       FileCache.fs_rm (FileCache.item_bodyPath item)
         (FileCache.fs_rm (FileCache.item_metaPath item) d))
    items d.

(** The item that [prune] records for a metadata file. *)
Definition item_of (name : string) (m : CacheEntryMeta) : FileCache.PruneItem :=
  FileCache.mkItem name (meta_bodyFile m) (meta_cachedAt m) (meta_size m).

Definition older_or_equal (x y : FileCache.PruneItem) : Prop :=
  FileCache.item_cachedAt x <= FileCache.item_cachedAt y.

(** Sum of the sizes of a list of items. *)
Definition sum_sizes (l : list FileCache.PruneItem) : Z :=
  fold_right (fun item acc => FileCache.item_size item + acc) 0 l.

(** [d2] is [d] with some files removed. *)
Definition dir_shrinks (d d2 : Dir) : Prop :=
  (forall n f, FileCache.fs_read n d2 = Some f -> FileCache.fs_read n d = Some f)
  /\ (List.NoDup (map fst d) -> List.NoDup (map fst d2))
  /\ (forall x, In x d2 -> In x d).

(** What the first loop of [prune] establishes when it has gone through
    [files], from the items [metas] and the directory [d] to the items
    [metas1] and the directory [d1]: files were only removed; every new item
    records a metadata file of [d]; and every metadata file among [files]
    that is still there with its body is recorded. *)
Definition scan_post (files : list string) (metas : list FileCache.PruneItem)
    (d d1 : Dir) (metas1 : list FileCache.PruneItem) : Prop :=
  dir_shrinks d d1
  /\ (exists new, metas1 = (metas ++ new)%list
        /\ forall it, In it new ->
             exists m, In (FileCache.item_metaPath it, MetaJson m) d
                       /\ it = item_of (FileCache.item_metaPath it) m)
  /\ (forall n m,
        Js.endsWith n ".json" = true ->
        FileCache.fs_read n d1 = Some (MetaJson m) ->
        In n files \/ In (item_of n m) metas ->
        In (item_of n m) metas1).

(** The items of the live entries of [d], in the order of the listing [l]. *)
Definition live_items (c : FileCache.t) (t : Z) (d : Dir) (l : Dir) : list FileCache.PruneItem :=
  flat_map
    (fun entry : string * File =>
       match entry with
       | (name, MetaJson m) =>
           if Js.endsWith name ".json"
              && FileCache.fs_exists (meta_bodyFile m) d
              && negb (FileCache.expired c t (meta_cachedAt m))
           then [item_of name m] else []
       | (_, Bytes _) => []
       end)
    l.

Definition not_comma (c : ascii) : bool := negb (Ascii.eqb c ",").

(** The candidates of a [srcset] value: its comma-separated parts, trimmed,
    without the empty ones. *)
Definition srcset_parts (raw : string) : list string :=
  List.filter Js.truthy (map Js.trim (Js.split "," raw)).

(** A string without leading or trailing white space that is not empty. *)
Definition tight (s : string) : Prop := Js.trim s = s /\ s <> "".

(** Induction on documents, with the property available for the children
    of an element. *)
Fixpoint node_induction (P : node -> Prop)
    (HText : forall s, P (Text s))
    (HElem : forall tag attrs children, Forall P children -> P (Elem tag attrs children))
    (n : node) : P n :=
  match n with
  | Text s => HText s
  | Elem tag attrs children =>
      HElem tag attrs children
        ((fix go (l : list node) : Forall P l :=
            match l with
            | [] => List.Forall_nil P
            | c :: l' =>
                @List.Forall_cons node P c l' (node_induction P HText HElem c) (go l')
            end) children)
  end.

(** The same update of the attributes of every element, by its tag. *)
Fixpoint map_elems (f : string -> list (string * string) -> list (string * string))
    (n : node) : node :=
  match n with
  | Text s => Text s
  | Elem tag attrs children => Elem tag (f tag attrs) (map (map_elems f) children)
  end.

(** A property of the tag and attributes of every element of a document. *)
Fixpoint all_elems (P : string -> list (string * string) -> Prop) (n : node) : Prop :=
  match n with
  | Text _ => True
  | Elem tag attrs children =>
      P tag attrs
      /\ (fix go (l : list node) : Prop :=
            match l with
            | [] => True
            | c :: l' => all_elems P c /\ go l'
            end) children
  end.

(** The attribute names that [attrSelectors] lists for a tag, in the order
    in which the rewriter visits them. *)
Definition names_for (tag : string) : list string :=
  flat_map (fun '(selector, attrs) => if String.eqb tag selector then attrs else [])
           RewriteHtml.attrSelectors.

Section Stability.
Context `{Platform}.
Variables (baseUrl targetOrigin : URL) (slug : string).

(** What the loop over [attrSelectors] does to the attributes of one
    element. *)
Definition rewriteElem (tag : string) (attrs : list (string * string))
    : list (string * string) :=
  fold_left (RewriteHtml.rewriteAttr baseUrl targetOrigin slug) (names_for tag) attrs.

(** The rewriter leaves the URL alone: it is skipped, does not resolve, or
    resolves outside the target origin. *)
Definition url_untouched (raw : string) : Prop :=
  RewriteHtml.maybeRewriteUrl raw baseUrl targetOrigin slug = raw.

(** The value of a rewritable attribute holds no URL that the rewriter
    would replace. *)
Definition attr_untouched (attr current : string) : Prop :=
  if String.eqb attr "srcset"
  then Forall (fun part => url_untouched (fst (RewriteHtml.split_ws2 part)))
              (srcset_parts current)
  else url_untouched current.

Definition elem_untouched (tag : string) (attrs : list (string * string)) : Prop :=
  forall attr current,
    In attr (names_for tag) ->
    RewriteHtml.attr_get attr attrs = Some current ->
    attr_untouched attr current.

(** No rewritable attribute of the document refers to the target origin. *)
Definition no_in_origin_reference (doc : list node) : Prop :=
  Forall (all_elems elem_untouched) doc.

End Stability.

(** No element of the document has the tag [t]. *)
Definition no_tag (t : string) : node -> Prop :=
  all_elems (fun tag _ => String.eqb tag t = false).

(** The URL [u] with another hostname. *)
Definition with_hostname (u : URL) (h : string) : URL :=
  mkURL (protocol u) (username u) (password u) h (port u) (pathname u) (search u) (hash u).

(** The test that the loop of [AllowlistStore.match] applies to an entry. *)
Definition entry_admits (host scheme : string) (entry : AllowlistEntry) : bool :=
  enabled entry
  && existsb (String.eqb scheme) (schemes entry)
  && (String.eqb (entry_host entry) host
      || (allowSubdomains entry && Js.endsWith host ("." ++ entry_host entry))).

(** The schemes an entry has once [upsert] stored it. *)
Definition stored_schemes (entry : AllowlistEntry) : list string :=
  match schemes entry with
  | [] => ["https"]
  | l => l
  end.

Definition not_upper (c : ascii) : bool := negb (Js.is_upper c).

(** What [escapeHtml] is meant to do with one character. *)
Definition escape_char (c : ascii) : string :=
  if Ascii.eqb c "&" then "&amp;"
  else if Ascii.eqb c "<" then "&lt;"
  else if Ascii.eqb c ">" then "&gt;"
  else if Ascii.eqb c "034" then "&quot;"
  else if Ascii.eqb c "'" then "&#39;"
  else String c "".

(** Every character of [s] replaced by the string [f] gives for it. *)
Fixpoint subst_chars (f : ascii -> string) (s : string) : string :=
  match s with
  | EmptyString => EmptyString
  | String c s' => f c ++ subst_chars f s'
  end.

(** The characters that end a tag, an attribute value or a text in HTML. *)
Definition html_special (c : ascii) : bool :=
  existsb (Ascii.eqb c) ["<"; ">"; "034"; "'"]%char.

(** The characters of a slug made from a hostname. *)
Definition host_slug_char (c : ascii) : bool :=
  Js.is_lower c || Js.is_digit c || Ascii.eqb c "-".

(** The characters [encodeURIComponent] can produce. *)
Definition uri_output_char (c : ascii) : bool := Js.uri_unreserved c || Ascii.eqb c "%".

(** No two rows of the registry have the same slug. *)
Definition slugs_unique (db : Db) : Prop := List.NoDup (map mr_slug (mirrors db)).

(** No two enabled rows of the registry have the same target origin. *)
Definition enabled_origins_unique (db : Db) : Prop :=
  List.NoDup (map mr_targetOrigin (List.filter (fun r => negb (mr_disabled r)) (mirrors db))).

(** What identifies a mirror: everything but [updatedAt] and [lastPath]. *)
Definition same_mirror (r r' : MirrorRecord) : Prop :=
  mr_id r' = mr_id r /\ mr_slug r' = mr_slug r /\ mr_targetOrigin r' = mr_targetOrigin r
  /\ mr_createdAt r' = mr_createdAt r /\ mr_disabled r' = mr_disabled r.

(** The header names that [sanitizeOutgoingHeaders] can send upstream. *)
Definition outgoing_names : list string :=
  [ "user-agent"; "accept"; "accept-language"; "cache-control"; "pragma" ].

(** Some element of the nodes below has the tag [t]. *)
Fixpoint has_tag (t : string) (n : node) : bool :=
  match n with
  | Text _ => false
  | Elem tag _ children => String.eqb tag t || existsb (has_tag t) children
  end.

(** A document without the values of its attributes: tags, attribute names
    in order, texts and nesting. *)
Fixpoint outline (n : node) : node :=
  match n with
  | Text s => Text s
  | Elem tag attrs children =>
      Elem tag (map (fun a : string * string => (fst a, "")) attrs) (map outline children)
  end.

Section UpstreamUrl.
Context `{Platform}.


End UpstreamUrl.

(** [textLike] of [handleMirrorRequest], as a function of the content
    type. *)
Definition text_like (contentType : string) : bool :=
  Js.includes contentType "text/html" || Js.includes contentType "text/css"
  || Js.includes contentType "javascript" || Js.includes contentType "json"
  || Js.startsWith contentType "text/".

(** [response.headers.get('content-type') ?? 'application/octet-stream'] *)
Definition content_type_of (response : UpstreamResponse) : string :=
  default "application/octet-stream" (headers_get "content-type" (resp_headers response)).

(** The replies with which [handleMirrorRequest] refuses a request before
    it looks at the cache or at the upstream. *)
Definition refusals : list (Z * string) :=
  [ (405, "method_not_allowed"); (503, "service_disabled"); (404, "mirror_not_found") ].

(** The prefixes of a value that [maybeRewriteUrl] never rewrites. *)
Definition skipped_prefixes : list string :=
  [ "#"; "data:"; "mailto:"; "tel:"; "javascript:" ].

(** The kind of the event that a successful resolution logs. *)
Definition resolve_kind : MirrorEventKind := resolve.

(* ===================================================================== *)
(** * Properties *)
(* ===================================================================== *)

(** ** Allowlist matcher *)

Section AllowlistFacts.
Import AllowlistStore.

(** C10 -- [AllowlistStore.match] reads only the scheme and the hostname of
    the URL: two URLs that agree on [protocol] and [hostname] (and differ in
    port, path, query, fragment or credentials) get the same answer; in
    particular changing the port of a URL never changes the answer, so an
    allowlisted host is permitted on every port. *)
Theorem match_depends_only_on_scheme_and_host :
  forall (state : AllowlistFile) (u1 u2 : URL),
    protocol u1 = protocol u2 ->
    hostname u1 = hostname u2 ->
    match_ state u1 = match_ state u2
    /\ isAllowed state u1 = isAllowed state u2
    /\ (forall p : string,
          match_ state
            (mkURL (protocol u1) (username u1) (password u1) (hostname u1) p
                   (pathname u1) (search u1) (hash u1))
          = match_ state u1).
Proof.
  intros state u1 u2 Hproto Hhost.
  unfold isAllowed, match_; cbn [protocol hostname].
  rewrite Hproto, Hhost. repeat split; reflexivity.
Qed.

End AllowlistFacts.

(** ** Facts about the string primitives *)

Section JsFacts.
Import Js.

Lemma string_app_nil_r (s : string) : s ++ "" = s.
Proof. induction s; cbn; congruence. Qed.

Lemma string_app_assoc (a b c : string) : (a ++ b) ++ c = a ++ (b ++ c).
Proof. induction a; cbn; congruence. Qed.

Lemma all_chars_app p (s t : string) :
  all_chars p (s ++ t) = all_chars p s && all_chars p t.
Proof. induction s as [|c s IH]; cbn; [reflexivity|]. rewrite IH. apply andb_assoc. Qed.

Lemma all_chars_impl (p q : ascii -> bool) (s : string) :
  (forall c, p c = true -> q c = true) ->
  all_chars p s = true -> all_chars q s = true.
Proof.
  intros Hpq. induction s as [|c s IH]; cbn; [reflexivity|].
  rewrite !andb_true_iff. intros [Hc Hs]. auto.
Qed.

Lemma dropStart_none p (s : string) :
  all_chars (fun c => negb (p c)) s = true -> dropStart p s = s.
Proof.
  destruct s as [|c s]; cbn; [reflexivity|].
  rewrite andb_true_iff, negb_true_iff. intros [-> _]. reflexivity.
Qed.

Lemma dropEnd_none p (s : string) :
  all_chars (fun c => negb (p c)) s = true -> dropEnd p s = s.
Proof.
  induction s as [|c s IH]; cbn; [reflexivity|].
  rewrite andb_true_iff, negb_true_iff. intros [Hc Hs].
  rewrite (IH Hs). destruct s; [rewrite Hc|]; reflexivity.
Qed.

Lemma trim_none (s : string) :
  all_chars (fun c => negb (is_ws c)) s = true -> trim s = s.
Proof. intros Hs. unfold trim. rewrite dropStart_none, dropEnd_none; auto. Qed.

Lemma toLowerCase_none (s : string) :
  all_chars (fun c => negb (is_upper c)) s = true -> toLowerCase s = s.
Proof.
  induction s as [|c s IH]; cbn; [reflexivity|].
  rewrite andb_true_iff, negb_true_iff. intros [Hc Hs].
  unfold lower_char. rewrite Hc, (IH Hs). reflexivity.
Qed.

Lemma toLowerCase_app (s t : string) :
  toLowerCase (s ++ t) = toLowerCase s ++ toLowerCase t.
Proof. induction s; cbn; congruence. Qed.

Lemma endsWith_unfold (s p : string) :
  endsWith s p =
  if String.eqb s p then true
  else match s with
       | EmptyString => false
       | String _ s' => endsWith s' p
       end.
Proof. destruct s; reflexivity. Qed.

Lemma endsWith_app (pre p : string) : endsWith (pre ++ p) p = true.
Proof.
  induction pre as [|c pre IH].
  - rewrite endsWith_unfold. cbn [String.append]. rewrite String.eqb_refl. reflexivity.
  - rewrite endsWith_unfold. cbn [String.append]. rewrite IH.
    destruct (String.eqb _ _); reflexivity.
Qed.

Lemma endsWith_inv (s p : string) :
  endsWith s p = true -> exists pre, s = pre ++ p.
Proof.
  induction s as [|c s IH]; rewrite endsWith_unfold.
  - destruct (String.eqb_spec "" p) as [<-|_]; [exists ""; reflexivity | discriminate].
  - destruct (String.eqb_spec (String c s) p) as [<-|_].
    + exists "". reflexivity.
    + intros Hs. destruct (IH Hs) as [pre ->]. exists (String c pre). reflexivity.
Qed.

Lemma dropStart_app_keep p (pre : string) c (rest : string) :
  p c = false ->
  dropStart p (pre ++ String c rest) = dropStart p pre ++ String c rest.
Proof.
  intros Hc. induction pre as [|a pre IH]; cbn.
  - rewrite Hc. reflexivity.
  - destruct (p a); [exact IH | reflexivity].
Qed.

Lemma dropEnd_app_keep p (x y : string) :
  dropEnd p y = y -> y <> "" -> dropEnd p (x ++ y) = x ++ y.
Proof.
  intros Hy Hne. induction x as [|a x IH]; cbn; [exact Hy|].
  rewrite IH. destruct (x ++ y) eqn:E; [|reflexivity].
  destruct x; cbn in E; [congruence | discriminate].
Qed.

Lemma split_nonempty c (s : string) : split c s <> [].
Proof.
  induction s as [|a s IH]; cbn; [discriminate|].
  destruct (Ascii.eqb a c); [discriminate|].
  destruct (split c s); [contradiction | discriminate].
Qed.

Lemma split_none c (s : string) :
  all_chars (fun a => negb (Ascii.eqb a c)) s = true -> split c s = [s].
Proof.
  induction s as [|a s IH]; cbn; [reflexivity|].
  rewrite andb_true_iff, negb_true_iff. intros [Ha Hs].
  rewrite Ha, (IH Hs). reflexivity.
Qed.

Lemma split_app_sep c (s rest : string) :
  all_chars (fun a => negb (Ascii.eqb a c)) s = true ->
  split c (s ++ String c rest) = s :: split c rest.
Proof.
  induction s as [|a s IH]; cbn.
  - intros _. rewrite Ascii.eqb_refl. reflexivity.
  - rewrite andb_true_iff, negb_true_iff. intros [Ha Hs].
    rewrite Ha, (IH Hs). reflexivity.
Qed.

End JsFacts.

(** ** SSRF guard *)

Section SsrfFacts.
Import Js SsrfGuard SpecRanges.


Lemma octets_checked : forallb octet_check (seq 0 256) = true.
Proof. vm_compute. reflexivity. Qed.

Lemma octet_facts (n : nat) :
  (n < 256)%nat ->
  all_chars is_digit (show_octet n) = true
  /\ v4Seg (show_octet n) = true
  /\ digits_value 0 (show_octet n) = Z.of_nat n.
Proof.
  intros Hn.
  pose proof (proj1 (forallb_forall octet_check (seq 0 256)) octets_checked n) as Hall.
  assert (Hin : In n (seq 0 256)) by (apply in_seq; lia).
  specialize (Hall Hin). unfold octet_check in Hall.
  rewrite !andb_true_iff, Z.eqb_eq in Hall. tauto.
Qed.


Lemma digit_or_dot_plain (c : ascii) :
  digit_or_dot c = true ->
  negb (is_ws c) = true /\ negb (is_upper c) = true /\ negb (is_lower c) = true.
Proof.
  destruct c as [[] [] [] [] [] [] [] []]; vm_compute; intros; try discriminate; auto.
Qed.

Lemma digit_not_dot (c : ascii) :
  is_digit c = true -> negb (Ascii.eqb c ".") = true.
Proof.
  destruct c as [[] [] [] [] [] [] [] []]; vm_compute; intros; try discriminate; auto.
Qed.

Lemma show_octet_no_dot (n : nat) :
  (n < 256)%nat ->
  all_chars (fun a => negb (Ascii.eqb a ".")) (show_octet n) = true.
Proof.
  intros Hn. eapply all_chars_impl; [apply digit_not_dot|].
  apply (octet_facts n Hn).
Qed.

Lemma dotted_chars (a b c d : nat) :
  (a < 256)%nat -> (b < 256)%nat -> (c < 256)%nat -> (d < 256)%nat ->
  all_chars digit_or_dot (dotted a b c d) = true.
Proof.
  intros Ha Hb Hc Hd.
  assert (Hdig : forall n, (n < 256)%nat -> all_chars digit_or_dot (show_octet n) = true).
  { intros n Hn. eapply all_chars_impl; [|apply (octet_facts n Hn)].
    intros x Hx. unfold digit_or_dot. rewrite Hx. reflexivity. }
  unfold dotted. rewrite !all_chars_app.
  rewrite (Hdig a Ha), (Hdig b Hb), (Hdig c Hc), (Hdig d Hd). reflexivity.
Qed.

Lemma dotted_split (a b c d : nat) :
  (a < 256)%nat -> (b < 256)%nat -> (c < 256)%nat -> (d < 256)%nat ->
  split "." (dotted a b c d) = [show_octet a; show_octet b; show_octet c; show_octet d].
Proof.
  intros Ha Hb Hc Hd. unfold dotted.
  change (show_octet a ++ "." ++ show_octet b ++ "." ++ show_octet c ++ "." ++ show_octet d)
    with (show_octet a ++ String "." (show_octet b ++ String "." (show_octet c ++ String "." (show_octet d)))).
  rewrite !split_app_sep by (apply show_octet_no_dot; assumption).
  rewrite split_none by (apply show_octet_no_dot; assumption).
  reflexivity.
Qed.

Lemma dotted_isIPv4 (a b c d : nat) :
  (a < 256)%nat -> (b < 256)%nat -> (c < 256)%nat -> (d < 256)%nat ->
  isIPv4 (dotted a b c d) = true.
Proof.
  intros Ha Hb Hc Hd. unfold isIPv4. rewrite dotted_split by assumption.
  rewrite (proj1 (proj2 (octet_facts a Ha))), (proj1 (proj2 (octet_facts b Hb))),
          (proj1 (proj2 (octet_facts c Hc))), (proj1 (proj2 (octet_facts d Hd))).
  reflexivity.
Qed.

Lemma js_Number_octet (n : nat) :
  (n < 256)%nat -> js_Number (show_octet n) = Some (Z.of_nat n).
Proof.
  intros Hn. unfold js_Number.
  destruct (octet_facts n Hn) as (-> & _ & ->). reflexivity.
Qed.

Lemma to_int32_small (z : Z) :
  - 2 ^ 31 <= z < 2 ^ 31 -> to_int32 z = z.
Proof.
  intros Hz. unfold to_int32.
  rewrite Z.mod_small by lia. lia.
Qed.

Lemma to_uint32_of_int32 (y d : Z) :
  to_uint32 (to_int32 y + d) = (y + d) mod 2 ^ 32.
Proof.
  unfold to_uint32, to_int32.
  replace ((y + 2 ^ 31) mod 2 ^ 32 - 2 ^ 31 + d)
    with ((y + 2 ^ 31) mod 2 ^ 32 + (d - 2 ^ 31)) by lia.
  rewrite Zplus_mod_idemp_l. f_equal. lia.
Qed.

(** On a dotted-decimal literal the shift-and-add loop of [ipToInt], with
    its signed 32-bit intermediate results, yields the unsigned value of the
    address. *)
Lemma ipToInt_dotted (a b c d : nat) :
  (a < 256)%nat -> (b < 256)%nat -> (c < 256)%nat -> (d < 256)%nat ->
  ipToInt (dotted a b c d) = ipv4_value a b c d.
Proof.
  intros Ha Hb Hc Hd. unfold ipToInt. rewrite dotted_split by assumption.
  cbn [fold_left]. unfold ip_step.
  rewrite !js_Number_octet by assumption. cbn [default from_option].
  rewrite !Z.shiftl_mul_pow2 by lia. unfold id.
  rewrite (to_int32_small 0) by lia.
  rewrite (to_int32_small (0 * 2 ^ 8)) by lia.
  rewrite (to_int32_small (0 * 2 ^ 8 + Z.of_nat a)) by lia.
  rewrite (to_int32_small ((0 * 2 ^ 8 + Z.of_nat a) * 2 ^ 8)) by lia.
  rewrite (to_int32_small ((0 * 2 ^ 8 + Z.of_nat a) * 2 ^ 8 + Z.of_nat b)) by lia.
  rewrite (to_int32_small (((0 * 2 ^ 8 + Z.of_nat a) * 2 ^ 8 + Z.of_nat b) * 2 ^ 8)) by lia.
  rewrite (to_int32_small
             (((0 * 2 ^ 8 + Z.of_nat a) * 2 ^ 8 + Z.of_nat b) * 2 ^ 8 + Z.of_nat c)) by lia.
  rewrite to_uint32_of_int32.
  unfold ipv4_value. rewrite Z.mod_small by lia. lia.
Qed.


(** Every address of a block listed by the specification lies in one of the
    thirteen intervals of [IPV4_PRIVATE_RANGES]. *)
Lemma ranges_cover (v : Z) :
  0 <= v < 2 ^ 32 ->
  existsb (fun '(base, len) => in_cidr base len v) blocked_blocks
    || (ipv4_value 224 0 0 0 <=? v) = true ->
  existsb (fun '(start, end_) => (start <=? v) && (v <=? end_)) IPV4_PRIVATE_RANGES = true.
Proof.
  intros Hv.
  let r := eval vm_compute in IPV4_PRIVATE_RANGES in change IPV4_PRIVATE_RANGES with r.
  let r := eval vm_compute in blocked_blocks in change blocked_blocks with r.
  let r := eval vm_compute in (ipv4_value 224 0 0 0) in change (ipv4_value 224 0 0 0) with r.
  change (2 ^ 32) with 4294967296 in Hv.
  unfold in_cidr. cbn [existsb].
  rewrite !orb_true_iff, !andb_true_iff, !Z.eqb_eq, !Z.leb_le.
  intros Hspec. shiftr_to_div.
  repeat match type of Hspec with
    | context [?a / ?b] =>
        lazymatch a with
        | v => fail
        | _ => let q := eval vm_compute in (a / b) in change (a / b) with q in Hspec
        end
    end.
  Z.div_mod_to_equations. lia.
Qed.

Lemma isPrivateIpv4_dotted (a b c d : nat) :
  (a < 256)%nat -> (b < 256)%nat -> (c < 256)%nat -> (d < 256)%nat ->
  blocked_ipv4 a b c d = true ->
  isPrivateIpv4 (dotted a b c d) = true.
Proof.
  intros Ha Hb Hc Hd Hblocked. unfold isPrivateIpv4.
  rewrite ipToInt_dotted by assumption.
  apply ranges_cover; [|exact Hblocked].
  unfold ipv4_value. lia.
Qed.

Lemma dotted_nonempty (a b c d : nat) : dotted a b c d <> "".
Proof.
  unfold dotted, show_octet.
  destruct (a <? 10)%nat; [|destruct (a <? 100)%nat]; discriminate.
Qed.

Lemma truthy_true (s : string) : s <> "" -> truthy s = true.
Proof. intros Hs. unfold truthy. destruct (String.eqb_spec s ""); [contradiction|reflexivity]. Qed.

Section Guard.
Context `{Platform}.

Lemma assertSafeHostname_suffix (pre : string) :
  assertSafeHostname (pre ++ ".localhost") = Throw "ssrf_blocked".
Proof.
  unfold assertSafeHostname, trim.
  change (pre ++ ".localhost") with (pre ++ String "." "localhost").
  rewrite dropStart_app_keep by reflexivity.
  rewrite dropEnd_app_keep by (reflexivity || discriminate).
  rewrite toLowerCase_app.
  change (toLowerCase (String "." "localhost")) with ".localhost".
  rewrite truthy_true by (destruct (toLowerCase _); discriminate).
  rewrite endsWith_app, orb_true_r. reflexivity.
Qed.

Lemma assertSafeHostname_dotted (a b c d : nat) :
  (a < 256)%nat -> (b < 256)%nat -> (c < 256)%nat -> (d < 256)%nat ->
  blocked_ipv4 a b c d = true ->
  assertSafeHostname (dotted a b c d) = Throw "ssrf_blocked".
Proof.
  intros Ha Hb Hc Hd Hblocked.
  pose proof (dotted_chars a b c d Ha Hb Hc Hd) as Hchars.
  unfold assertSafeHostname.
  rewrite trim_none
    by (eapply all_chars_impl; [|exact Hchars]; intros x Hx; apply (digit_or_dot_plain x Hx)).
  rewrite toLowerCase_none
    by (eapply all_chars_impl; [|exact Hchars]; intros x Hx; apply (digit_or_dot_plain x Hx)).
  rewrite truthy_true by apply dotted_nonempty.
  cbn [negb].
  destruct (_ || _); [reflexivity|].
  destruct (String.eqb _ "metadata.google.internal"); [reflexivity|].
  destruct (String.eqb _ "169.254.169.254"); [reflexivity|].
  unfold net_isIP, assertSafeIp, net_isIP.
  rewrite dotted_isIPv4 by assumption.
  rewrite isPrivateIpv4_dotted by assumption.
  reflexivity.
Qed.

Lemma assertSafeHostname_blocked (h : string) :
  blocked_hostname h -> assertSafeHostname h = Throw "ssrf_blocked".
Proof.
  intros [-> | [Hsuf | [-> | [-> | (a & b & c & d & Ha & Hb & Hc & Hd & -> & Hblocked)]]]].
  - reflexivity.
  - destruct (endsWith_inv _ _ Hsuf) as [pre ->]. apply assertSafeHostname_suffix.
  - reflexivity.
  - reflexivity.
  - apply assertSafeHostname_dotted; assumption.
Qed.

Context {W : Type} `{World W}.

(** C2 -- an [https] URL without userinfo whose hostname is [localhost], a
    subdomain of [localhost], [metadata.google.internal], [169.254.169.254],
    or a dotted-decimal IPv4 literal inside one of the blocks listed by the
    specification makes [assertSafeUrl] throw [ssrf_blocked], whatever the
    value of [allowHttp] and the state of the world; the guard throws before
    any DNS lookup, so the state is returned unchanged. *)
Theorem assertSafeUrl_blocks_private_hosts :
  forall (url : URL) (allowHttp : bool) (s : Sys W),
    protocol url = "https:" ->
    username url = "" ->
    password url = "" ->
    blocked_hostname (hostname url) ->
    assertSafeUrl url allowHttp s = (s, Throw "ssrf_blocked").
Proof.
  intros url allowHttp s Hproto Huser Hpass Hhost.
  unfold assertSafeUrl. rewrite Hproto, Huser, Hpass. cbn [existsb String.eqb negb orb andb].
  change (truthy "") with false.
  change (("https:" =? "https:")%string) with true.
  change (("https:" =? "http:")%string) with false.
  cbn [existsb String.eqb negb orb andb].
  unfold assertSafeResolvedHost, mbind, M_bind, bind, lift.
  rewrite (assertSafeHostname_blocked _ Hhost). reflexivity.
Qed.

End Guard.

End SsrfFacts.

(** ** The monad of the handlers *)

Section MonadFacts.
Context {W : Type}.

Lemma bind_ok {A B} (m : M W A) (k : A -> M W B) (s s1 : Sys W) (a : A) :
  m s = (s1, Ok a) -> (m ≫= k) s = k a s1.
Proof. intros E. unfold mbind, M_bind, bind. rewrite E. reflexivity. Qed.


Lemma bind_inv {A B} (m : M W A) (k : A -> M W B) (s s' : Sys W) (r : result B) :
  (m ≫= k) s = (s', r) ->
  (exists s1 a, m s = (s1, Ok a) /\ k a s1 = (s', r))
  \/ (exists e, m s = (s', Throw e) /\ r = Throw e).
Proof.
  unfold mbind, M_bind, bind. destruct (m s) as [s1 [a|e]].
  - intros E. left. eauto.
  - intros [= <- <-]. right. eauto.
Qed.



Lemma same_stores_refl (s : Sys W) : same_stores s s.
Proof. repeat split. Qed.

Lemma same_stores_trans (s1 s2 s3 : Sys W) :
  same_stores s1 s2 -> same_stores s2 s3 -> same_stores s1 s3.
Proof. unfold same_stores. intros (-> & -> & ->) (-> & -> & ->). auto. Qed.

Lemma with_world_stores {A} (f : W -> W * A) (s s' : Sys W) (r : result A) :
  with_world f s = (s', r) -> same_stores s s' /\ exists a, r = Ok a.
Proof.
  unfold with_world. destruct (f (sys_world s)) as [w a].
  intros [= <- <-]. split; [repeat split | eauto].
Qed.

Lemma with_world_result_stores {A} (f : W -> W * result A) (s s' : Sys W) (r : result A) :
  with_world_result f s = (s', r) -> same_stores s s'.
Proof.
  unfold with_world_result. destruct (f (sys_world s)) as [w a].
  intros [= <- <-]. repeat split.
Qed.

End MonadFacts.

(** Splits a run of [m ≫= k] into the run of [m] and the run of [k]. *)
Ltac bind_cases H :=
  let s1 := fresh "s" in
  let a := fresh "a" in
  let e := fresh "e" in
  let E := fresh "E" in
  apply bind_inv in H;
  destruct H as [(s1 & a & E & H) | (e & E & H)].


Section GuardFrame.
Context `{Platform} {W : Type} `{World W}.
Import SsrfGuard.

Lemma assertSafeUrl_stores (url : URL) (allowHttp : bool) (s s' : Sys W) (r : result unit) :
  assertSafeUrl url allowHttp s = (s', r) -> same_stores s s'.
Proof.
  unfold assertSafeUrl, throw.
  repeat (match goal with |- context [if ?b then _ else _] => destruct b end;
          [intros [= <- <-]; apply same_stores_refl|]).
  unfold assertSafeResolvedHost. intros Hrun.
  bind_cases Hrun.
  - unfold lift in E. injection E as <- _.
    bind_cases Hrun.
    + apply with_world_result_stores in E.
      destruct (_ =? _)%nat; unfold throw, lift in Hrun;
        injection Hrun as <- _; exact E.
    + apply with_world_result_stores in E. exact E.
  - unfold lift in E. injection E as <- _. apply same_stores_refl.
Qed.

End GuardFrame.

(** ** Upstream fetch with redirect validation *)

Section TraceFacts.

Lemma validated_from_any (tr : list TraceEvent) :
  validated_from None None tr -> forall p2 p1, validated_from p2 p1 tr.
Proof.
  destruct tr as [|e1 [|e2 rest]]; cbn; [tauto| |].
  - intros [H1 _] p2 p1. destruct e1; try tauto; destruct H1; discriminate.
  - intros (H1 & H2 & H3) p2 p1.
    destruct e1; try (destruct H1; discriminate);
      destruct e2; try (destruct H2; discriminate); tauto.
Qed.

Lemma validated_from_split (pre : list TraceEvent) :
  forall p2 p1 e post u,
    e = EvFetch u \/ e = EvFollow u ->
    validated_from p2 p1 (pre ++ e :: post)%list ->
    (exists pre' : list TraceEvent, pre = (pre' ++ [EvGuard u; EvMatch u])%list)
    \/ (pre = [EvMatch u] /\ p1 = Some (EvGuard u))
    \/ (pre = [] /\ p2 = Some (EvGuard u) /\ p1 = Some (EvMatch u)).
Proof.
  induction pre as [|x pre IH]; intros p2 p1 e post u He Hval.
  - cbn in Hval. destruct Hval as [Hv _]. right. right.
    destruct He as [-> | ->]; tauto.
  - cbn [app validated_from] in Hval. destruct Hval as [_ Hval].
    destruct (IH _ _ _ _ _ He Hval) as [[pre' ->] | [[-> Hp1] | (-> & Hp2 & Hp1)]].
    + left. exists (x :: pre'). reflexivity.
    + injection Hp1 as ->. left. exists []. reflexivity.
    + subst p1. injection Hp1 as ->. right. left. tauto.
Qed.

Lemma validated_from_before (tr : list TraceEvent) :
  validated_from None None tr -> validated_before tr.
Proof.
  intros Hval pre post u Hsplit.
  assert (exists e, (e = EvFetch u \/ e = EvFollow u) /\ tr = (pre ++ e :: post)%list)
    as (e & He & ->) by (destruct Hsplit; eauto).
  destruct (validated_from_split _ _ _ _ _ _ He Hval)
    as [Hpre | [[_ Hp] | (_ & Hp & _)]]; [exact Hpre | discriminate | discriminate].
Qed.

End TraceFacts.

Section FetchLoop.
Context `{Platform} `{CssRewriter} {W : Type} `{World W}.
Import Proxy.

Lemma emit_run (e : TraceEvent) (s : Sys W) :
  emit e s = (mkSys (sys_world s) (sys_db s) (sys_cache s) (sys_trace s ++ [e]), Ok tt).
Proof. reflexivity. Qed.

(** What one run of the loop with [hops] iterations left adds to the trace. *)
Lemma redirectLoop_trace (services : AppServices) (method : string)
    (headers : list (string * string)) (hops : nat) :
  forall (current : URL) (s s' : Sys W) (r : result (UpstreamResponse * URL)),
    redirectLoop services method headers hops current s = (s', r) ->
    sys_db s' = sys_db s /\ sys_cache s' = sys_cache s /\
    exists tr,
      sys_trace s' = (sys_trace s ++ tr)%list
      /\ validated_from None None tr
      /\ (count_events is_fetch tr <= hops)%nat
      /\ (count_events is_follow tr = hops -> r = Throw "too_many_redirects")
      /\ (forall resp final,
            r = Ok (resp, final) ->
            redirectLocation resp = None
            /\ exists pre : list TraceEvent,
                 tr = (pre ++ [EvGuard final; EvMatch final; EvFetch final])%list).
Proof.
  induction hops as [|hops IH]; intros current s s' r Hrun.
  - cbn in Hrun. injection Hrun as <- <-. split; [reflexivity|]. split; [reflexivity|].
    exists []. rewrite app_nil_r. cbn. repeat split; auto; try lia; try discriminate.
  - cbn [redirectLoop] in Hrun.
    bind_cases Hrun;
      [|apply assertSafeUrl_stores in E; destruct E as (-> & -> & ->); subst r;
        split; [reflexivity|]; split; [reflexivity|];
        exists []; rewrite app_nil_r; cbn; repeat split; auto; try lia; try discriminate].
    apply assertSafeUrl_stores in E. destruct E as (Edb & Ecache & Etrace).
    bind_cases Hrun; [|discriminate].
    rewrite emit_run in E. injection E as <- _.
    destruct (AllowlistStore.match_ _ current) as [entry|].
    2:{ injection Hrun as <- <-. cbn [sys_db sys_cache sys_trace].
        rewrite Edb, Ecache, Etrace. split; [reflexivity|]. split; [reflexivity|].
        exists [EvGuard current]. cbn. repeat split; auto; try lia; try discriminate. }
    bind_cases Hrun; [|discriminate]. rewrite emit_run in E. injection E as <- _.
    bind_cases Hrun; [|discriminate]. rewrite emit_run in E. injection E as <- _.
    cbn [sys_world sys_db sys_cache sys_trace] in Hrun.
    bind_cases Hrun.
    2:{ apply with_world_result_stores in E. destruct E as (-> & -> & ->). subst r.
        cbn [sys_db sys_cache sys_trace]. rewrite Edb, Ecache, Etrace.
        split; [reflexivity|]. split; [reflexivity|].
        exists [EvGuard current; EvMatch current; EvFetch current].
        rewrite <- !app_assoc. cbn. repeat split; auto; try lia; try discriminate. }
    apply with_world_result_stores in E. destruct E as (Edb1 & Ecache1 & Etrace1).
    cbn [sys_db sys_cache sys_trace] in Edb1, Ecache1, Etrace1.
    destruct (redirectLocation a3) as [location|] eqn:Eloc.
    2:{ injection Hrun as <- <-. rewrite Edb1, Ecache1, Etrace1, Edb, Ecache, Etrace.
        split; [reflexivity|]. split; [reflexivity|].
        exists [EvGuard current; EvMatch current; EvFetch current].
        rewrite <- !app_assoc. cbn. repeat split; auto; try lia; try discriminate.
        - match goal with Hr : Ok _ = Ok _ |- _ => injection Hr as <- <- end. exact Eloc.
        - match goal with Hr : Ok _ = Ok _ |- _ => injection Hr as <- <- end.
          exists []. reflexivity. }
    destruct (URL_resolve location current) as [next|].
    2:{ injection Hrun as <- <-. rewrite Edb1, Ecache1, Etrace1, Edb, Ecache, Etrace.
        split; [reflexivity|]. split; [reflexivity|].
        exists [EvGuard current; EvMatch current; EvFetch current].
        rewrite <- !app_assoc. cbn. repeat split; auto; try lia; try discriminate. }
    bind_cases Hrun.
    2:{ apply assertSafeUrl_stores in E. destruct E as (-> & -> & ->). subst r.
        rewrite Edb1, Ecache1, Etrace1, Edb, Ecache, Etrace.
        split; [reflexivity|]. split; [reflexivity|].
        exists [EvGuard current; EvMatch current; EvFetch current].
        rewrite <- !app_assoc. cbn. repeat split; auto; try lia; try discriminate. }
    apply assertSafeUrl_stores in E. destruct E as (Edb2 & Ecache2 & Etrace2).
    bind_cases Hrun; [|discriminate]. rewrite emit_run in E. injection E as <- _.
    destruct (AllowlistStore.match_ _ next) as [entry'|].
    2:{ injection Hrun as <- <-. cbn [sys_db sys_cache sys_trace].
        rewrite Edb2, Ecache2, Etrace2, Edb1, Ecache1, Etrace1, Edb, Ecache, Etrace.
        split; [reflexivity|]. split; [reflexivity|].
        exists [EvGuard current; EvMatch current; EvFetch current; EvGuard next].
        rewrite <- !app_assoc. cbn. repeat split; auto; try lia; try discriminate. }
    bind_cases Hrun; [|discriminate]. rewrite emit_run in E. injection E as <- _.
    bind_cases Hrun; [|discriminate]. rewrite emit_run in E. injection E as <- _.
    cbn [sys_world sys_db sys_cache sys_trace] in Hrun.
    apply IH in Hrun. cbn [sys_db sys_cache sys_trace] in Hrun.
    destruct Hrun as (-> & -> & tr & -> & Hval & Hfetch & Hfollow & Hok).
    rewrite Edb2, Ecache2, Etrace2, Edb1, Ecache1, Etrace1, Edb, Ecache, Etrace.
    split; [reflexivity|]. split; [reflexivity|].
    exists ([EvGuard current; EvMatch current; EvFetch current;
             EvGuard next; EvMatch next; EvFollow next] ++ tr)%list.
    split; [rewrite <- !app_assoc; reflexivity|].
    split; [cbn; repeat split; auto; apply validated_from_any; exact Hval|].
    unfold count_events in *. cbn [List.filter app is_fetch is_follow length].
    split; [lia|]. split; [intros Hn; apply Hfollow; lia|].
    intros resp final Hr. destruct (Hok resp final Hr) as [Hloc [pre ->]].
    split; [exact Hloc|].
    exists ([EvGuard current; EvMatch current; EvFetch current;
             EvGuard next; EvMatch next; EvFollow next] ++ pre)%list.
    rewrite <- app_assoc. reflexivity.
Qed.

(** The loop runs by the rules of [validated_run]. *)
Lemma redirectLoop_validated (services : AppServices) (method : string)
    (headers : list (string * string)) (hops : nat) :
  forall (current : URL) (s s' : Sys W) (r : result (UpstreamResponse * URL)),
    redirectLoop services method headers hops current s = (s', r) ->
    validated_run services method headers hops current s s' r.
Proof.
  induction hops as [|hops IH]; intros current s s' r Hrun.
  - cbn in Hrun. injection Hrun as <- <-. constructor.
  - cbn [redirectLoop] in Hrun.
    bind_cases Hrun; [|subst r; apply run_stopped; left; exact E].
    destruct a. rename E into Eguard.
    bind_cases Hrun; [|discriminate].
    rewrite emit_run in E. injection E as <- _.
    destruct (AllowlistStore.match_ _ current) as [entry|] eqn:Ematch.
    2:{ injection Hrun as <- <-. apply run_stopped. right. exists s0.
        repeat split; auto. }
    assert (Hpass : checks_pass services current s
                      (logged (EvMatch current) (logged (EvGuard current) s0))).
    { exists s0. split; [exact Eguard|]. split; [congruence | reflexivity]. }
    bind_cases Hrun; [|discriminate]. rewrite emit_run in E. injection E as <- _.
    bind_cases Hrun; [|discriminate]. rewrite emit_run in E. injection E as <- _.
    assert (Hfetch : forall s2 rr,
               with_world_result (upstream_fetch method current headers)
                 (logged (EvFetch current)
                    (logged (EvMatch current) (logged (EvGuard current) s0))) = (s2, rr) ->
               fetch_issued method headers current
                 (logged (EvMatch current) (logged (EvGuard current) s0)) s2 rr).
    { intros s2 rr. unfold with_world_result, fetch_issued.
      cbn [logged sys_world]. destruct (upstream_fetch _ _ _ _) as [w rr'].
      intros [= <- <-]. exists w. split; reflexivity. }
    bind_cases Hrun;
      [|subst r; apply (run_fetch_failed _ _ _ _ _ _ _ _ _ Hpass (Hfetch _ _ E))].
    apply Hfetch in E. rename E into Efetch.
    destruct (redirectLocation _) as [location|] eqn:Eloc.
    2:{ injection Hrun as <- <-. exact (run_returned _ _ _ _ _ _ _ _ _ Hpass Efetch Eloc). }
    destruct (URL_resolve location current) as [next|] eqn:Enext.
    2:{ injection Hrun as <- <-.
        exact (run_bad_location _ _ _ _ _ _ _ _ _ _ Hpass Efetch Eloc Enext). }
    bind_cases Hrun.
    2:{ subst r.
        apply (run_redirect_stopped _ _ _ _ _ _ _ _ _ _ _ _ _ Hpass Efetch Eloc Enext).
        left. exact E. }
    rename E into Eguard'.
    match type of Eguard' with _ = (?t, Ok ?x) => destruct x; rename t into sn end.
    bind_cases Hrun; [|discriminate]. rewrite emit_run in E. injection E as <- _.
    destruct (AllowlistStore.match_ _ next) as [entry'|] eqn:Ematch'.
    2:{ injection Hrun as <- <-.
        apply (run_redirect_stopped _ _ _ _ _ _ _ _ _ _ _ _ _ Hpass Efetch Eloc Enext).
        right. exists sn. repeat split; auto. }
    bind_cases Hrun; [|discriminate]. rewrite emit_run in E. injection E as <- _.
    bind_cases Hrun; [|discriminate]. rewrite emit_run in E. injection E as <- _.
    apply IH in Hrun.
    refine (run_redirected _ _ _ _ _ _ _ _ _
              (logged (EvMatch next) (logged (EvGuard next) sn)) _ _ _ _
              Hpass Efetch Eloc Enext _ Hrun).
    exists sn. split; [exact Eguard'|]. split; [congruence | reflexivity].
Qed.

Lemma checks_pass_trace services (u : URL) (s s' : Sys W) :
  checks_pass services u s s' ->
  sys_trace s' = (sys_trace s ++ [EvGuard u; EvMatch u])%list.
Proof.
  intros (s1 & Hguard & _ & ->). apply assertSafeUrl_stores in Hguard.
  destruct Hguard as (_ & _ & Htrace). cbn [logged sys_trace].
  rewrite Htrace, <- app_assoc. reflexivity.
Qed.

Lemma checks_stop_trace services (u : URL) (s s' : Sys W) (e : string) :
  checks_stop services u s s' e ->
  sys_trace s' = sys_trace s \/ sys_trace s' = (sys_trace s ++ [EvGuard u])%list.
Proof.
  intros [Hguard | (s1 & Hguard & _ & -> & _)];
    apply assertSafeUrl_stores in Hguard; destruct Hguard as (_ & _ & Htrace).
  - left. exact Htrace.
  - right. cbn [logged sys_trace]. rewrite Htrace. reflexivity.
Qed.

Lemma fetch_issued_trace method headers (u : URL) (s s' : Sys W)
    (r : result UpstreamResponse) :
  fetch_issued method headers u s s' r ->
  sys_trace s' = (sys_trace s ++ [EvFetch u])%list.
Proof. intros (w & _ & ->). reflexivity. Qed.

(** Where the first fetch of a trace that starts with a checked fetch is. *)
Lemma fetch_after_checked_fetch (u v : URL) (tail pre post : list TraceEvent) :
  ([EvGuard u; EvMatch u; EvFetch u] ++ tail)%list = (pre ++ EvFetch v :: post)%list ->
  (pre = [EvGuard u; EvMatch u] /\ v = u)
  \/ exists pre' : list TraceEvent,
       pre = ([EvGuard u; EvMatch u; EvFetch u] ++ pre')%list
       /\ tail = (pre' ++ EvFetch v :: post)%list.
Proof.
  destruct pre as [|a [|b [|c pre']]]; cbn; intros E; try discriminate.
  - injection E as <- <- <- _. left. split; reflexivity.
  - injection E as <- <- <- E. right. exists pre'. split; [reflexivity | exact E].
Qed.

(** In a run by the rules, each fetch in the trace was issued from a state
    that the checks on the fetched URL had just led to. *)
Lemma validated_run_fetches services method headers (hops : nat) (u : URL)
    (s s' : Sys W) (r : result (UpstreamResponse * URL)) :
  validated_run services method headers hops u s s' r ->
  exists tr : list TraceEvent,
    sys_trace s' = (sys_trace s ++ tr)%list
    /\ forall (pre post : list TraceEvent) (v : URL),
         tr = (pre ++ EvFetch v :: post)%list ->
         exists (s0 s1 s2 : Sys W) (rv : result UpstreamResponse),
           checks_pass services v s0 s1
           /\ sys_trace s1 = (sys_trace s ++ pre)%list
           /\ fetch_issued method headers v s1 s2 rv.
Proof.
  assert (Hnone : forall (l pre post : list TraceEvent) (v : URL),
             l = [] \/ (exists w, l = [EvGuard w]) ->
             l = (pre ++ EvFetch v :: post)%list -> False).
  { intros l pre post v [-> | [w ->]]; destruct pre as [|a [|b pre]]; discriminate. }
  assert (Hone : forall (s s1 s2 : Sys W) (u : URL) (rv : result UpstreamResponse)
                        (tail pre post : list TraceEvent) (v : URL),
             checks_pass services u s s1 ->
             fetch_issued method headers u s1 s2 rv ->
             tail = [] \/ (exists w, tail = [EvGuard w]) ->
             ([EvGuard u; EvMatch u; EvFetch u] ++ tail)%list = (pre ++ EvFetch v :: post)%list ->
             exists (s0 s1 s2 : Sys W) (rv : result UpstreamResponse),
               checks_pass services v s0 s1
               /\ sys_trace s1 = (sys_trace s ++ pre)%list
               /\ fetch_issued method headers v s1 s2 rv).
  { intros t t1 t2 w rv tail pre post v Hp Hf Htail E.
    apply fetch_after_checked_fetch in E.
    destruct E as [[-> ->] | (pre' & _ & E)]; [|destruct (Hnone _ _ _ _ Htail E)].
    exists t, t1, t2, rv. split; [exact Hp|]. split; [|exact Hf].
    apply checks_pass_trace in Hp. exact Hp. }
  induction 1 as
    [ u s
    | hops u s s' e Hstop
    | hops u s s1 s2 e Hpass Hfetch
    | hops u s s1 s2 response Hpass Hfetch Hloc
    | hops u s s1 s2 response location Hpass Hfetch Hloc Hnext
    | hops u next s s1 s2 s3 response location e Hpass Hfetch Hloc Hnext Hstop
    | hops u next s s1 s2 s3 s' response location r Hpass Hfetch Hloc Hnext Hpass' Hrun IH ].
  - exists []. rewrite app_nil_r. split; [reflexivity|].
    intros pre post v E. destruct (Hnone [] pre post v); auto.
  - apply checks_stop_trace in Hstop. destruct Hstop as [Ht | Ht].
    + exists []. rewrite app_nil_r. split; [exact Ht|].
      intros pre post v E. destruct (Hnone [] pre post v); auto.
    + exists [EvGuard u]. split; [exact Ht|].
      intros pre post v E. destruct (Hnone [EvGuard u] pre post v); eauto.
  - exists [EvGuard u; EvMatch u; EvFetch u].
    split; [rewrite (fetch_issued_trace _ _ _ _ _ _ Hfetch),
              (checks_pass_trace _ _ _ _ Hpass), <- app_assoc; reflexivity|].
    intros pre post v E. apply (Hone s s1 s2 u _ [] pre post v Hpass Hfetch); auto.
  - exists [EvGuard u; EvMatch u; EvFetch u].
    split; [rewrite (fetch_issued_trace _ _ _ _ _ _ Hfetch),
              (checks_pass_trace _ _ _ _ Hpass), <- app_assoc; reflexivity|].
    intros pre post v E. apply (Hone s s1 s2 u _ [] pre post v Hpass Hfetch); auto.
  - exists [EvGuard u; EvMatch u; EvFetch u].
    split; [rewrite (fetch_issued_trace _ _ _ _ _ _ Hfetch),
              (checks_pass_trace _ _ _ _ Hpass), <- app_assoc; reflexivity|].
    intros pre post v E. apply (Hone s s1 s2 u _ [] pre post v Hpass Hfetch); auto.
  - pose proof (fetch_issued_trace _ _ _ _ _ _ Hfetch) as Ht2.
    rewrite (checks_pass_trace _ _ _ _ Hpass), <- app_assoc in Ht2. cbn [app] in Ht2.
    apply checks_stop_trace in Hstop. destruct Hstop as [Ht | Ht]; rewrite Ht2 in Ht.
    + exists [EvGuard u; EvMatch u; EvFetch u]. split; [exact Ht|].
      intros pre post v E. apply (Hone s s1 s2 u _ [] pre post v Hpass Hfetch); auto.
    + exists ([EvGuard u; EvMatch u; EvFetch u] ++ [EvGuard next])%list.
      split; [rewrite Ht, <- app_assoc; reflexivity|].
      intros pre post v E.
      apply (Hone s s1 s2 u _ [EvGuard next] pre post v Hpass Hfetch); eauto.
  - pose proof (fetch_issued_trace _ _ _ _ _ _ Hfetch) as Ht2.
    rewrite (checks_pass_trace _ _ _ _ Hpass), <- app_assoc in Ht2. cbn [app] in Ht2.
    pose proof (checks_pass_trace _ _ _ _ Hpass') as Ht3.
    rewrite Ht2, <- app_assoc in Ht3. cbn [app] in Ht3.
    destruct IH as (tr & Htr & IH).
    cbn [logged sys_trace] in Htr, IH. rewrite Ht3, <- !app_assoc in Htr. cbn [app] in Htr.
    exists ([EvGuard u; EvMatch u; EvFetch u]
              ++ [EvGuard next; EvMatch next; EvFollow next] ++ tr)%list.
    split; [exact Htr|].
    intros pre post v E. apply fetch_after_checked_fetch in E.
    destruct E as [[-> ->] | (pre' & -> & E)].
    + exists s, s1, s2, (Ok response). split; [exact Hpass|]. split; [|exact Hfetch].
      apply checks_pass_trace in Hpass. exact Hpass.
    + destruct pre' as [|a [|b [|c pre'']]]; try discriminate.
      injection E as <- <- <- E.
      destruct (IH pre'' post v E) as (t0 & t1 & t2 & rv & Hp & Ht & Hf).
      exists t0, t1, t2, rv. split; [exact Hp|]. split; [|exact Hf].
      rewrite Ht, Ht3, <- !app_assoc. reflexivity.
Qed.

(** C1 -- every run of [fetchWithRedirectValidation] goes by the rules of
    [validated_run]: a fetch of a URL is issued only from the state reached
    when [assertSafeUrl] has returned on that URL and [allowlist.match] has
    found an entry for it, for the initial upstream URL as for every redirect
    target (which goes through both checks when the redirect is read and
    again when it becomes the current URL), and a URL on which either check
    fails ends the run with no fetch of it.  Read on the trace of the run:
    every fetch in it was issued from a state that the two checks on the
    fetched URL had led to, and comes right after them; at most five fetches
    are issued; a run that follows five redirects ends with
    [too_many_redirects]; and a run that returns, returns a response that is
    not a redirect, obtained from the last URL fetched. *)
Theorem fetch_loop_validates_every_hop :
  forall (request : Request) (upstreamUrl : URL) (services : AppServices)
         (method : string) (s : Sys W),
    let run := fetchWithRedirectValidation request upstreamUrl services method s in
    validated_run services method (sanitizeOutgoingHeaders request) 5 upstreamUrl s
      (fst run) (snd run)
    /\ exists tr : list TraceEvent,
      sys_trace (fst run) = (sys_trace s ++ tr)%list
      /\ validated_before tr
      /\ (count_events is_fetch tr <= 5)%nat
      /\ (count_events is_follow tr = 5%nat -> snd run = Throw "too_many_redirects")
      /\ (forall resp final,
            snd run = Ok (resp, final) ->
            redirectLocation resp = None
            /\ exists pre : list TraceEvent,
                 tr = (pre ++ [EvGuard final; EvMatch final; EvFetch final])%list)
      /\ (forall (pre post : list TraceEvent) (u : URL),
            tr = (pre ++ EvFetch u :: post)%list ->
            exists (s0 s1 : Sys W) (w : W) (r : result UpstreamResponse),
              SsrfGuard.assertSafeUrl u (MIRROR_ENABLE_HTTP (config services)) s0
              = (s1, Ok tt)
              /\ AllowlistStore.match_ (allowlist services) u <> None
              /\ (sys_trace s1 ++ [EvGuard u; EvMatch u])%list = (sys_trace s ++ pre)%list
              /\ upstream_fetch method u (sanitizeOutgoingHeaders request) (sys_world s1)
                 = (w, r)).
Proof.
  intros request upstreamUrl services method s run.
  destruct run as [s' r] eqn:Erun. unfold run, fetchWithRedirectValidation in Erun.
  pose proof (redirectLoop_validated _ _ _ _ _ _ _ _ Erun) as Hrules.
  split; [exact Hrules|].
  apply redirectLoop_trace in Erun.
  destruct Erun as (_ & _ & tr & Htr & Hval & Hfetch & Hfollow & Hok).
  exists tr. cbn [fst snd].
  split; [exact Htr|]. split; [apply validated_from_before; exact Hval|].
  split; [exact Hfetch|]. split; [exact Hfollow|]. split; [exact Hok|].
  destruct (validated_run_fetches _ _ _ _ _ _ _ _ Hrules) as (tr' & Htr' & Hall).
  rewrite Htr in Htr'. apply app_inv_head in Htr'. subst tr'.
  intros pre post u E.
  destruct (Hall pre post u E) as (s0 & s1 & s2 & rv & Hp & Ht & Hf).
  destruct Hp as (t1 & Hguard & Hmatch & ->).
  destruct Hf as (w & Hf & _).
  exists s0, t1, w, rv.
  split; [exact Hguard|]. split; [exact Hmatch|].
  split; [|exact Hf].
  cbn [logged sys_trace] in Ht. rewrite <- app_assoc in Ht. exact Ht.
Qed.

End FetchLoop.

(** ** Mirror registry *)

Section DbFacts.
Context {W : Type} `{World W}.
Import MirrorDb.

Lemma touchRow_slug slug lp now r : mr_slug (touchRow slug lp now r) = mr_slug r.
Proof. unfold touchRow. destruct (String.eqb _ _); reflexivity. Qed.

Lemma touchRow_origin slug lp now r :
  mr_targetOrigin (touchRow slug lp now r) = mr_targetOrigin r.
Proof. unfold touchRow. destruct (String.eqb _ _); reflexivity. Qed.

Lemma touchRow_disabled slug lp now r : mr_disabled (touchRow slug lp now r) = mr_disabled r.
Proof. unfold touchRow. destruct (String.eqb _ _); reflexivity. Qed.

Lemma find_map_preserved {A} (p : A -> bool) (f : A -> A) (l : list A) :
  (forall x, p (f x) = p x) ->
  List.find p (map f l) = option_map f (List.find p l).
Proof.
  intros Hp. induction l as [|x l IH]; cbn; [reflexivity|].
  rewrite Hp. destruct (p x); [reflexivity | exact IH].
Qed.

Lemma find_app_none {A} (p : A -> bool) (l : list A) (x : A) :
  List.find p l = None -> List.find p (l ++ [x]) = if p x then Some x else None.
Proof.
  induction l as [|y l IH]; cbn; [reflexivity|].
  destruct (p y); [discriminate | exact IH].
Qed.

Lemma find_app_some {A} (p : A -> bool) (l l' : list A) (y : A) :
  List.find p l = Some y -> List.find p (l ++ l') = Some y.
Proof.
  induction l as [|z l IH]; cbn; [discriminate|].
  destruct (p z); [auto | exact IH].
Qed.

Lemma existsb_false_find {A} (p : A -> bool) (l : list A) :
  existsb p l = false -> List.find p l = None.
Proof.
  induction l as [|y l IH]; cbn; [reflexivity|].
  destruct (p y); [discriminate | exact IH].
Qed.

Lemma touchMirror_run (slug : string) (lp : option string) (s : Sys W) :
  exists w now,
    touchMirror slug lp s
    = (mkSys w (mkDb (map (touchRow slug lp now) (mirrors (sys_db s))) (events (sys_db s)))
         (sys_cache s) (sys_trace s), Ok tt).
Proof.
  unfold touchMirror, mbind, M_bind, bind, with_world, get_db, put_db.
  destruct (date_iso (sys_world s)) as [w now]. exists w, now. reflexivity.
Qed.

Lemma logEvent_run level kind slug message meta (s s' : Sys W) (r : result MirrorEvent) :
  logEvent level kind slug message meta s = (s', r) ->
  sys_cache s' = sys_cache s /\ sys_trace s' = sys_trace s
  /\ mirrors (sys_db s') = mirrors (sys_db s)
  /\ ((exists ev, r = Ok ev /\ events (sys_db s') = (events (sys_db s) ++ [ev])%list)
      \/ (r = Throw "UNIQUE constraint failed: events.id" /\ sys_db s' = sys_db s)).
Proof.
  unfold logEvent, id, mbind, M_bind, bind, with_world, get_db, put_db, mret, M_ret, ret, throw.
  destruct (random_hex 8 (sys_world s)) as [w1 hex]. cbn.
  destruct (date_iso w1) as [w2 at_]. cbn.
  destruct (existsb _ _); intros [= <- <-]; cbn; repeat split; eauto.
Qed.

Lemma createMirror_run slug origin lp (s s' : Sys W) (r : result MirrorRecord) :
  createMirror slug origin lp s = (s', r) ->
  sys_cache s' = sys_cache s /\ sys_trace s' = sys_trace s
  /\ ((exists e, r = Throw e /\ sys_db s' = sys_db s)
      \/ (exists row,
            r = Ok row /\ mr_slug row = slug /\ mr_targetOrigin row = origin
            /\ mr_disabled row = false
            /\ findMirrorBySlug (sys_db s) slug = None
            /\ sys_db s' = mkDb (mirrors (sys_db s) ++ [row]) (events (sys_db s)))).
Proof.
  unfold createMirror, id, mbind, M_bind, bind, with_world, get_db, put_db, mret, M_ret,
    ret, throw.
  destruct (date_iso (sys_world s)) as [w1 now]. cbn.
  destruct (random_hex 8 w1) as [w2 hex]. cbn.
  destruct (existsb (fun r0 => String.eqb (mr_id r0) _) _);
    [intros [= <- <-]; cbn; eauto 10|].
  destruct (existsb (fun r0 => String.eqb (mr_slug r0) slug) _) eqn:Eslug;
    [intros [= <- <-]; cbn; eauto 10|].
  apply existsb_false_find in Eslug. cbn.
  unfold findMirrorBySlug at 1. cbn [mirrors].
  rewrite (find_app_none _ _ _ Eslug). cbn [mr_slug]. rewrite String.eqb_refl.
  intros [= <- <-]. cbn. split; [reflexivity|]. split; [reflexivity|].
  right. eexists. repeat split; auto.
Qed.

End DbFacts.

(** ** Resolve *)

Section ResolveFacts.
Context `{Platform} `{CssRewriter} {W : Type} `{World W}.
Import MirrorDb Proxy.

Lemma ensureUniqueSlug_run (base : string) (exists_ : string -> bool) (s s' : Sys W)
    (r : result string) :
  ensureUniqueSlug base exists_ s = (s', r) ->
  same_stores s s' /\ exists slug, r = Ok slug.
Proof.
  unfold ensureUniqueSlug.
  destruct (negb _); [intros [= <- <-]; split; [apply same_stores_refl | eauto]|].
  destruct (firstFreeSuffix _ _ _); [intros [= <- <-]; split; [apply same_stores_refl | eauto]|].
  unfold mbind, M_bind, bind, with_world.
  destruct (random_hex 3 (sys_world s)) as [w hex]. intros [= <- <-].
  split; [repeat split | eauto].
Qed.

(** The origin under which [resolveOrCreateMirrorForUrl] registers a URL. *)
Lemma findMirrorByOrigin_touched (db : Db) (origin slug : string) lp now :
  findMirrorByOrigin (mkDb (map (touchRow slug lp now) (mirrors db)) (events db)) origin
  = option_map (touchRow slug lp now) (findMirrorByOrigin db origin).
Proof.
  unfold findMirrorByOrigin. cbn [mirrors]. apply find_map_preserved.
  intros x. rewrite touchRow_origin, touchRow_disabled. reflexivity.
Qed.

Lemma resolveOrCreate_run (url : URL) (s s' : Sys W) (r : result (bool * MirrorRecord)) :
  resolveOrCreateMirrorForUrl url s = (s', r) ->
  let origin := protocol url ++ "//" ++ URL_host url in
  sys_cache s' = sys_cache s /\ sys_trace s' = sys_trace s
  /\ events (sys_db s') = events (sys_db s)
  /\ match findMirrorByOrigin (sys_db s) origin with
     | Some existing =>
         r = Ok (false, existing)
         /\ exists now,
              mirrors (sys_db s')
              = map (touchRow (mr_slug existing) (Some (pathname url ++ search url)) now)
                    (mirrors (sys_db s))
     | None =>
         (exists e, r = Throw e /\ sys_db s' = sys_db s)
         \/ (exists row,
               r = Ok (true, row) /\ mr_targetOrigin row = origin
               /\ mr_disabled row = false
               /\ mirrors (sys_db s') = (mirrors (sys_db s) ++ [row])%list)
     end.
Proof.
  intros Hrun origin. unfold resolveOrCreateMirrorForUrl in Hrun.
  rewrite (bind_ok get_db _ s s (sys_db s) eq_refl) in Hrun.
  fold origin in Hrun.
  destruct (findMirrorByOrigin (sys_db s) origin) as [existing|].
  - destruct (touchMirror_run (mr_slug existing) (Some (pathname url ++ search url)) s)
      as (w & now & Etouch).
    rewrite (bind_ok _ _ _ _ _ Etouch) in Hrun. injection Hrun as <- <-.
    cbn. repeat split; eauto.
  - bind_cases Hrun.
    2:{ apply ensureUniqueSlug_run in E. destruct E as [_ [slug Hslug]].
        subst r. discriminate. }
    apply ensureUniqueSlug_run in E. destruct E as [(Edb & Ecache & Etrace) _].
    bind_cases Hrun.
    + apply createMirror_run in E.
      destruct E as (Ec & Et & [(e & [=] & _) | (row & [= ->] & Hslug & Horigin & Hdis & _ & Hdb)]).
      injection Hrun as <- <-. rewrite Ec, Et, Ecache, Etrace, Hdb. cbn [events mirrors].
      rewrite Edb. repeat split. right. exists row. repeat split; auto.
    + apply createMirror_run in E.
      destruct E as (Ec & Et & [(e' & [= <-] & Hdb) | (row & [=] & _)]).
      subst r. rewrite Ec, Et, Ecache, Etrace, Hdb, Edb. repeat split. left. eauto.
Qed.

Lemma resolveTargetUrl_run (services : AppServices) (rawUrl : string) (s s' : Sys W)
    (r : result ResolveResult) :
  resolveTargetUrl services rawUrl s = (s', r) ->
  sys_cache s' = sys_cache s /\ sys_trace s' = sys_trace s
  /\ match r with
     | Throw e => sys_db s' = sys_db s \/ e = "UNIQUE constraint failed: events.id"
     | Ok res =>
         exists url,
           URL_parse rawUrl = Some url
           /\ res_created res
              = match findMirrorByOrigin (sys_db s) (protocol url ++ "//" ++ URL_host url) with
                | Some _ => false
                | None => true
                end
           /\ (exists m,
                 findMirrorByOrigin (sys_db s') (protocol url ++ "//" ++ URL_host url) = Some m
                 /\ mr_slug m = res_slug res)
           /\ (forall m0,
                 findMirrorByOrigin (sys_db s) (protocol url ++ "//" ++ URL_host url) = Some m0 ->
                 mr_slug m0 = res_slug res)
     end.
Proof.
  unfold resolveTargetUrl. destruct (URL_parse rawUrl) as [url|].
  2:{ intros [= <- <-]. auto. }
  intros Hrun. bind_cases Hrun.
  2:{ apply assertSafeUrl_stores in E. destruct E as (-> & -> & ->). subst r. auto. }
  apply assertSafeUrl_stores in E. destruct E as (Edb & Ecache & Etrace).
  destruct (negb _).
  { injection Hrun as <- <-. rewrite Edb, Ecache, Etrace. auto. }
  bind_cases Hrun.
  2:{ apply resolveOrCreate_run in E. cbn zeta in E. rewrite Edb in E.
      destruct E as (Ec & Et & Eev & Hcase). subst r.
      rewrite Ec, Et, Ecache, Etrace. split; [reflexivity|]. split; [reflexivity|].
      destruct (findMirrorByOrigin (sys_db s) _) as [existing|].
      - destruct Hcase as [[=] _].
      - destruct Hcase as [(e' & _ & ->) | (row & [=] & _)]. left. reflexivity. }
  apply resolveOrCreate_run in E. cbn zeta in E. rewrite Edb in E.
  destruct E as (Ec & Et & Eev & Hcase).
  destruct a0 as [created mirror].
  bind_cases Hrun.
  2:{ apply logEvent_run in E. destruct E as (Ec' & Et' & _ & [(ev & [=] & _) | [[= ->] _]]).
      subst r. rewrite Ec', Et', Ec, Et, Ecache, Etrace. auto. }
  apply logEvent_run in E. destruct E as (Ec' & Et' & Hm & _).
  injection Hrun as <- <-.
  rewrite Ec', Et', Ec, Et, Ecache, Etrace. split; [reflexivity|]. split; [reflexivity|].
  exists url. split; [reflexivity|]. cbn [res_created res_slug].
  unfold findMirrorByOrigin at 2. rewrite Hm.
  destruct (findMirrorByOrigin (sys_db s) _) as [existing|] eqn:Efind.
  - destruct Hcase as [[= -> ->] [now Hmirrors]]. rewrite Hmirrors.
    split; [reflexivity|]. split.
    + pose proof (findMirrorByOrigin_touched (sys_db s)
                    (protocol url ++ "//" ++ URL_host url) (mr_slug existing)
                    (Some (pathname url ++ search url)) now) as Ht.
      unfold findMirrorByOrigin at 1 in Ht. cbn [mirrors] in Ht. rewrite Ht, Efind.
      eexists. split; [reflexivity|]. apply touchRow_slug.
    + intros m0 [= <-]. reflexivity.
  - destruct Hcase as [(e' & [=] & _) | (row & [= -> ->] & Horigin & Hdis & Hmirrors)].
    rewrite Hmirrors. split; [reflexivity|]. split; [|discriminate].
    eexists. split; [|reflexivity].
    unfold findMirrorByOrigin in Efind. rewrite (find_app_none _ _ _ Efind).
    rewrite Horigin, Hdis, String.eqb_refl. reflexivity.
Qed.

(** C4 -- when [resolveTargetUrl] throws, whether [invalid_url] from the
    parser, [invalid_scheme], [credentials_not_allowed], [empty_hostname],
    [ssrf_blocked], [dns_resolution_failed] or [invalid_ip] from the guard,
    a rejection of the DNS lookup, or [domain_not_allowed] from the
    allowlist, the registry is exactly what it was before the call: no
    mirror row is created or touched and no event is written.  (The one
    exception that is raised after the registry was written is the
    primary-key violation of the event insert.) *)
Theorem resolve_failure_leaves_registry :
  forall (services : AppServices) (rawUrl : string) (s s' : Sys W) (e : string),
    resolveTargetUrl services rawUrl s = (s', Throw e) ->
    e <> "UNIQUE constraint failed: events.id" ->
    sys_db s' = sys_db s
    /\ mirrors (sys_db s') = mirrors (sys_db s)
    /\ sys_cache s' = sys_cache s.
Proof.
  intros services rawUrl s s' e Hrun He.
  apply resolveTargetUrl_run in Hrun. destruct Hrun as (Hc & _ & [Hdb | Heq]).
  - rewrite Hdb. auto.
  - contradiction.
Qed.

(** C8 (as amended) -- two consecutive successful calls of
    [resolveTargetUrl] on the same input, the second starting in the state
    the first one left: the second call returns the slug of the first and
    [created = false]; the first call returns [created = true] exactly when
    no enabled mirror was registered for the origin of the URL before it,
    and [created = false] otherwise. *)
Theorem resolve_twice_same_slug :
  forall (services : AppServices) (rawUrl : string) (s0 s1 s2 : Sys W)
         (r1 r2 : ResolveResult),
    resolveTargetUrl services rawUrl s0 = (s1, Ok r1) ->
    resolveTargetUrl services rawUrl s1 = (s2, Ok r2) ->
    res_slug r2 = res_slug r1
    /\ res_created r2 = false
    /\ exists url : URL,
         URL_parse rawUrl = Some url
         /\ (res_created r1 = true
             <-> findMirrorByOrigin (sys_db s0) (protocol url ++ "//" ++ URL_host url) = None).
Proof.
  intros services rawUrl s0 s1 s2 r1 r2 Hrun1 Hrun2.
  apply resolveTargetUrl_run in Hrun1. apply resolveTargetUrl_run in Hrun2.
  destruct Hrun1 as (_ & _ & url & Hparse & Hcreated1 & (m & Hfind1 & Hslug1) & _).
  destruct Hrun2 as (_ & _ & url' & Hparse' & Hcreated2 & _ & Hsame).
  rewrite Hparse in Hparse'. injection Hparse' as <-.
  rewrite Hfind1 in Hcreated2.
  specialize (Hsame m Hfind1). split; [congruence|]. split; [exact Hcreated2|].
  exists url. split; [exact Hparse|]. rewrite Hcreated1.
  destruct (findMirrorByOrigin (sys_db s0) _); split; intros; congruence.
Qed.

End ResolveFacts.

(** ** Error replies *)

Section ErrorReplies.
Context `{Platform} `{CssRewriter} {W : Type} `{World W}.
Import Proxy Routes.

(** A reply of the [try] block never carries the error identifier
    [dns_resolution_failed]. *)
Lemma proxyUpstream_payload services request reply method slug cacheKey target upstreamUrl
    (s s' : Sys W) (r : Reply) :
  proxyUpstream services request reply method slug cacheKey target upstreamUrl s = (s', Ok r) ->
  reply_payload r <> Some (PError "dns_resolution_failed").
Proof.
  unfold proxyUpstream. intros Hrun.
  bind_cases Hrun; [|discriminate].
  destruct a as [response finalUrl].
  destruct (String.eqb method "HEAD").
  { injection Hrun as _ <-. discriminate. }
  bind_cases Hrun; [|discriminate].
  destruct (_ && _ && _).
  { injection Hrun as _ <-. discriminate. }
  destruct (negb _ && _).
  { injection Hrun as _ <-. discriminate. }
  bind_cases Hrun; [|discriminate].
  destruct a0 as [outputBody rewritten].
  bind_cases Hrun; [|discriminate].
  bind_cases Hrun; [|discriminate].
  injection Hrun as _ <-. discriminate.
Qed.

Lemma proxyFailed_reply request reply slug message (s s' : Sys W) (r : Reply) :
  proxyFailed request reply slug message s = (s', Ok r) ->
  r = reply_send (PError message) (reply_code (proxyErrorStatus message) reply).
Proof.
  unfold proxyFailed. intros Hrun.
  bind_cases Hrun; [|discriminate].
  injection Hrun as _ <-. reflexivity.
Qed.

Lemma handleMirrorRequest_dns_status services request reply (s s' : Sys W) (r : Reply) :
  handleMirrorRequest services request reply s = (s', Ok r) ->
  reply_payload r = Some (PError "dns_resolution_failed") ->
  reply_status r = 502.
Proof.
  unfold handleMirrorRequest. intros Hrun Hpayload.
  destruct (negb _); [injection Hrun as _ <-; discriminate|].
  destruct (serviceDisabled services); [injection Hrun as _ <-; discriminate|].
  bind_cases Hrun; [|discriminate].
  destruct (MirrorDb.findMirrorBySlug _ _) as [mirror|];
    [|injection Hrun as _ <-; discriminate].
  destruct (mr_disabled mirror); [injection Hrun as _ <-; discriminate|].
  destruct (URL_parse _) as [upstreamBase|]; [|discriminate].
  bind_cases Hrun; [|discriminate].
  destruct a0 as [hit|].
  { bind_cases Hrun; [|discriminate]. injection Hrun as _ <-. discriminate. }
  bind_cases Hrun; [|discriminate].
  unfold try_catch in Hrun.
  match type of Hrun with
  | context [proxyUpstream ?a ?b ?c ?d ?e ?f ?g ?h ?st] =>
      destruct (proxyUpstream a b c d e f g h st) as [s3 [r3|message]] eqn:Etry
  end.
  - injection Hrun as _ <-.
    apply proxyUpstream_payload in Etry. contradiction.
  - apply proxyFailed_reply in Hrun. subst r.
    cbn in Hpayload. injection Hpayload as ->. reflexivity.
Qed.

Lemma apiResolve_error_status services request reply (s s' : Sys W) (r : Reply) message :
  apiResolve services request reply s = (s', Ok r) ->
  reply_payload r = Some (PError message) ->
  reply_status r = 503 /\ message = "service_disabled"
  \/ reply_status r = resolveErrorStatus message.
Proof.
  unfold apiResolve. intros Hrun Hpayload.
  destruct (serviceDisabled services).
  { injection Hrun as _ <-. cbn in Hpayload. injection Hpayload as <-. left. auto. }
  destruct (parseResolveBody _) as [url|].
  2:{ injection Hrun as _ <-. cbn in Hpayload. injection Hpayload as <-. right. reflexivity. }
  unfold try_catch in Hrun.
  match type of Hrun with
  | context [mbind ?k ?m ?st] => destruct (mbind k m st) as [s3 [r3|msg]] eqn:Etry
  end.
  - injection Hrun as _ <-. bind_cases Etry; [|discriminate].
    injection Etry as _ <-. discriminate.
  - bind_cases Hrun; [|discriminate]. injection Hrun as _ <-.
    cbn in Hpayload. injection Hpayload as <-. right. reflexivity.
Qed.

(** C9 (as amended) -- a failure [dns_resolution_failed] is answered with
    status 502 by the mirrored GET/HEAD handler, and with status 400 by
    [POST /api/resolve], whose [catch] block gives 400 to every identifier
    other than [domain_not_allowed], [ssrf_blocked] and [rate_limited]. *)
Theorem dns_resolution_failed_status :
  forall (services : AppServices) (request : Request) (reply : Reply) (s : Sys W),
    (forall s' r,
       handleMirrorRequest services request reply s = (s', Ok r) ->
       reply_payload r = Some (PError "dns_resolution_failed") ->
       reply_status r = 502)
    /\ (forall s' r,
          apiResolve services request reply s = (s', Ok r) ->
          reply_payload r = Some (PError "dns_resolution_failed") ->
          reply_status r = 400).
Proof.
  intros services request reply s. split.
  - intros s' r. apply handleMirrorRequest_dns_status.
  - intros s' r Hrun Hpayload.
    destruct (apiResolve_error_status _ _ _ _ _ _ _ Hrun Hpayload) as [[_ [=]] | ->].
    reflexivity.
Qed.

End ErrorReplies.

(** ** Response headers *)

Section HeaderFacts.
Import Proxy.

Lemma reply_header_lookup_ne (key value k : string) (r : Reply) :
  Js.toLowerCase key <> k ->
  reply_headers (reply_header key value r) !! k = reply_headers r !! k.
Proof. intros Hne. unfold reply_header. cbn. apply lookup_insert_ne. exact Hne. Qed.

Lemma reply_header_lookup_eq (key value : string) (r : Reply) :
  reply_headers (reply_header key value r) !! Js.toLowerCase key = Some value.
Proof. unfold reply_header. cbn. apply lookup_insert_eq. Qed.

Lemma copyHeader_dropped (rw : bool) (reply : Reply) (h : string * string) (k : string) :
  In k always_dropped \/ (rw = true /\ In k dropped_when_rewritten) ->
  reply_headers (copyHeader rw reply h) !! k = reply_headers reply !! k.
Proof.
  intros Hk. destruct h as [key value]. unfold copyHeader.
  destruct (existsb _ hopByHop) eqn:Ehop; [reflexivity|].
  destruct (String.eqb_spec (Js.toLowerCase key) "content-security-policy") as [|Hcsp];
    [reflexivity|].
  destruct (String.eqb_spec (Js.toLowerCase key) "set-cookie") as [|Hcookie]; [reflexivity|].
  destruct (rw && _) eqn:Erw; [reflexivity|].
  apply reply_header_lookup_ne. intros Heq.
  cbn [existsb hopByHop] in Ehop. rewrite !orb_false_iff in Ehop.
  destruct Hk as [Hk | [-> Hk]].
  - cbn in Hk.
    repeat match goal with
      | Hor : _ \/ _ |- _ => destruct Hor as [<- | Hor]
      | Hf : False |- _ => destruct Hf
      end;
      try contradiction;
      rewrite Heq in Ehop; cbn in Ehop; intuition discriminate.
  - cbn [andb] in Erw. rewrite !orb_false_iff in Erw. cbn in Hk.
    repeat match goal with
      | Hor : _ \/ _ |- _ => destruct Hor as [<- | Hor]
      | Hf : False |- _ => destruct Hf
      end;
      rewrite Heq in Erw; cbn in Erw; intuition discriminate.
Qed.

Lemma copy_loop_dropped (rw : bool) (headers : list (string * string)) :
  forall (reply : Reply) (k : string),
    In k always_dropped \/ (rw = true /\ In k dropped_when_rewritten) ->
    reply_headers (fold_left (copyHeader rw) headers reply) !! k = reply_headers reply !! k.
Proof.
  induction headers as [|h headers IH]; intros reply k Hk; cbn [fold_left]; [reflexivity|].
  rewrite IH by exact Hk. apply copyHeader_dropped. exact Hk.
Qed.

Lemma copySafeHeaders_dropped (reply : Reply) (headers : list (string * string)) (rw : bool)
    (k : string) :
  In k always_dropped \/ (rw = true /\ In k dropped_when_rewritten) ->
  reply_headers (copySafeHeaders reply headers rw) !! k = reply_headers reply !! k.
Proof.
  intros Hk. unfold copySafeHeaders.
  rewrite reply_header_lookup_ne.
  - apply copy_loop_dropped. exact Hk.
  - intros Heq. destruct Hk as [Hk | [_ Hk]]; rewrite <- Heq in Hk; cbn in Hk;
      intuition discriminate.
Qed.

Lemma copySafeHeaders_robots (reply : Reply) (headers : list (string * string)) (rw : bool) :
  reply_headers (copySafeHeaders reply headers rw) !! "x-robots-tag"
  = Some "noindex, nofollow".
Proof. unfold copySafeHeaders. apply (reply_header_lookup_eq "x-robots-tag"). Qed.

End HeaderFacts.

Section ProxiedReply.
Context `{Platform} `{CssRewriter} {W : Type} `{World W}.
Import Proxy.

(** C5 -- every reply that the [try] block of [handleMirrorRequest] builds
    after an upstream fetch (started from a reply that, like the one the
    framework hands over, has none of the filtered headers and carries
    [x-robots-tag]) has none of [connection], [transfer-encoding],
    [keep-alive], [proxy-authenticate], [proxy-authorization], [te],
    [trailers], [upgrade], [content-security-policy], [set-cookie]; it has
    [x-robots-tag: noindex, nofollow]; and when the body was rewritten (the
    upstream content type is HTML or CSS and a body is sent) it has no
    [content-encoding] and no [etag], and its [content-length] is the length
    of the rewritten body, not the upstream value. *)
Theorem proxied_reply_headers :
  forall (services : AppServices) (request : Request) (reply : Reply)
         (method slug cacheKey : string) (targetOrigin upstreamUrl : URL)
         (s s' : Sys W) (r : Reply),
    (forall k, In k (always_dropped ++ dropped_when_rewritten)%list ->
               reply_headers reply !! k = None) ->
    reply_headers reply !! "x-robots-tag" = Some "noindex, nofollow" ->
    proxyUpstream services request reply method slug cacheKey targetOrigin upstreamUrl s
    = (s', Ok r) ->
    (forall k, In k always_dropped -> reply_headers r !! k = None)
    /\ reply_headers r !! "x-robots-tag" = Some "noindex, nofollow"
    /\ exists s1 response finalUrl,
         fetchWithRedirectValidation request upstreamUrl services method s
         = (s1, Ok (response, finalUrl))
         /\ forall body,
              reply_payload r = Some (PBytes body) ->
              (let contentType :=
                 default "application/octet-stream"
                   (headers_get "content-type" (resp_headers response)) in
               Js.includes contentType "text/html" || Js.includes contentType "text/css")
              = true ->
              reply_headers r !! "content-encoding" = None
              /\ reply_headers r !! "etag" = None
              /\ reply_headers r !! "content-length"
                 = Some (Js.show_nat (String.length body)).
Proof.
  intros services request reply method slug cacheKey targetOrigin upstreamUrl s s' r
    Hclean Hrobots Hrun.
  assert (Hclean1 : forall k, In k always_dropped -> reply_headers reply !! k = None)
    by (intros k Hk; apply Hclean, in_or_app; auto).
  assert (Hclean2 : forall k, In k dropped_when_rewritten -> reply_headers reply !! k = None)
    by (intros k Hk; apply Hclean, in_or_app; auto).
  unfold proxyUpstream in Hrun.
  bind_cases Hrun; [|discriminate].
  destruct a as [response finalUrl].
  cbn zeta.
  set (contentType := default "application/octet-stream"
                        (headers_get "content-type" (resp_headers response))) in *.
  assert (Hdropped : forall rw k,
             In k always_dropped ->
             reply_headers (copySafeHeaders (reply_code (resp_status response) reply)
                              (resp_headers response) rw) !! k = None).
  { intros rw k Hk. rewrite copySafeHeaders_dropped by auto. cbn. auto. }
  destruct (String.eqb method "HEAD").
  { injection Hrun as _ <-. split; [|split].
    - intros k Hk. cbn [reply_send reply_headers].
      rewrite reply_header_lookup_ne by (intros <-; cbn in Hk; intuition discriminate).
      apply Hdropped. exact Hk.
    - cbn [reply_send reply_headers]. rewrite reply_header_lookup_ne by discriminate.
      apply copySafeHeaders_robots.
    - exists s0, response, finalUrl. split; [exact E|]. intros body [=]. }
  bind_cases Hrun; [|discriminate].
  destruct (_ && _ && _).
  { injection Hrun as _ <-. cbn. split; [exact Hclean1|]. split; [exact Hrobots|].
    exists s0, response, finalUrl. split; [exact E|]. intros body [=]. }
  destruct (negb _ && _).
  { injection Hrun as _ <-. cbn. split; [exact Hclean1|]. split; [exact Hrobots|].
    exists s0, response, finalUrl. split; [exact E|]. intros body [=]. }
  bind_cases Hrun; [|discriminate].
  destruct a0 as [outputBody rewritten].
  bind_cases Hrun; [|discriminate].
  bind_cases Hrun; [|discriminate].
  injection Hrun as _ <-.
  assert (Hrw : Js.includes contentType "text/html" || Js.includes contentType "text/css"
                = true -> rewritten = true).
  { destruct (Js.includes contentType "text/html").
    - injection E1 as _ _ <-. reflexivity.
    - destruct (Js.includes contentType "text/css"); [|discriminate].
      bind_cases E1; [|discriminate]. injection E1 as _ _ <-. reflexivity. }
  split; [|split].
  - intros k Hk. cbn [reply_send reply_headers].
    destruct rewritten.
    + rewrite reply_header_lookup_ne by (intros <-; cbn in Hk; intuition discriminate).
      rewrite reply_header_lookup_ne by (intros <-; cbn in Hk; intuition discriminate).
      apply Hdropped. exact Hk.
    + rewrite reply_header_lookup_ne by (intros <-; cbn in Hk; intuition discriminate).
      apply Hdropped. exact Hk.
  - cbn [reply_send reply_headers].
    destruct rewritten; rewrite ?reply_header_lookup_ne by discriminate;
      apply copySafeHeaders_robots.
  - exists s0, response, finalUrl. split; [exact E|].
    intros body [= <-] Hct. rewrite (Hrw Hct). cbn [reply_send reply_headers].
    split; [|split].
    + rewrite !reply_header_lookup_ne by discriminate.
      rewrite copySafeHeaders_dropped by (right; cbn; auto). cbn. apply Hclean2. cbn. auto.
    + rewrite !reply_header_lookup_ne by discriminate.
      rewrite copySafeHeaders_dropped by (right; cbn; auto). cbn. apply Hclean2. cbn. auto.
    + apply (reply_header_lookup_eq "content-length").
Qed.

End ProxiedReply.

(** ** File cache *)

Section DirFacts.
Import FileCache.

Lemma fs_read_rm (n m : string) (d : Dir) :
  fs_read n (fs_rm m d) = if String.eqb n m then None else fs_read n d.
Proof.
  unfold fs_read, fs_rm. induction d as [|[k f] d IH]; cbn.
  - destruct (String.eqb n m); reflexivity.
  - destruct (String.eqb_spec k m) as [->|Hkm]; cbn.
    + rewrite IH. destruct (String.eqb_spec n m) as [->|Hnm].
      * reflexivity.
      * destruct (String.eqb_spec m n) as [->|_]; [contradiction | reflexivity].
    + destruct (String.eqb_spec k n) as [->|Hkn].
      * destruct (String.eqb_spec n m) as [->|_]; [contradiction | reflexivity].
      * exact IH.
Qed.

Lemma fs_read_write (n m : string) (f : File) (d : Dir) :
  fs_read n (fs_write m f d) = if String.eqb n m then Some f else fs_read n d.
Proof.
  unfold fs_read. induction d as [|[k g] d IH]; cbn.
  - rewrite (String.eqb_sym m n). destruct (String.eqb n m); reflexivity.
  - destruct (String.eqb_spec k m) as [->|Hkm]; cbn.
    + rewrite (String.eqb_sym m n). destruct (String.eqb n m); reflexivity.
    + destruct (String.eqb_spec k n) as [->|Hkn].
      * destruct (String.eqb_spec n m) as [->|_]; [contradiction | reflexivity].
      * exact IH.
Qed.

Lemma fs_exists_rm (n m : string) (d : Dir) :
  fs_exists n (fs_rm m d) = negb (String.eqb n m) && fs_exists n d.
Proof. unfold fs_exists. rewrite fs_read_rm. destruct (String.eqb n m); reflexivity. Qed.

Lemma fs_rm_names (m : string) (d : Dir) :
  map fst (fs_rm m d) = List.filter (fun n => negb (String.eqb n m)) (map fst d).
Proof.
  unfold fs_rm. induction d as [|[k f] d IH]; cbn; [reflexivity|].
  destruct (negb (String.eqb k m)); cbn; rewrite IH; reflexivity.
Qed.

Lemma fs_rm_NoDup (m : string) (d : Dir) :
  List.NoDup (map fst d) -> List.NoDup (map fst (fs_rm m d)).
Proof. intros Hd. rewrite fs_rm_names. apply List.NoDup_filter. exact Hd. Qed.

Lemma fs_rm_In (m : string) (d : Dir) (x : string * File) :
  In x (fs_rm m d) -> In x d.
Proof. unfold fs_rm. intros Hx. apply List.filter_In in Hx. tauto. Qed.

Lemma fs_write_In (m : string) (f : File) (d : Dir) (x : string * File) :
  In x (fs_write m f d) -> x = (m, f) \/ In x d.
Proof.
  induction d as [|[k g] d IH]; cbn.
  - intros [<- | []]. auto.
  - destruct (String.eqb_spec k m) as [->|Hkm]; cbn.
    + intros [<- | Hx]; auto.
    + intros [<- | Hx]; auto. destruct (IH Hx); auto.
Qed.

Lemma fs_write_names_In (m : string) (f : File) (d : Dir) (n : string) :
  In n (map fst (fs_write m f d)) -> n = m \/ In n (map fst d).
Proof.
  intros Hn. apply in_map_iff in Hn. destruct Hn as ([k g] & <- & Hx).
  apply fs_write_In in Hx. destruct Hx as [[= -> ->] | Hx]; [auto|].
  right. apply in_map_iff. exists (k, g). auto.
Qed.

Lemma fs_write_NoDup (m : string) (f : File) (d : Dir) :
  List.NoDup (map fst d) -> List.NoDup (map fst (fs_write m f d)).
Proof.
  induction d as [|[k g] d IH]; cbn; intros Hd.
  - constructor; [intros [] | constructor].
  - inversion Hd as [|? ? Hk Hd']; subst.
    destruct (String.eqb_spec k m) as [->|Hkm]; cbn.
    + constructor; assumption.
    + constructor; [|apply IH; exact Hd'].
      intros Hin. apply fs_write_names_In in Hin. destruct Hin as [-> | Hin]; contradiction.
Qed.

Lemma fs_read_In (n : string) (f : File) (d : Dir) :
  fs_read n d = Some f -> In (n, f) d.
Proof.
  unfold fs_read. destruct (List.find _ d) as [[k g]|] eqn:Efind; [|discriminate].
  intros [= ->]. apply List.find_some in Efind. destruct Efind as [Hin Heq].
  apply String.eqb_eq in Heq. subst k. exact Hin.
Qed.

Lemma fs_In_read (n : string) (f : File) (d : Dir) :
  List.NoDup (map fst d) -> In (n, f) d -> fs_read n d = Some f.
Proof.
  unfold fs_read. induction d as [|[k g] d IH]; cbn; [intros _ []|].
  intros Hd Hin. inversion Hd as [|? ? Hk Hd']; subst.
  destruct Hin as [[= -> ->] | Hin].
  - rewrite String.eqb_refl. reflexivity.
  - destruct (String.eqb_spec k n) as [->|Hkn].
    + exfalso. apply Hk. apply in_map_iff. exists (n, f). auto.
    + apply IH; assumption.
Qed.

End DirFacts.

Section CacheGet.
Context `{Platform} {W : Type} `{World W}.
Import FileCache.

Lemma rm_run (n : string) (s : Sys W) :
  rm n s = (mkSys (sys_world s) (sys_db s) (fs_rm n (sys_cache s)) (sys_trace s), Ok tt).
Proof. reflexivity. Qed.

Lemma removePair_run (metaPath bodyPath : string) (s : Sys W) :
  removePair metaPath bodyPath s
  = (mkSys (sys_world s) (sys_db s) (fs_rm bodyPath (fs_rm metaPath (sys_cache s)))
       (sys_trace s), Ok tt).
Proof. reflexivity. Qed.

(** C7 -- the outcomes of [get(slug, cacheKey)], by the state of the two
    files of the entry and the time [now] the clock returns:
    - no metadata file: a miss, the directory is unchanged;
    - unparseable metadata: a miss, and the metadata file alone is removed;
    - [(now - cachedAt) / 1000 > ttlSeconds]: a miss, and the metadata file
      and the body file it names are removed;
    - not expired but no body file: a miss, and the metadata file alone is
      removed;
    - otherwise: the stored status, headers, content type and [cachedAt],
      with the bytes of the body file, and the directory is unchanged. *)
Theorem cache_get_outcomes :
  forall (c : FileCache.t) (slug cacheKey : string) (s : Sys W),
    let metaFile := metaName slug cacheKey in
    let d := sys_cache s in
    let out := get c slug cacheKey s in
    let now := snd (date_now (sys_world s)) in
    match fs_read metaFile d with
    | None => snd out = Ok None /\ sys_cache (fst out) = d
    | Some (Bytes _) =>
        snd out = Ok None
        /\ forall n, fs_read n (sys_cache (fst out))
                     = if String.eqb n metaFile then None else fs_read n d
    | Some (MetaJson meta) =>
        if expired c now (meta_cachedAt meta) then
          snd out = Ok None
          /\ forall n, fs_read n (sys_cache (fst out))
                       = if String.eqb n metaFile || String.eqb n (meta_bodyFile meta)
                         then None else fs_read n d
        else
          match fs_read (meta_bodyFile meta) d with
          | None =>
              snd out = Ok None
              /\ forall n, fs_read n (sys_cache (fst out))
                           = if String.eqb n metaFile then None else fs_read n d
          | Some body =>
              snd out = Ok (Some (mkCached (meta_status meta) (meta_headers meta)
                                    (file_bytes body) (meta_contentType meta)
                                    (meta_cachedAt meta)))
              /\ sys_cache (fst out) = d
          end
    end.
Proof.
  intros c slug cacheKey s metaFile d out now.
  unfold out, get. fold metaFile.
  rewrite (bind_ok get_cache _ s s (sys_cache s) eq_refl). fold d.
  unfold fs_exists.
  destruct (fs_read metaFile d) as [[meta|b]|] eqn:Emeta; cbn [negb].
  - unfold now.
    destruct (date_now (sys_world s)) as [w t] eqn:Enow. cbn [snd].
    assert (Eclock : with_world date_now s
                     = (mkSys w (sys_db s) (sys_cache s) (sys_trace s), Ok t))
      by (unfold with_world; rewrite Enow; reflexivity).
    rewrite (bind_ok _ _ _ _ _ Eclock).
    destruct (expired c t (meta_cachedAt meta)).
    + unfold mbind, M_bind, bind. rewrite removePair_run.
      unfold mret, M_ret, ret. cbn [fst snd sys_cache].
      split; [reflexivity|]. intros n.
      rewrite !fs_read_rm. fold d.
      destruct (String.eqb n metaFile), (String.eqb n (meta_bodyFile meta)); reflexivity.
    + destruct (fs_read (meta_bodyFile meta) d) as [body|].
      * unfold mret, M_ret, ret. cbn [fst snd sys_cache]. auto.
      * unfold mbind, M_bind, bind. rewrite rm_run.
        unfold mret, M_ret, ret. cbn [fst snd sys_cache].
        split; [reflexivity|]. intros n. rewrite fs_read_rm. reflexivity.
  - unfold mbind, M_bind, bind. rewrite rm_run.
    unfold mret, M_ret, ret. cbn [fst snd sys_cache].
    split; [reflexivity|]. intros n. rewrite fs_read_rm. reflexivity.
  - unfold mret, M_ret, ret. cbn [fst snd]. auto.
Qed.

End CacheGet.

Section PruneFacts.
Import FileCache.

Lemma sum_sizes_cons (x : PruneItem) (l : list PruneItem) :
  sum_sizes (x :: l) = item_size x + sum_sizes l.
Proof. reflexivity. Qed.

Lemma total_size_from (l : list PruneItem) (acc : Z) :
  fold_left (fun sum item => sum + item_size item) l acc = acc + sum_sizes l.
Proof.
  revert acc. induction l as [|x l IH]; intros acc; cbn [fold_left].
  - change (sum_sizes []) with 0. lia.
  - rewrite IH, sum_sizes_cons. lia.
Qed.

Lemma total_size_sum (l : list PruneItem) : total_size l = sum_sizes l.
Proof. unfold total_size. rewrite total_size_from. lia. Qed.

Lemma sum_sizes_app (l1 l2 : list PruneItem) :
  sum_sizes (l1 ++ l2) = sum_sizes l1 + sum_sizes l2.
Proof.
  induction l1 as [|x l1 IH]; cbn [app].
  - change (sum_sizes []) with 0. lia.
  - rewrite !sum_sizes_cons, IH. lia.
Qed.

Lemma sum_sizes_perm (l1 l2 : list PruneItem) :
  Permutation l1 l2 -> sum_sizes l1 = sum_sizes l2.
Proof. induction 1; rewrite ?sum_sizes_cons; lia. Qed.

Lemma insert_item_perm (x : PruneItem) (l : list PruneItem) :
  Permutation (insert_item x l) (x :: l).
Proof.
  induction l as [|y l IH]; cbn; [reflexivity|].
  destruct (item_cachedAt x <=? item_cachedAt y); [reflexivity|].
  rewrite IH. apply perm_swap.
Qed.

Lemma sort_items_perm (l : list PruneItem) : Permutation (sort_items l) l.
Proof.
  induction l as [|x l IH]; cbn; [reflexivity|].
  rewrite insert_item_perm. constructor. exact IH.
Qed.

Lemma insert_item_sorted (x : PruneItem) (l : list PruneItem) :
  StronglySorted older_or_equal l -> StronglySorted older_or_equal (insert_item x l).
Proof.
  induction 1 as [|y l Hl IH Hy]; cbn.
  - repeat constructor.
  - destruct (Z.leb_spec (item_cachedAt x) (item_cachedAt y)) as [Hxy|Hxy].
    + constructor; [constructor; assumption|].
      constructor; [exact Hxy|].
      eapply List.Forall_impl; [|exact Hy].
      intros z Hz. unfold older_or_equal in *. lia.
    + constructor; [exact IH|].
      assert (Hperm := insert_item_perm x l).
      eapply Permutation_Forall; [apply Permutation_sym; exact Hperm|].
      constructor; [unfold older_or_equal; lia | exact Hy].
Qed.

Lemma sort_items_sorted (l : list PruneItem) : StronglySorted older_or_equal (sort_items l).
Proof.
  induction l as [|x l IH]; cbn; [constructor|].
  apply insert_item_sorted. exact IH.
Qed.

Lemma in_skipn {A} (k : nat) (l : list A) (y : A) : In y (skipn k l) -> In y l.
Proof. intros Hy. rewrite <- (firstn_skipn k l). apply in_or_app. right. exact Hy. Qed.

Lemma in_firstn {A} (k : nat) (l : list A) (y : A) : In y (firstn k l) -> In y l.
Proof. intros Hy. rewrite <- (firstn_skipn k l). apply in_or_app. left. exact Hy. Qed.

(** In a sorted list every item of a prefix is at most as recent as every
    item of the rest. *)
Lemma sorted_prefix_older (l : list PruneItem) (k : nat) :
  StronglySorted older_or_equal l ->
  forall x y, In x (firstn k l) -> In y (skipn k l) -> older_or_equal x y.
Proof.
  intros Hl. revert k. induction Hl as [|z l Hl IH Hz]; intros k x y Hx Hy.
  - rewrite firstn_nil in Hx. destruct Hx.
  - destruct k as [|k]; [destruct Hx|]. cbn in Hx, Hy.
    destruct Hx as [<- | Hx].
    + rewrite List.Forall_forall in Hz. apply Hz.
      apply (in_skipn k l). exact Hy.
    + eapply IH; eassumption.
Qed.

(** Sizes of distinct items drawn from a list of items of non-negative
    size add up to at most the sum over the list. *)
Lemma sum_sizes_incl (l1 l2 : list PruneItem) :
  List.NoDup l1 -> incl l1 l2 ->
  (forall x, In x l2 -> 0 <= item_size x) ->
  sum_sizes l1 <= sum_sizes l2.
Proof.
  revert l2. induction l1 as [|x l1 IH]; intros l2 Hnd Hincl Hpos.
  - clear Hincl. change (sum_sizes []) with 0.
    induction l2 as [|y l2 IH2]; [change (sum_sizes []) with 0; lia|].
    assert (0 <= item_size y) by (apply Hpos; left; reflexivity).
    assert (0 <= sum_sizes l2) by (apply IH2; intros z Hz; apply Hpos; right; exact Hz).
    rewrite sum_sizes_cons. lia.
  - inversion Hnd as [|? ? Hx Hnd']; subst.
    assert (Hin : In x l2) by (apply Hincl; left; reflexivity).
    destruct (in_split _ _ Hin) as (a & b & ->).
    assert (Hrest : sum_sizes l1 <= sum_sizes (a ++ b)).
    { apply IH; [exact Hnd'| |].
      - intros z Hz. assert (Hz2 : In z (a ++ x :: b)) by (apply Hincl; right; exact Hz).
        apply in_app_or in Hz2. apply in_or_app.
        destruct Hz2 as [Hz2 | [<- | Hz2]]; auto. contradiction.
      - intros z Hz. apply Hpos. apply in_app_or in Hz. apply in_or_app.
        destruct Hz; [left | right; right]; assumption. }
    rewrite sum_sizes_app in *. rewrite !sum_sizes_cons. lia.
Qed.

End PruneFacts.

Section ScanFacts.
Import FileCache.

Lemma dir_shrinks_refl (d : Dir) : dir_shrinks d d.
Proof. repeat split; auto. Qed.

Lemma dir_shrinks_trans (d1 d2 d3 : Dir) :
  dir_shrinks d1 d2 -> dir_shrinks d2 d3 -> dir_shrinks d1 d3.
Proof. intros (A1 & B1 & C1) (A2 & B2 & C2). repeat split; auto. Qed.

Lemma dir_shrinks_rm (m : string) (d : Dir) : dir_shrinks d (fs_rm m d).
Proof.
  repeat split.
  - intros n f. rewrite fs_read_rm. destruct (String.eqb n m); [discriminate | auto].
  - apply fs_rm_NoDup.
  - apply fs_rm_In.
Qed.

Lemma dir_shrinks_rm2 (m b : string) (d : Dir) : dir_shrinks d (fs_rm b (fs_rm m d)).
Proof. eapply dir_shrinks_trans; apply dir_shrinks_rm. Qed.

Lemma scan_post_nil (metas : list PruneItem) (d : Dir) : scan_post [] metas d d metas.
Proof.
  split; [apply dir_shrinks_refl|]. split.
  - exists []. rewrite app_nil_r. split; [reflexivity | intros it []].
  - intros n m _ _ [[] | Hin]. exact Hin.
Qed.

(** A file that is skipped or removed by the loop. *)
Lemma scan_post_drop (file : string) (rest : list string) (metas metas1 : list PruneItem)
    (d d2 d1 : Dir) :
  dir_shrinks d d2 ->
  Js.endsWith file ".json" = false \/ fs_read file d2 = None ->
  scan_post rest metas d2 d1 metas1 ->
  scan_post (file :: rest) metas d d1 metas1.
Proof.
  intros Hshrink Hfile (Hs & (new & -> & Hnew) & Hcover).
  split; [eapply dir_shrinks_trans; eassumption|]. split.
  - exists new. split; [reflexivity|]. intros it Hit.
    destruct (Hnew it Hit) as (m & Hin & Heq). exists m. split; [|exact Heq].
    apply Hshrink. exact Hin.
  - intros n m Hjson Hread [[<- | Hin] | Hin]; [|apply Hcover; auto..].
    exfalso. destruct Hfile as [Hfile | Hfile]; [congruence|].
    apply Hs in Hread. congruence.
Qed.

(** A file whose item is recorded by the loop. *)
Lemma scan_post_keep (file : string) (meta : CacheEntryMeta) (rest : list string)
    (metas metas1 : list PruneItem) (d d1 : Dir) :
  fs_read file d = Some (MetaJson meta) ->
  scan_post rest (metas ++ [mkItem file (meta_bodyFile meta) (meta_cachedAt meta)
                              (meta_size meta)]) d d1 metas1 ->
  scan_post (file :: rest) metas d d1 metas1.
Proof.
  intros Hmeta (Hs & (new & -> & Hnew) & Hcover).
  split; [exact Hs|]. split.
  - exists (mkItem file (meta_bodyFile meta) (meta_cachedAt meta) (meta_size meta) :: new).
    split; [rewrite <- app_assoc; reflexivity|].
    intros it [<- | Hit]; [|apply Hnew; exact Hit].
    exists meta. split; [apply fs_read_In; exact Hmeta | reflexivity].
  - intros n m Hjson Hread [[<- | Hin] | Hin].
    + apply Hcover; [exact Hjson | exact Hread |]. right.
      apply Hs in Hread. rewrite Hmeta in Hread. injection Hread as <-.
      apply in_or_app. right. left. reflexivity.
    + apply Hcover; auto.
    + apply Hcover; auto. right. apply in_or_app. left. exact Hin.
Qed.

Context `{Platform} {W : Type} `{World W}.

Lemma prune_scan_run (c : FileCache.t) (files : list string) :
  forall (metas : list PruneItem) (s : Sys W),
  exists s1 metas1,
    prune_scan c files metas s = (s1, Ok metas1)
    /\ sys_db s1 = sys_db s /\ sys_trace s1 = sys_trace s
    /\ scan_post files metas (sys_cache s) (sys_cache s1) metas1.
Proof.
  induction files as [|file rest IH]; intros metas s.
  - exists s, metas. cbn [prune_scan].
    split; [reflexivity|]. split; [reflexivity|]. split; [reflexivity|].
    apply scan_post_nil.
  - cbn [prune_scan].
    destruct (Js.endsWith file ".json") eqn:Ejson; cbn [negb].
    2:{ destruct (IH metas s) as (s1 & metas1 & Hrun & Hdb & Htr & Hpost).
        exists s1, metas1. cbn [sys_db sys_trace] in Hdb, Htr.
      split; [exact Hrun|]. split; [exact Hdb|]. split; [exact Htr|].
        eapply scan_post_drop; [apply dir_shrinks_refl | left; exact Ejson | exact Hpost]. }
    rewrite (bind_ok get_cache _ s s (sys_cache s) eq_refl).
    assert (Hremoved :
      exists s1 metas1,
        (rm file ;; prune_scan c rest metas) s = (s1, Ok metas1)
        /\ sys_db s1 = sys_db s /\ sys_trace s1 = sys_trace s
        /\ scan_post (file :: rest) metas (sys_cache s) (sys_cache s1) metas1).
    { rewrite (bind_ok _ _ _ _ _ (rm_run file s)).
      destruct (IH metas (mkSys (sys_world s) (sys_db s) (fs_rm file (sys_cache s))
                            (sys_trace s)))
        as (s1 & metas1 & Hrun & Hdb & Htr & Hpost).
      exists s1, metas1. cbn [sys_db sys_trace] in Hdb, Htr.
      split; [exact Hrun|]. split; [exact Hdb|]. split; [exact Htr|].
      eapply scan_post_drop; [apply dir_shrinks_rm | right | exact Hpost].
      rewrite fs_read_rm, String.eqb_refl. reflexivity. }
    destruct (fs_read file (sys_cache s)) as [[meta|b]|] eqn:Eread;
      [|exact Hremoved|exact Hremoved].
    destruct (fs_exists (meta_bodyFile meta) (sys_cache s)); cbn [negb];
      [|exact Hremoved].
    destruct (date_now (sys_world s)) as [w t] eqn:Enow.
    assert (Eclock : with_world date_now s
                     = (mkSys w (sys_db s) (sys_cache s) (sys_trace s), Ok t))
      by (unfold with_world; rewrite Enow; reflexivity).
    rewrite (bind_ok _ _ _ _ _ Eclock).
    destruct (expired c t (meta_cachedAt meta)).
    + rewrite (bind_ok _ _ _ _ _ (removePair_run file (meta_bodyFile meta) _)).
      cbn [sys_world sys_db sys_cache sys_trace].
      match goal with
      | |- context [prune_scan c rest metas ?st] =>
          destruct (IH metas st) as (s1 & metas1 & Hrun & Hdb & Htr & Hpost)
      end.
      exists s1, metas1. cbn [sys_db sys_trace] in Hdb, Htr.
      split; [exact Hrun|]. split; [exact Hdb|]. split; [exact Htr|].
      cbn [sys_cache] in Hpost.
      eapply scan_post_drop; [apply dir_shrinks_rm2 | right | exact Hpost].
      rewrite !fs_read_rm, String.eqb_refl.
      destruct (String.eqb file (meta_bodyFile meta)); reflexivity.
    + match goal with
      | |- context [prune_scan c rest ?ms ?st] =>
          destruct (IH ms st) as (s1 & metas1 & Hrun & Hdb & Htr & Hpost)
      end.
      exists s1, metas1. cbn [sys_db sys_trace] in Hdb, Htr.
      split; [exact Hrun|]. split; [exact Hdb|]. split; [exact Htr|].
      cbn [sys_cache] in Hpost.
      eapply scan_post_keep; [exact Eread | exact Hpost].
Qed.

End ScanFacts.

Section PruneRun.
Import FileCache.
Context `{Platform} {W : Type} `{World W}.

Lemma remove_items_cons (x : PruneItem) (items : list PruneItem) (d : Dir) :
  remove_items (x :: items) d
  = remove_items items (fs_rm (item_bodyPath x) (fs_rm (item_metaPath x) d)).
Proof. reflexivity. Qed.

Lemma remove_items_shrinks (items : list PruneItem) :
  forall d, dir_shrinks d (remove_items items d).
Proof.
  induction items as [|x items IH]; intros d.
  - apply dir_shrinks_refl.
  - rewrite remove_items_cons.
    eapply dir_shrinks_trans; [apply dir_shrinks_rm2 | apply IH].
Qed.

Lemma remove_items_gone (items : list PruneItem) :
  forall d it, In it items -> fs_read (item_metaPath it) (remove_items items d) = None.
Proof.
  induction items as [|x items IH]; intros d it Hin; [destruct Hin|].
  rewrite remove_items_cons. destruct Hin as [<- | Hin]; [|apply IH; exact Hin].
  match goal with
  | |- ?lhs = None => destruct lhs as [f|] eqn:Eread; [|reflexivity]
  end.
  apply (remove_items_shrinks items) in Eread.
  rewrite !fs_read_rm, String.eqb_refl in Eread.
  destruct (String.eqb _ (item_bodyPath x)); discriminate.
Qed.

Lemma prune_evict_run (c : FileCache.t) :
  0 <= maxBytes c ->
  forall (items : list PruneItem) (total : Z) (s : Sys W),
    total = sum_sizes items ->
    exists k,
      prune_evict c items total s
      = (mkSys (sys_world s) (sys_db s) (remove_items (firstn k items) (sys_cache s))
           (sys_trace s), Ok tt)
      /\ sum_sizes (skipn k items) <= maxBytes c
      /\ forall j, (j < k)%nat -> maxBytes c < sum_sizes (skipn j items).
Proof.
  intros Hmax. induction items as [|x items IH]; intros total s Htotal.
  - exists 0%nat. cbn. destruct s. split; [reflexivity|]. split; [exact Hmax | lia].
  - cbn [prune_evict]. destruct (Z.leb_spec total (maxBytes c)) as [Hle | Hgt].
    + exists 0%nat. cbn [firstn skipn remove_items fold_left]. destruct s.
      split; [reflexivity|]. split; [lia | lia].
    + rewrite (bind_ok _ _ _ _ _ (removePair_run (item_metaPath x) (item_bodyPath x) s)).
      rewrite sum_sizes_cons in Htotal.
      match goal with
      | |- context [prune_evict c items ?tot ?st] =>
          destruct (IH tot st ltac:(lia)) as (k & Hrun & Hkept & Hmin)
      end.
      exists (S k). cbn [firstn skipn sys_world sys_db sys_cache sys_trace] in *.
      rewrite remove_items_cons.
      split; [exact Hrun|]. split; [exact Hkept|].
      intros [|j] Hj; cbn [skipn]; [rewrite sum_sizes_cons; lia | apply Hmin; lia].
Qed.

(** [prune()]: the scan, then the removal of a prefix of the sorted items,
    the shortest one that brings the total within [maxBytes]. *)
Lemma prune_run (c : FileCache.t) (s : Sys W) :
  0 <= maxBytes c ->
  exists s1 metas k,
    prune_scan c (fs_readdir (sys_cache s)) [] s = (s1, Ok metas)
    /\ prune c s
       = (mkSys (sys_world s1) (sys_db s1)
            (remove_items (firstn k (sort_items metas)) (sys_cache s1)) (sys_trace s1),
          Ok tt)
    /\ sum_sizes (skipn k (sort_items metas)) <= maxBytes c
    /\ forall j, (j < k)%nat -> maxBytes c < sum_sizes (skipn j (sort_items metas)).
Proof.
  intros Hmax. unfold prune.
  rewrite (bind_ok get_cache _ s s (sys_cache s) eq_refl).
  destruct (prune_scan_run c (fs_readdir (sys_cache s)) [] s)
    as (s1 & metas & Hscan & _ & _ & _).
  rewrite (bind_ok _ _ _ _ _ Hscan). rewrite total_size_sum.
  destruct (Z.leb_spec (sum_sizes metas) (maxBytes c)) as [Hle | Hgt].
  - exists s1, metas, 0%nat. split; [exact Hscan|].
    cbn [firstn skipn remove_items fold_left]. destruct s1.
    split; [reflexivity|]. split; [|lia].
    rewrite List.skipn_0, (sum_sizes_perm _ _ (sort_items_perm metas)). exact Hle.
  - destruct (prune_evict_run c Hmax (sort_items metas) (sum_sizes metas) s1
                (eq_sym (sum_sizes_perm _ _ (sort_items_perm metas))))
      as (k & Hrun & Hkept & Hmin).
    exists s1, metas, k. auto.
Qed.

Lemma liveBytes_items (c : FileCache.t) (t : Z) (d l : Dir) :
  fold_right (fun entry acc => live_size c t d entry + acc) 0 l
  = sum_sizes (live_items c t d l).
Proof.
  induction l as [|[n [m|b]] l IH]; cbn [fold_right].
  - reflexivity.
  - rewrite IH.
    change (live_items c t d ((n, MetaJson m) :: l))
      with ((if Js.endsWith n ".json" && fs_exists (meta_bodyFile m) d
                && negb (expired c t (meta_cachedAt m))
             then [item_of n m] else []) ++ live_items c t d l)%list.
    unfold live_size.
    destruct (_ && _ && _); cbn [app]; rewrite ?sum_sizes_cons; cbn [item_of item_size]; lia.
  - rewrite IH.
    change (live_items c t d ((n, Bytes b) :: l)) with (live_items c t d l).
    cbn [live_size]. lia.
Qed.

Lemma live_items_path (c : FileCache.t) (t : Z) (d l : Dir) (it : PruneItem) :
  In it (live_items c t d l) ->
  exists m, In (item_metaPath it, MetaJson m) l /\ it = item_of (item_metaPath it) m
            /\ Js.endsWith (item_metaPath it) ".json" = true.
Proof.
  induction l as [|[n [m|b]] l IH]; [intros []| |].
  - change (live_items c t d ((n, MetaJson m) :: l))
      with ((if Js.endsWith n ".json" && fs_exists (meta_bodyFile m) d
                && negb (expired c t (meta_cachedAt m))
             then [item_of n m] else []) ++ live_items c t d l)%list.
    intros Hin. apply in_app_or in Hin. destruct Hin as [Hin | Hin].
    + destruct (Js.endsWith n ".json") eqn:Ejson; [|destruct Hin].
      destruct (_ && _); cbn in Hin; [|destruct Hin].
      destruct Hin as [<- | []]. exists m. cbn. auto.
    + destruct (IH Hin) as (m' & Hm' & Heq & Hjson). exists m'. cbn. auto.
  - change (live_items c t d ((n, Bytes b) :: l)) with (live_items c t d l).
    intros Hin.
    destruct (IH Hin) as (m' & Hm' & Heq & Hjson). exists m'. cbn. auto.
Qed.

Lemma live_items_NoDup (c : FileCache.t) (t : Z) (d l : Dir) :
  List.NoDup (map fst l) -> List.NoDup (live_items c t d l).
Proof.
  induction l as [|[n f] l IH]; cbn [map fst]; intros Hnd; [constructor|].
  inversion Hnd as [|? ? Hn Hnd']; subst.
  assert (Hfresh : forall it, In it (live_items c t d l) -> item_metaPath it <> n).
  { intros it Hit <-. destruct (live_items_path _ _ _ _ _ Hit) as (m & Hm & _).
    apply Hn. apply in_map_iff. exists (item_metaPath it, MetaJson m). auto. }
  destruct f as [m|b]; [|exact (IH Hnd')].
  change (live_items c t d ((n, MetaJson m) :: l))
    with ((if Js.endsWith n ".json" && fs_exists (meta_bodyFile m) d
              && negb (expired c t (meta_cachedAt m))
           then [item_of n m] else []) ++ live_items c t d l)%list.
  destruct (_ && _ && _); [|exact (IH Hnd')].
  cbn [app]. constructor; [|exact (IH Hnd')].
  intros Hin. apply (Hfresh _ Hin). reflexivity.
Qed.

(** After the prune the live entries are among the items that were kept. *)
Lemma pruned_within_budget (c : FileCache.t) (t : Z) (d0 d1 : Dir)
    (metas : list PruneItem) (k : nat) :
  dir_ok d0 ->
  scan_post (fs_readdir d0) [] d0 d1 metas ->
  sum_sizes (skipn k (sort_items metas)) <= maxBytes c ->
  liveBytes c t (remove_items (firstn k (sort_items metas)) d1) <= maxBytes c.
Proof.
  intros [Hnd Hsizes] (Hshrink & (new & Hnew & Horigin) & Hcover) Hkept.
  cbn [app] in Hnew. subst new.
  set (sorted := sort_items metas) in *.
  set (dfin := remove_items (firstn k sorted) d1).
  assert (Hfin : dir_shrinks d1 dfin) by apply remove_items_shrinks.
  assert (Hfin0 : dir_shrinks d0 dfin) by (eapply dir_shrinks_trans; eassumption).
  unfold liveBytes. rewrite liveBytes_items.
  eapply Z.le_trans; [|exact Hkept].
  apply sum_sizes_incl.
  - apply live_items_NoDup. apply Hfin0. exact Hnd.
  - intros it Hit.
    destruct (live_items_path _ _ _ _ _ Hit) as (m & Hm & Heq & Hjson).
    assert (Hread : fs_read (item_metaPath it) dfin = Some (MetaJson m))
      by (apply fs_In_read; [apply Hfin0; exact Hnd | exact Hm]).
    assert (Hmetas : In it metas).
    { rewrite Heq. apply Hcover; [exact Hjson | apply Hfin; exact Hread |].
      left. unfold fs_readdir. apply in_map_iff.
      exists (item_metaPath it, MetaJson m). split; [reflexivity|].
      apply Hfin0. exact Hm. }
    assert (Hsorted : In it sorted)
      by (eapply Permutation_in; [apply Permutation_sym, sort_items_perm | exact Hmetas]).
    rewrite <- (firstn_skipn k sorted) in Hsorted. apply in_app_or in Hsorted.
    destruct Hsorted as [Hevicted | Hkeep]; [|exact Hkeep].
    apply (remove_items_gone _ d1) in Hevicted. fold dfin in Hevicted. congruence.
  - intros it Hit. apply in_skipn in Hit.
    assert (Hmetas : In it metas)
      by (eapply Permutation_in; [apply sort_items_perm | exact Hit]).
    destruct (Horigin it Hmetas) as (m & Hm & ->). cbn. eapply Hsizes. exact Hm.
Qed.

End PruneRun.

Section CacheSet.
Import FileCache.
Context `{Platform} {W : Type} `{World W}.

Lemma dir_ok_write (name : string) (f : File) (d : Dir) :
  dir_ok d ->
  (forall m, f = MetaJson m -> 0 <= meta_size m) ->
  dir_ok (fs_write name f d).
Proof.
  intros [Hnd Hsizes] Hf. split; [apply fs_write_NoDup; exact Hnd|].
  intros n m Hin. apply fs_write_In in Hin.
  destruct Hin as [[= -> <-] | Hin]; [apply Hf; reflexivity | eapply Hsizes; exact Hin].
Qed.

(** A [set] that is not refused writes the body file, then the metadata
    file stamped with the current time, and prunes. *)
Lemma set_run (c : FileCache.t) (slug cacheKey : string) (response : CachedResponse)
    (s : Sys W) :
  2 * Z.of_nat (String.length (cr_body response)) <= maxBytes c ->
  exists w now,
    set c slug cacheKey response s
    = prune c
        (mkSys w (sys_db s)
           (fs_write (metaName slug cacheKey)
              (MetaJson (mkMeta cacheKey slug now (cr_contentType response)
                           (cr_status response) (cr_headers response)
                           (bodyName slug cacheKey)
                           (Z.of_nat (String.length (cr_body response)))))
              (fs_write (bodyName slug cacheKey) (Bytes (cr_body response)) (sys_cache s)))
           (sys_trace s)).
Proof.
  intros Hsize. unfold set.
  destruct (Z.ltb_spec (maxBytes c) (2 * Z.of_nat (String.length (cr_body response))));
    [lia|].
  destruct (date_now (sys_world s)) as [w now] eqn:Enow. exists w, now.
  unfold mbind, M_bind, bind, get_cache, put_cache, with_world.
  cbn [sys_world sys_db sys_cache sys_trace]. rewrite Enow. reflexivity.
Qed.

(** C6 -- after a [set] that stores its entry (the body is at most half of
    [maxBytes]), in a directory that lists each name once and records byte
    counts, the recorded sizes of the live entries (metadata parseable, body
    file present, not expired) add up to at most [maxBytes], whatever the
    time at which liveness is judged.  And [prune], which ends every such
    [set], removes a prefix of the surviving entries sorted by ascending
    [cachedAt]: the shortest prefix after which the rest is within
    [maxBytes]; every removed entry is at least as old as every kept one. *)
Theorem set_keeps_cache_within_maxBytes :
  forall (c : FileCache.t) (slug cacheKey : string) (response : CachedResponse) (s : Sys W),
    0 <= maxBytes c ->
    dir_ok (sys_cache s) ->
    2 * Z.of_nat (String.length (cr_body response)) <= maxBytes c ->
    (snd (set c slug cacheKey response s) = Ok tt
     /\ forall t, liveBytes c t (sys_cache (fst (set c slug cacheKey response s)))
                  <= maxBytes c)
    /\ (forall s0 : Sys W,
          exists s1 metas k,
            prune_scan c (fs_readdir (sys_cache s0)) [] s0 = (s1, Ok metas)
            /\ sys_cache (fst (prune c s0))
               = remove_items (firstn k (sort_items metas)) (sys_cache s1)
            /\ Permutation (sort_items metas) metas
            /\ StronglySorted older_or_equal (sort_items metas)
            /\ sum_sizes (skipn k (sort_items metas)) <= maxBytes c
            /\ (forall j, (j < k)%nat -> maxBytes c < sum_sizes (skipn j (sort_items metas)))
            /\ (forall x y,
                  In x (firstn k (sort_items metas)) ->
                  In y (skipn k (sort_items metas)) ->
                  older_or_equal x y)).
Proof.
  intros c slug cacheKey response s Hmax Hok Hsize. split.
  - destruct (set_run c slug cacheKey response s Hsize) as (w & now & ->).
    match goal with
    | |- context [prune c ?st] => set (sw := st)
    end.
    assert (Hokw : dir_ok (sys_cache sw)).
    { unfold sw. cbn [sys_cache]. apply dir_ok_write.
      - apply dir_ok_write; [exact Hok | discriminate].
      - intros m [= <-]. cbn. lia. }
    destruct (prune_run c sw Hmax) as (s1 & metas & k & Hscan & -> & Hkept & _).
    cbn [fst snd sys_cache]. split; [reflexivity|]. intros t.
    destruct (prune_scan_run c (fs_readdir (sys_cache sw)) [] sw)
      as (s1' & metas' & Hscan' & _ & _ & Hpost).
    rewrite Hscan in Hscan'. injection Hscan' as <- <-.
    eapply pruned_within_budget; eassumption.
  - intros s0.
    destruct (prune_run c s0 Hmax) as (s1 & metas & k & Hscan & -> & Hkept & Hmin).
    exists s1, metas, k. cbn [fst sys_cache].
    split; [exact Hscan|]. split; [reflexivity|].
    split; [apply sort_items_perm|]. split; [apply sort_items_sorted|].
    split; [exact Hkept|]. split; [exact Hmin|].
    apply sorted_prefix_older, sort_items_sorted.
Qed.

End CacheSet.

(** ** HTML rewriter: strings *)

Section SrcsetStrings.
Import Js RewriteHtml.

Lemma dropStart_fix p (s : string) :
  match s with EmptyString => True | String c _ => p c = false end ->
  dropStart p s = s.
Proof. destruct s as [|c s]; cbn; [reflexivity|]. intros ->. reflexivity. Qed.

Lemma dropStart_head p (s : string) :
  match dropStart p s with EmptyString => True | String c _ => p c = false end.
Proof.
  induction s as [|c s IH]; cbn; [exact I|].
  destruct (p c) eqn:Ec; [exact IH | exact Ec].
Qed.

Lemma dropEnd_head p c (s : string) :
  p c = false -> exists t, dropEnd p (String c s) = String c t.
Proof.
  intros Hc. cbn. destruct (dropEnd p s); [rewrite Hc|]; eauto.
Qed.

Lemma dropEnd_idem p (s : string) : dropEnd p (dropEnd p s) = dropEnd p s.
Proof.
  induction s as [|c s IH]; cbn; [reflexivity|].
  destruct (dropEnd p s) as [|d t] eqn:E.
  - destruct (p c) eqn:Ec; cbn; [reflexivity|]. rewrite Ec. reflexivity.
  - cbn [dropEnd]. cbn [dropEnd] in IH. rewrite IH. reflexivity.
Qed.

Lemma trim_idem (s : string) : trim (trim s) = trim s.
Proof.
  unfold trim. set (t := dropStart is_ws s).
  assert (Ht : match t with EmptyString => True | String c _ => is_ws c = false end)
    by apply dropStart_head.
  destruct t as [|c t']; [reflexivity|].
  destruct (dropEnd_head is_ws c t' Ht) as [u Hu]. rewrite Hu.
  rewrite (dropStart_fix is_ws (String c u)) by exact Ht.
  rewrite <- Hu. apply dropEnd_idem.
Qed.

Lemma all_chars_dropStart q p (s : string) :
  all_chars q s = true -> all_chars q (dropStart p s) = true.
Proof.
  induction s as [|c s IH]; cbn; [reflexivity|].
  rewrite andb_true_iff. intros [Hc Hs].
  destruct (p c); [auto | cbn; rewrite Hc, Hs; reflexivity].
Qed.

Lemma all_chars_dropEnd q p (s : string) :
  all_chars q s = true -> all_chars q (dropEnd p s) = true.
Proof.
  induction s as [|c s IH]; cbn; [reflexivity|].
  rewrite andb_true_iff. intros [Hc Hs]. specialize (IH Hs).
  destruct (dropEnd p s).
  - destruct (p c); cbn; [reflexivity | rewrite Hc; reflexivity].
  - cbn [all_chars]. cbn [all_chars] in IH. rewrite Hc, IH. reflexivity.
Qed.

Lemma all_chars_trim q (s : string) :
  all_chars q s = true -> all_chars q (trim s) = true.
Proof. intros Hs. unfold trim. apply all_chars_dropEnd, all_chars_dropStart, Hs. Qed.

Lemma all_chars_takeWhile q p (s : string) :
  all_chars q s = true -> all_chars q (takeWhile p s) = true.
Proof.
  induction s as [|c s IH]; cbn; [reflexivity|].
  rewrite andb_true_iff. intros [Hc Hs].
  destruct (p c); cbn; [rewrite Hc, (IH Hs)|]; reflexivity.
Qed.

Lemma takeWhile_all p (s : string) : all_chars p (takeWhile p s) = true.
Proof.
  induction s as [|c s IH]; cbn; [reflexivity|].
  destruct (p c) eqn:Ec; cbn; [rewrite Ec, IH|]; reflexivity.
Qed.

Lemma takeWhile_id p (s : string) : all_chars p s = true -> takeWhile p s = s.
Proof.
  induction s as [|c s IH]; cbn; [reflexivity|].
  rewrite andb_true_iff. intros [-> Hs]. rewrite (IH Hs). reflexivity.
Qed.

Lemma takeWhile_app_stop p (u : string) c (r : string) :
  all_chars p u = true -> p c = false -> takeWhile p (u ++ String c r) = u.
Proof.
  intros Hu Hc. induction u as [|a u IH]; cbn.
  - rewrite Hc. reflexivity.
  - cbn in Hu. rewrite andb_true_iff in Hu. destruct Hu as [-> Hu].
    rewrite (IH Hu). reflexivity.
Qed.

Lemma dropStart_app_all p (u r : string) :
  all_chars p u = true -> dropStart p (u ++ r) = dropStart p r.
Proof.
  intros Hu. induction u as [|a u IH]; cbn; [reflexivity|].
  cbn in Hu. rewrite andb_true_iff in Hu. destruct Hu as [-> Hu]. exact (IH Hu).
Qed.

Lemma dropStart_all p (u : string) : all_chars p u = true -> dropStart p u = "".
Proof.
  intros Hu. rewrite <- (string_app_nil_r u). rewrite dropStart_app_all by exact Hu.
  reflexivity.
Qed.

(** Elements of [s.split(',')] have no comma. *)
Lemma split_comma_free (c : ascii) (s : string) :
  Forall (fun x => all_chars (fun a => negb (Ascii.eqb a c)) x = true) (split c s).
Proof.
  induction s as [|a s IH]; cbn; [repeat constructor|].
  destruct (Ascii.eqb a c) eqn:Eac; [constructor; [reflexivity | exact IH]|].
  destruct (split c s) as [|x xs]; [repeat constructor; cbn; rewrite Eac; reflexivity|].
  inversion IH as [|? ? Hx Hxs]; subst. constructor; [|exact Hxs].
  cbn. rewrite Eac, Hx. reflexivity.
Qed.

Lemma split_cons_other (c a : ascii) (s : string) :
  Ascii.eqb a c = false ->
  split c (String a s)
  = match split c s with
    | [] => [String a ""]
    | x :: xs => String a x :: xs
    end.
Proof. intros Hac. cbn. rewrite Hac. reflexivity. Qed.

End SrcsetStrings.

Section SrcsetFacts.
Import Js RewriteHtml.
Context `{Platform}.
Variables (baseUrl targetOrigin : URL) (slug : string).

#[local] Abbreviation stable := (fun u => maybeRewriteUrl u baseUrl targetOrigin slug = u).
#[local] Abbreviation norm := (rewriteSrcsetItem baseUrl targetOrigin slug).

Lemma truthy_iff (s : string) : truthy s = true <-> s <> "".
Proof. unfold truthy. destruct (String.eqb_spec s ""); cbn; split; congruence. Qed.

Lemma tight_head (p : string) :
  tight p -> exists c r, p = String c r /\ is_ws c = false.
Proof.
  intros [Htrim Hne]. unfold trim in Htrim.
  pose proof (dropStart_head is_ws p) as Hhead.
  destruct (dropStart is_ws p) as [|c t] eqn:E.
  - cbn in Htrim. congruence.
  - destruct (dropEnd_head is_ws c t Hhead) as [u Hu]. rewrite Hu in Htrim.
    exists c, u. auto.
Qed.

Lemma trim_tight (s : string) : truthy (trim s) = true -> tight (trim s).
Proof. intros Hs. split; [apply trim_idem | apply truthy_iff; exact Hs]. Qed.

(** An item rebuilt from a URL token and a descriptor token. *)
Lemma rebuilt_item (u desc : string) :
  u <> "" -> all_chars not_ws u = true -> all_chars not_ws desc = true ->
  let item := if truthy desc then u ++ " " ++ desc else u in
  tight item /\ split_ws2 item = (u, desc).
Proof.
  intros Hu Hu_ws Hd_ws item.
  assert (Hnows : forall x, all_chars not_ws x = true ->
                            all_chars (fun c => negb (is_ws c)) x = true)
    by (intros x Hx; exact Hx).
  destruct (truthy desc) eqn:Ed; unfold item.
  - apply truthy_iff in Ed. split; [split|].
    + unfold trim.
      destruct u as [|c u']; [contradiction|].
      cbn in Hu_ws. apply andb_true_iff in Hu_ws. destruct Hu_ws as [Hc Hu'].
      unfold not_ws in Hc. apply negb_true_iff in Hc.
      rewrite (dropStart_fix is_ws) by (cbn; exact Hc).
      change (String c u' ++ " " ++ desc) with ((String c u' ++ " ") ++ desc)
        || rewrite <- string_app_assoc.
      apply dropEnd_app_keep; [apply dropEnd_none, Hnows, Hd_ws | exact Ed].
    + destruct u; [contradiction | discriminate].
    + unfold split_ws2.
      change (u ++ " " ++ desc) with (u ++ String " " desc).
      rewrite takeWhile_app_stop by (exact Hu_ws || reflexivity).
      rewrite dropStart_app_all by exact Hu_ws.
      change (dropStart not_ws (String " " desc)) with (String " " desc).
      change (dropStart is_ws (String " " desc)) with (dropStart is_ws desc).
      rewrite dropStart_none by (apply Hnows, Hd_ws).
      rewrite takeWhile_id by exact Hd_ws. reflexivity.
  - assert (desc = "") as -> by (unfold truthy in Ed; apply negb_false_iff in Ed;
                                  apply String.eqb_eq in Ed; exact Ed).
    split; [split|].
    + apply trim_none, Hnows, Hu_ws.
    + exact Hu.
    + unfold split_ws2. rewrite takeWhile_id by exact Hu_ws.
      rewrite (dropStart_all not_ws u) by exact Hu_ws. reflexivity.
Qed.

Lemma split_ws2_tokens (p : string) :
  tight p ->
  fst (split_ws2 p) <> "" /\ all_chars not_ws (fst (split_ws2 p)) = true
  /\ all_chars not_ws (snd (split_ws2 p)) = true.
Proof.
  intros Hp. unfold split_ws2. cbn [fst snd].
  split; [|split; apply takeWhile_all].
  destruct (tight_head p Hp) as (c & r & -> & Hc). cbn. unfold not_ws. rewrite Hc. discriminate.
Qed.

(** Rewriting an item whose URL the rewriter leaves alone normalises its
    white space, and doing it again changes nothing. *)
Lemma norm_stable_item (p : string) :
  tight p -> stable (fst (split_ws2 p)) ->
  tight (norm p) /\ norm (norm p) = norm p
  /\ fst (split_ws2 (norm p)) = fst (split_ws2 p)
  /\ (all_chars not_comma p = true -> all_chars not_comma (norm p) = true).
Proof.
  intros Hp Hstable. destruct (split_ws2_tokens p Hp) as (Hu & Hu_ws & Hd_ws).
  assert (Hnorm : norm p = if truthy (snd (split_ws2 p))
                           then fst (split_ws2 p) ++ " " ++ snd (split_ws2 p)
                           else fst (split_ws2 p)).
  { unfold rewriteSrcsetItem. destruct (split_ws2 p) as [u desc]. cbn [fst snd] in *.
    rewrite Hstable. reflexivity. }
  destruct (rebuilt_item _ _ Hu Hu_ws Hd_ws) as [Htight Hsplit]. cbn zeta in *.
  rewrite <- Hnorm in Htight, Hsplit.
  split; [exact Htight|]. split; [|split].
  - unfold rewriteSrcsetItem at 1. rewrite Hsplit. rewrite Hstable. symmetry. exact Hnorm.
  - rewrite Hsplit. reflexivity.
  - intros Hcomma. rewrite Hnorm.
    assert (Hcu : all_chars not_comma (fst (split_ws2 p)) = true)
      by (unfold split_ws2; cbn [fst]; apply all_chars_takeWhile, Hcomma).
    assert (Hcd : all_chars not_comma (snd (split_ws2 p)) = true)
      by (unfold split_ws2; cbn [snd];
          apply all_chars_takeWhile, all_chars_dropStart, all_chars_dropStart, Hcomma).
    destruct (truthy _); [|exact Hcu].
    rewrite !all_chars_app, Hcu, Hcd. reflexivity.
Qed.

Lemma join_cons2 (sep x y : string) (l : list string) :
  join sep (x :: y :: l) = x ++ sep ++ join sep (y :: l).
Proof. reflexivity. Qed.

Lemma split_join (l : list string) (x : string) :
  Forall (fun y => all_chars not_comma y = true) (x :: l) ->
  split "," (join ", " (x :: l)) = x :: map (String " ") l.
Proof.
  revert x. induction l as [|y l IH]; intros x Hall.
  - inversion Hall; subst. cbn [join map]. apply split_none. assumption.
  - inversion Hall as [|? ? Hx Hrest]; subst.
    rewrite join_cons2.
    change (x ++ ", " ++ join ", " (y :: l))
      with (x ++ String "," (String " " (join ", " (y :: l)))).
    rewrite split_app_sep by exact Hx.
    rewrite split_cons_other by reflexivity.
    rewrite (IH y Hrest). reflexivity.
Qed.

Lemma trim_space (y : string) : trim (String " " y) = trim y.
Proof. reflexivity. Qed.

(** The parts of a list of tight, comma-free items joined by [", "] are the
    items. *)
Lemma srcset_parts_join (l : list string) :
  Forall tight l ->
  Forall (fun y => all_chars not_comma y = true) l ->
  srcset_parts (join ", " l) = l.
Proof.
  intros Htight Hcomma. destruct l as [|x l]; [reflexivity|].
  unfold srcset_parts. rewrite split_join by exact Hcomma.
  cbn [map List.filter].
  inversion Htight as [|? ? [Hx Hxne] Hl]; subst.
  rewrite Hx. rewrite (proj2 (truthy_iff x) Hxne). f_equal.
  clear Hcomma Htight Hx Hxne. induction Hl as [|y l [Hy Hyne] Hl IH]; [reflexivity|].
  cbn [map List.filter]. rewrite trim_space, Hy, (proj2 (truthy_iff y) Hyne).
  f_equal. exact IH.
Qed.

Lemma srcset_parts_tight (raw : string) :
  Forall tight (srcset_parts raw)
  /\ Forall (fun y => all_chars not_comma y = true) (srcset_parts raw).
Proof.
  unfold srcset_parts.
  pose proof (split_comma_free "," raw) as Hsplit.
  induction Hsplit as [|x l Hx Hl [IH1 IH2]]; cbn [map List.filter]; [split; constructor|].
  destruct (truthy (trim x)) eqn:Ex; [|split; assumption].
  split; constructor; auto.
  - apply trim_tight. exact Ex.
  - apply all_chars_trim. exact Hx.
Qed.

(** [rewriteSrcset] on a value whose URLs the rewriter leaves alone: a
    second application returns the result of the first. *)
Lemma rewriteSrcset_stable (raw : string) :
  Forall (fun p => stable (fst (split_ws2 p))) (srcset_parts raw) ->
  let next := rewriteSrcset raw baseUrl targetOrigin slug in
  truthy next = true ->
  rewriteSrcset next baseUrl targetOrigin slug = next
  /\ Forall (fun p => stable (fst (split_ws2 p))) (srcset_parts next).
Proof.
  intros Hstable next Hnext. unfold next in *. unfold rewriteSrcset in *.
  destruct (truthy raw) eqn:Eraw; cbn [negb] in *; [|congruence].
  fold (srcset_parts raw) in *.
  rewrite Hnext. cbn [negb].
  destruct (srcset_parts_tight raw) as [Htight Hcomma].
  set (l := srcset_parts raw) in *.
  assert (Hl : Forall tight (map norm l)
               /\ Forall (fun y => all_chars not_comma y = true) (map norm l)
               /\ map norm (map norm l) = map norm l
               /\ Forall (fun p => stable (fst (split_ws2 p))) (map norm l)).
  { clearbody l. clear Hnext.
    induction l as [|p l IH]; [repeat split; constructor|].
    inversion Hstable as [|? ? Hp Hs]; inversion Htight as [|? ? Htp Ht];
      inversion Hcomma as [|? ? Hcp Hc]; subst.
    destruct (IH Hs Ht Hc) as (I1 & I2 & I3 & I4).
    destruct (norm_stable_item p Htp Hp) as (N1 & N2 & N3 & N4).
    cbn [map]. repeat split; try constructor; auto.
    - rewrite N2, I3. reflexivity.
    - cbn beta. rewrite N3. exact Hp. }
  destruct Hl as (L1 & L2 & L3 & L4).
  fold (srcset_parts (join ", " (map norm l))).
  rewrite (srcset_parts_join _ L1 L2). rewrite L3. split; [reflexivity | exact L4].
Qed.

End SrcsetFacts.

(** ** HTML rewriter: documents *)

Section DomFacts.
Import Js RewriteHtml.

Lemma all_elems_Elem P tag attrs children :
  all_elems P (Elem tag attrs children) <-> P tag attrs /\ Forall (all_elems P) children.
Proof.
  cbn [all_elems]. split; intros [Hp Hc]; (split; [exact Hp|]).
  - induction children as [|c l IH]; constructor; [apply Hc | apply IH, Hc].
  - induction Hc as [|c l Hc Hl IH]; [exact I | split; assumption].
Qed.

Lemma map_elems_id (n : node) : map_elems (fun _ attrs => attrs) n = n.
Proof.
  induction n as [s | tag attrs children IH] using node_induction; cbn [map_elems];
    [reflexivity|].
  f_equal. induction IH as [|c l Hc Hl IHl]; cbn [map]; [reflexivity|].
  rewrite Hc, IHl. reflexivity.
Qed.

Lemma map_elems_each_tag f sel g (n : node) :
  map_elems f (each_tag sel g n)
  = map_elems (fun tag attrs => f tag (if String.eqb tag sel then g attrs else attrs)) n.
Proof.
  induction n as [s | tag attrs children IH] using node_induction;
    cbn [map_elems each_tag]; [reflexivity|].
  f_equal. rewrite map_map.
  induction IH as [|c l Hc Hl IHl]; cbn [map]; [reflexivity|].
  rewrite Hc, IHl. reflexivity.
Qed.

Lemma map_elems_ext f g (n : node) :
  (forall tag attrs, f tag attrs = g tag attrs) -> map_elems f n = map_elems g n.
Proof.
  intros Hfg.
  induction n as [s | tag attrs children IH] using node_induction; cbn [map_elems];
    [reflexivity|].
  rewrite Hfg. f_equal.
  induction IH as [|c l Hc Hl IHl]; cbn [map]; [reflexivity|].
  rewrite Hc, IHl. reflexivity.
Qed.

Context `{Platform}.
Variables (baseUrl targetOrigin : URL) (slug : string).

#[local] Abbreviation RA := (rewriteAttr baseUrl targetOrigin slug).

Lemma fold_selectors (sels : list (string * list string)) :
  forall doc : list node,
    fold_left
      (fun doc '(selector, attrs) =>
         map (each_tag selector (fun elAttrs => fold_left RA attrs elAttrs)) doc)
      sels doc
    = map (map_elems
             (fun tag attrs =>
                fold_left RA
                  (flat_map (fun '(selector, names) =>
                               if String.eqb tag selector then names else []) sels)
                  attrs))
          doc.
Proof.
  induction sels as [|[sel names] sels IH]; intros doc; cbn [fold_left flat_map].
  - symmetry. rewrite <- (map_id doc) at 2. apply map_ext. intros n. apply map_elems_id.
  - rewrite IH, map_map. apply map_ext. intros n.
    rewrite map_elems_each_tag. apply map_elems_ext. intros tag attrs.
    rewrite fold_left_app. destruct (String.eqb tag sel); reflexivity.
Qed.

(** The loop over [attrSelectors] updates each element on its own. *)
Lemma rewriteAttrs_map (doc : list node) :
  rewriteAttrs baseUrl targetOrigin slug doc
  = map (map_elems (rewriteElem baseUrl targetOrigin slug)) doc.
Proof. unfold rewriteAttrs. apply fold_selectors. Qed.

End DomFacts.

Section ElemFacts.
Import Js RewriteHtml.

Lemma attr_set_id (n v : string) (attrs : list (string * string)) :
  attr_get n attrs = Some v -> attr_set n v attrs = attrs.
Proof.
  unfold attr_get. induction attrs as [|[k w] attrs IH]; cbn; [discriminate|].
  destruct (String.eqb k n); [intros [= ->]; reflexivity|].
  intros Hget. rewrite (IH Hget). reflexivity.
Qed.

Lemma attr_get_set (n v : string) (attrs : list (string * string)) :
  attr_get n (attr_set n v attrs) = Some v.
Proof.
  unfold attr_get. induction attrs as [|[k w] attrs IH]; cbn.
  - rewrite String.eqb_refl. reflexivity.
  - destruct (String.eqb k n) eqn:Ekn; cbn; rewrite Ekn; [reflexivity | exact IH].
Qed.

Lemma attr_get_set_other (n n' v : string) (attrs : list (string * string)) :
  n <> n' -> attr_get n (attr_set n' v attrs) = attr_get n attrs.
Proof.
  intros Hne. unfold attr_get. induction attrs as [|[k w] attrs IH]; cbn.
  - destruct (String.eqb_spec n' n); [congruence | reflexivity].
  - destruct (String.eqb_spec k n') as [->|Hkn']; cbn.
    + destruct (String.eqb_spec n' n); [congruence | reflexivity].
    + destruct (String.eqb k n); [reflexivity | exact IH].
Qed.

Context `{Platform}.
Variables (baseUrl targetOrigin : URL) (slug : string).

#[local] Abbreviation RA := (rewriteAttr baseUrl targetOrigin slug).
#[local] Abbreviation untouched := (attr_untouched baseUrl targetOrigin slug).

(** An attribute other than [srcset] whose URL is left alone. *)
Lemma rewriteAttr_plain (attrs : list (string * string)) (attr : string) :
  attr <> "srcset" ->
  (forall current, attr_get attr attrs = Some current -> untouched attr current) ->
  RA attrs attr = attrs.
Proof.
  intros Hne Hstable. unfold rewriteAttr.
  destruct (attr_get attr attrs) as [current|] eqn:Eget; [|reflexivity].
  destruct (truthy current) eqn:Ecur; cbn [negb]; [|reflexivity].
  destruct (String.eqb_spec attr "srcset") as [|_]; [contradiction|].
  specialize (Hstable current eq_refl). unfold attr_untouched in Hstable.
  destruct (String.eqb_spec attr "srcset") as [|_]; [contradiction|].
  unfold url_untouched in Hstable. rewrite Hstable, Ecur. apply attr_set_id. exact Eget.
Qed.

(** The [srcset] attribute: rewriting it once more changes nothing, the
    other attributes are as before, and its URLs are still left alone. *)
Lemma rewriteAttr_srcset (attrs : list (string * string)) :
  (forall current, attr_get "srcset" attrs = Some current -> untouched "srcset" current) ->
  RA (RA attrs "srcset") "srcset" = RA attrs "srcset"
  /\ (forall n, n <> "srcset" -> attr_get n (RA attrs "srcset") = attr_get n attrs)
  /\ (forall current,
        attr_get "srcset" (RA attrs "srcset") = Some current -> untouched "srcset" current).
Proof.
  intros Hstable.
  assert (Hsame : RA attrs "srcset" = attrs ->
            RA (RA attrs "srcset") "srcset" = RA attrs "srcset"
            /\ (forall n, n <> "srcset" -> attr_get n (RA attrs "srcset") = attr_get n attrs)
            /\ (forall current,
                  attr_get "srcset" (RA attrs "srcset") = Some current ->
                  untouched "srcset" current)).
  { intros E. rewrite !E. split; [reflexivity|]. split; [reflexivity | exact Hstable]. }
  destruct (attr_get "srcset" attrs) as [current|] eqn:Eget.
  2:{ apply Hsame. unfold rewriteAttr. rewrite Eget. reflexivity. }
  specialize (Hstable current eq_refl).
  destruct (truthy current) eqn:Ecur.
  2:{ apply Hsame. unfold rewriteAttr. rewrite Eget, Ecur. reflexivity. }
  destruct (truthy (rewriteSrcset current baseUrl targetOrigin slug)) eqn:Enext.
  2:{ apply Hsame. unfold rewriteAttr. rewrite Eget, Ecur. cbn [negb].
      change (String.eqb "srcset" "srcset") with true. cbn iota. rewrite Enext. reflexivity. }
  clear Hsame.
  assert (HRA : RA attrs "srcset"
                = attr_set "srcset" (rewriteSrcset current baseUrl targetOrigin slug) attrs).
  { unfold rewriteAttr. rewrite Eget, Ecur. cbn [negb].
    change (String.eqb "srcset" "srcset") with true. cbn iota. rewrite Enext. reflexivity. }
  rewrite !HRA.
  unfold attr_untouched in Hstable. change (String.eqb "srcset" "srcset") with true in Hstable.
  cbn iota in Hstable.
  destruct (rewriteSrcset_stable baseUrl targetOrigin slug current Hstable Enext)
    as [Hidem Hnext].
  split; [|split].
  - unfold rewriteAttr. rewrite attr_get_set, Enext. cbn [negb].
    change (String.eqb "srcset" "srcset") with true. cbn iota.
    rewrite Hidem, Enext. apply attr_set_id. apply attr_get_set.
  - intros n Hn. apply attr_get_set_other. exact Hn.
  - intros c Hc. rewrite attr_get_set in Hc. injection Hc as <-.
    unfold attr_untouched. change (String.eqb "srcset" "srcset") with true. cbn iota.
    exact Hnext.
Qed.

(** Visiting a list of attribute names of an element whose URLs are left
    alone: the result is the element itself or the element with its [srcset]
    normalised, and the latter when [srcset] is among the names. *)
Lemma fold_rewriteAttr (attrs : list (string * string)) (todo : list string) :
  forall cur,
    (forall attr current,
       In attr ("srcset" :: todo) -> attr_get attr attrs = Some current ->
       untouched attr current) ->
    cur = attrs \/ cur = RA attrs "srcset" ->
    let final := fold_left RA todo cur in
    (final = attrs \/ final = RA attrs "srcset")
    /\ (cur = RA attrs "srcset" \/ In "srcset" todo -> final = RA attrs "srcset").
Proof.
  induction todo as [|n todo IH]; intros cur Hstable Hcur; cbn [fold_left].
  - cbn zeta. split; [exact Hcur|]. intros [Hc | []]. exact Hc.
  - destruct (rewriteAttr_srcset attrs (fun c Hc => Hstable "srcset" c (or_introl eq_refl) Hc))
      as (Hidem & Hother & Hkeep).
    assert (Hstep : RA cur n = (if String.eqb n "srcset" then RA attrs "srcset" else cur)).
    { destruct (String.eqb_spec n "srcset") as [->|Hn].
      - destruct Hcur as [-> | ->]; [reflexivity | exact Hidem].
      - apply rewriteAttr_plain; [exact Hn|]. intros c Hc.
        apply (Hstable n c); [right; left; reflexivity|].
        destruct Hcur as [-> | ->]; [exact Hc | rewrite <- (Hother n Hn); exact Hc]. }
    rewrite Hstep.
    assert (Hstable' : forall attr current,
               In attr ("srcset" :: todo) -> attr_get attr attrs = Some current ->
               untouched attr current).
    { intros a c [<- | Ha] Hc; apply (Hstable _ c); auto. left; reflexivity.
      right; right; exact Ha. }
    destruct (String.eqb_spec n "srcset") as [->|Hn].
    + destruct (IH (RA attrs "srcset") Hstable' (or_intror eq_refl)) as [H1 H2].
      split; [exact H1|]. intros _. apply H2. left. reflexivity.
    + destruct (IH cur Hstable' Hcur) as [H1 H2].
      split; [exact H1|]. intros [Hc | [Hc | Hc]]; [apply H2; auto | congruence | apply H2; auto].
Qed.

Lemma fold_rewriteAttr_plain (attrs : list (string * string)) (todo : list string) :
  ~ In "srcset" todo ->
  (forall attr current,
     In attr todo -> attr_get attr attrs = Some current -> untouched attr current) ->
  fold_left RA todo attrs = attrs.
Proof.
  induction todo as [|n todo IH]; intros Hno Hstable; cbn [fold_left]; [reflexivity|].
  rewrite rewriteAttr_plain.
  - apply IH; [intros Hin; apply Hno; right; exact Hin|].
    intros a c Ha. apply Hstable. right. exact Ha.
  - intros ->. apply Hno. left. reflexivity.
  - intros c. apply Hstable. left. reflexivity.
Qed.

(** On an element without in-origin references a second visit changes
    nothing. *)
Lemma rewriteElem_idem (tag : string) (attrs : list (string * string)) :
  elem_untouched baseUrl targetOrigin slug tag attrs ->
  rewriteElem baseUrl targetOrigin slug tag (rewriteElem baseUrl targetOrigin slug tag attrs)
  = rewriteElem baseUrl targetOrigin slug tag attrs.
Proof.
  intros Hstable. unfold rewriteElem.
  destruct (in_dec string_dec "srcset" (names_for tag)) as [Hin | Hno].
  - assert (Hall : forall attr current,
               In attr ("srcset" :: names_for tag) -> attr_get attr attrs = Some current ->
               untouched attr current).
    { intros a c [<- | Ha]; apply Hstable; assumption. }
    destruct (fold_rewriteAttr attrs (names_for tag) attrs Hall (or_introl eq_refl))
      as [_ Hfinal].
    cbn zeta in Hfinal. rewrite (Hfinal (or_intror Hin)).
    destruct (fold_rewriteAttr attrs (names_for tag) (RA attrs "srcset") Hall
                (or_intror eq_refl)) as [_ Hagain].
    apply Hagain. left. reflexivity.
  - rewrite !(fold_rewriteAttr_plain attrs (names_for tag) Hno Hstable). reflexivity.
Qed.

Lemma map_elems_idem (n : node) :
  all_elems (elem_untouched baseUrl targetOrigin slug) n ->
  map_elems (rewriteElem baseUrl targetOrigin slug)
    (map_elems (rewriteElem baseUrl targetOrigin slug) n)
  = map_elems (rewriteElem baseUrl targetOrigin slug) n.
Proof.
  induction n as [s | tag attrs children IH] using node_induction; [reflexivity|].
  rewrite all_elems_Elem. intros [Helem Hchildren]. cbn [map_elems].
  rewrite rewriteElem_idem by exact Helem. f_equal.
  rewrite map_map.
  induction IH as [|c l Hc Hl IHl]; cbn [map]; [reflexivity|].
  inversion Hchildren as [|? ? Hc' Hl']; subst.
  rewrite (Hc Hc'), (IHl Hl'). reflexivity.
Qed.

End ElemFacts.

Section DocumentFacts.
Import Js RewriteHtml.

Lemma all_elems_impl (P Q : string -> list (string * string) -> Prop) (n : node) :
  (forall tag attrs, P tag attrs -> Q tag attrs) -> all_elems P n -> all_elems Q n.
Proof.
  intros HPQ.
  induction n as [s | tag attrs children IH] using node_induction; [intros; exact I|].
  rewrite !all_elems_Elem. intros [Hp Hc]. split; [apply HPQ, Hp|].
  induction IH as [|c l Hcl Hl IHl]; [constructor|].
  inversion Hc; subst. constructor; auto.
Qed.

Lemma flat_map_Forall {A B} (P : B -> Prop) (f : A -> list B) (l : list A) :
  Forall (fun x => Forall P (f x)) l -> Forall P (flat_map f l).
Proof.
  induction 1 as [|x l Hx Hl IH]; cbn [flat_map]; [constructor|].
  apply Forall_app. split; assumption.
Qed.

(** What [remove_tag] keeps satisfies whatever the document satisfied, and
    has no element of the removed tag. *)
Lemma remove_tag_all (P : string -> list (string * string) -> Prop) (t : string) (n : node) :
  all_elems P n -> Forall (all_elems P) (remove_tag t n).
Proof.
  induction n as [s | tag attrs children IH] using node_induction; cbn [remove_tag].
  - intros _. repeat constructor.
  - rewrite all_elems_Elem. intros [Hp Hc].
    destruct (String.eqb tag t); [constructor|].
    constructor; [|constructor]. apply all_elems_Elem. split; [exact Hp|].
    apply flat_map_Forall.
    induction IH as [|c l Hcl Hl IHl]; [constructor|].
    inversion Hc; subst. constructor; auto.
Qed.

Lemma remove_tag_gone (t : string) (n : node) : Forall (no_tag t) (remove_tag t n).
Proof.
  induction n as [s | tag attrs children IH] using node_induction; cbn [remove_tag].
  - repeat constructor.
  - destruct (String.eqb tag t) eqn:Etag; [constructor|].
    constructor; [|constructor]. apply all_elems_Elem. split; [exact Etag|].
    apply flat_map_Forall. exact IH.
Qed.

Lemma remove_tag_absent (t : string) (n : node) : no_tag t n -> remove_tag t n = [n].
Proof.
  unfold no_tag.
  induction n as [s | tag attrs children IH] using node_induction; cbn [remove_tag];
    [reflexivity|].
  rewrite all_elems_Elem. intros [-> Hc]. do 2 f_equal.
  induction IH as [|c l Hcl Hl IHl]; cbn [flat_map]; [reflexivity|].
  inversion Hc; subst. rewrite Hcl, IHl by assumption. reflexivity.
Qed.

Lemma remove_tag_doc_absent (t : string) (doc : list node) :
  Forall (no_tag t) doc -> flat_map (remove_tag t) doc = doc.
Proof.
  induction 1 as [|n doc Hn Hdoc IH]; cbn [flat_map]; [reflexivity|].
  rewrite (remove_tag_absent t n Hn), IH. reflexivity.
Qed.

Lemma map_elems_no_tag f (t : string) (n : node) :
  no_tag t n -> no_tag t (map_elems f n).
Proof.
  unfold no_tag.
  induction n as [s | tag attrs children IH] using node_induction; cbn [map_elems];
    [intros; exact I|].
  rewrite !all_elems_Elem. intros [Hp Hc]. split; [exact Hp|].
  apply Forall_map.
  induction IH as [|c l Hcl Hl IHl]; [constructor|].
  inversion Hc; subst. constructor; auto.
Qed.

Lemma prepend_no_base (n : node) : no_tag "base" n -> no_tag "base" (prepend_to_head n).
Proof.
  unfold no_tag.
  induction n as [s | tag attrs children IH] using node_induction; cbn [prepend_to_head];
    [intros; exact I|].
  rewrite !all_elems_Elem. intros [Hp Hc]. split; [exact Hp|].
  assert (Hmapped : Forall (all_elems (fun tag0 _ => String.eqb tag0 "base" = false))
                      (map prepend_to_head children)).
  { apply Forall_map.
    induction IH as [|c l Hcl Hl IHl]; [constructor|].
    inversion Hc; subst. constructor; auto. }
  destruct (String.eqb tag "head"); [|exact Hmapped].
  constructor; [|exact Hmapped]. cbn. auto.
Qed.

(** Either some [head] received the robots element, which is then found,
    or the node has no [head] and is unchanged. *)
Lemma prepend_found_or_same (n : node) :
  forall inHead, has_robots inHead (prepend_to_head n) = true \/ prepend_to_head n = n.
Proof.
  induction n as [s | tag attrs children IH] using node_induction; intros inHead;
    cbn [prepend_to_head]; [right; reflexivity|].
  destruct (String.eqb tag "head") eqn:Ehead.
  - left. cbn [has_robots existsb]. rewrite Ehead, orb_true_r. cbn.
    rewrite orb_true_r. reflexivity.
  - cbn [has_robots]. rewrite Ehead, orb_false_r.
    assert (Hch : existsb (has_robots inHead) (map prepend_to_head children) = true
                  \/ map prepend_to_head children = children).
    { induction IH as [|c l Hcl Hl IHl]; [right; reflexivity|].
      cbn [map existsb].
      destruct (Hcl inHead) as [-> | Hsame]; [left; reflexivity|].
      destruct IHl as [-> | Hsame']; [left; apply orb_true_r|].
      right. rewrite Hsame, Hsame'. reflexivity. }
    destruct Hch as [-> | ->]; [left; apply orb_true_r | right; reflexivity].
Qed.

Lemma prepend_doc_found_or_same (doc : list node) :
  existsb (has_robots false) (map prepend_to_head doc) = true
  \/ map prepend_to_head doc = doc.
Proof.
  induction doc as [|n doc IH]; [right; reflexivity|].
  cbn [map existsb].
  destruct (prepend_found_or_same n false) as [-> | Hsame]; [left; reflexivity|].
  destruct IH as [-> | Hsame']; [left; apply orb_true_r|].
  right. rewrite Hsame, Hsame'. reflexivity.
Qed.

Context `{Platform}.
Variables (baseUrl targetOrigin : URL) (slug : string).

#[local] Abbreviation E := (rewriteElem baseUrl targetOrigin slug).

Lemma map_elems_prepend (n : node) :
  map_elems E (prepend_to_head n) = prepend_to_head (map_elems E n).
Proof.
  induction n as [s | tag attrs children IH] using node_induction;
    cbn [prepend_to_head map_elems]; [reflexivity|].
  f_equal.
  assert (Hch : map (map_elems E) (map prepend_to_head children)
                = map prepend_to_head (map (map_elems E) children)).
  { induction IH as [|c l Hcl Hl IHl]; cbn [map]; [reflexivity|].
    rewrite Hcl, IHl. reflexivity. }
  destruct (String.eqb tag "head"); [|exact Hch].
  cbn [map]. rewrite Hch. reflexivity.
Qed.

End DocumentFacts.

Section RewriteTwice.
Import Js RewriteHtml.
Context `{Platform}.

(** The amended statement on the parsed document. *)
Lemma rewriteDom_twice :
  forall (baseUrl targetOrigin : URL) (slug : string) (doc : list node),
    no_in_origin_reference baseUrl targetOrigin slug doc ->
    rewriteDom baseUrl targetOrigin slug (rewriteDom baseUrl targetOrigin slug doc)
    = rewriteDom baseUrl targetOrigin slug doc.
Proof.
  intros baseUrl targetOrigin slug doc Hdoc. unfold no_in_origin_reference in Hdoc.
  set (E := rewriteElem baseUrl targetOrigin slug).
  set (R := flat_map (remove_tag "base") doc).
  set (X := map (map_elems E) R).
  assert (HR : Forall (all_elems (elem_untouched baseUrl targetOrigin slug)) R).
  { unfold R. apply flat_map_Forall.
    eapply List.Forall_impl; [|exact Hdoc]. intros n. apply remove_tag_all. }
  assert (HRbase : Forall (no_tag "base") R).
  { unfold R. apply flat_map_Forall. apply List.Forall_forall.
    intros n _. apply remove_tag_gone. }
  assert (HXbase : Forall (no_tag "base") X).
  { unfold X. apply Forall_map.
    eapply List.Forall_impl; [|exact HRbase]. intros n. apply map_elems_no_tag. }
  assert (HXX : map (map_elems E) X = X).
  { unfold X. rewrite map_map. apply map_ext_Forall.
    eapply List.Forall_impl; [|exact HR]. intros n Hn. apply map_elems_idem. exact Hn. }
  assert (Hpass : forall Y,
             Forall (no_tag "base") Y -> map (map_elems E) Y = Y ->
             rewriteDom baseUrl targetOrigin slug Y
             = if existsb (has_robots false) Y then Y else map prepend_to_head Y).
  { intros Y HYbase HYY. unfold rewriteDom.
    rewrite (remove_tag_doc_absent "base" Y HYbase), rewriteAttrs_map.
    fold E. rewrite HYY. reflexivity. }
  assert (Hfirst : rewriteDom baseUrl targetOrigin slug doc
                   = if existsb (has_robots false) X then X else map prepend_to_head X).
  { unfold rewriteDom. fold R. rewrite rewriteAttrs_map. fold E. fold X. reflexivity. }
  rewrite Hfirst.
  destruct (existsb (has_robots false) X) eqn:Erobots.
  - rewrite (Hpass X HXbase HXX), Erobots. reflexivity.
  - rewrite Hpass.
    + destruct (prepend_doc_found_or_same X) as [-> | Hsame]; [reflexivity|].
      rewrite !Hsame, Erobots. reflexivity.
    + apply Forall_map. eapply List.Forall_impl; [|exact HXbase].
      intros n. apply prepend_no_base.
    + rewrite map_map. rewrite <- HXX at 2. rewrite map_map. apply map_ext.
      intros n. apply map_elems_prepend.
Qed.

(** C3 (as amended) -- take an HTML text whose parsed document has no
    rewritable attribute holding a URL that the rewriter would replace (every
    such URL is skipped, unresolvable, or resolves outside the target
    origin).  Then the steps of [rewriteHtmlDocument] between [load(html)]
    and [$.html()] (removal of [base], attribute loop with its normalisation
    of [srcset], robots element) leave the document they have produced as it
    is when they are run on it again; and if, in addition, the parser reads
    the text of the first output back as the document it was serialised
    from, a second call of [rewriteHtmlDocument] with the same arguments on
    the output of the first returns that output unchanged. *)
Theorem rewrite_twice_without_in_origin_reference :
  forall (baseUrl targetOrigin : URL) (slug html : string),
    let once := rewriteDom baseUrl targetOrigin slug (cheerio_load html) in
    no_in_origin_reference baseUrl targetOrigin slug (cheerio_load html) ->
    rewriteDom baseUrl targetOrigin slug once = once
    /\ (cheerio_load (cheerio_html once) = once ->
        rewriteHtmlDocument (rewriteHtmlDocument html baseUrl targetOrigin slug)
          baseUrl targetOrigin slug
        = rewriteHtmlDocument html baseUrl targetOrigin slug).
Proof.
  intros baseUrl targetOrigin slug html once Hdoc.
  assert (Hdom : rewriteDom baseUrl targetOrigin slug once = once)
    by (apply rewriteDom_twice; exact Hdoc).
  split; [exact Hdom|]. intros Hback.
  unfold rewriteHtmlDocument. fold once. rewrite Hback, Hdom. reflexivity.
Qed.

End RewriteTwice.

(* ===================================================================== *)
(** * Concrete runs *)
(* ===================================================================== *)

Section Runs.
Import Model Scenario.

(** Two URLs on the allowlisted host, on different ports and paths. *)
Lemma match_ignores_port_run :
  AllowlistStore.match_ (allowlist services) example_root
  = AllowlistStore.match_ (allowlist services)
      (mkURL "https:" "" "" "example.com" "8443" "/admin" "?a=1" "")
  /\ AllowlistStore.isAllowed (allowlist services)
       (mkURL "https:" "" "" "example.com" "8443" "/admin" "?a=1" "") = true.
Proof.
  destruct (match_depends_only_on_scheme_and_host (allowlist services) example_root
              (mkURL "https:" "" "" "example.com" "8443" "/admin" "?a=1" "")
              eq_refl eq_refl) as (Hmatch & Hallowed & _).
  split; [exact Hmatch|]. rewrite <- Hallowed. reflexivity.
Defined.

(** The guard on [https://10.1.2.3/]. *)
Lemma guard_blocks_private_literal_run :
  SsrfGuard.assertSafeUrl (mkURL "https:" "" "" "10.1.2.3" "" "/" "" "") false
    (start public_world empty_db [])
  = (start public_world empty_db [], Throw "ssrf_blocked").
Proof.
  apply assertSafeUrl_blocks_private_hosts; try reflexivity.
  right. right. right. right.
  exists 10%nat, 1%nat, 2%nat, 3%nat.
  repeat split; try (apply Nat.ltb_lt; reflexivity).
Defined.

(** The loop on a chain of six redirects. *)
Lemma redirect_chain_run :
  let run := Proxy.fetchWithRedirectValidation (mirror_request "GET") example_root services
               "GET" (start redirecting_world registered_db []) in
  snd run = Throw "too_many_redirects"
  /\ count_events is_fetch (sys_trace (fst run)) = 5%nat
  /\ validated_before (sys_trace (fst run)).
Proof.
  intros run.
  destruct (fetch_loop_validates_every_hop (mirror_request "GET") example_root services
              "GET" (start redirecting_world registered_db []))
    as (_ & tr & Htr & Hval & _).
  fold run in Htr. cbn [start sys_trace app] in Htr. rewrite Htr.
  split; [vm_compute; reflexivity|].
  split; [rewrite <- Htr; vm_compute; reflexivity | exact Hval].
Defined.

(** [resolveTargetUrl] on a loopback address, from an empty registry. *)
Lemma resolve_loopback_run :
  let run := Proxy.resolveTargetUrl services "https://127.0.0.1/"
               (start public_world empty_db []) in
  snd run = Throw "ssrf_blocked" /\ sys_db (fst run) = empty_db.
Proof.
  intros run. split; [vm_compute; reflexivity|].
  apply (resolve_failure_leaves_registry services "https://127.0.0.1/"
           (start public_world empty_db []) (fst run) "ssrf_blocked").
  - vm_compute. reflexivity.
  - discriminate.
Defined.

(** Two resolves of [https://example.com/foo], from an empty registry. *)
Lemma resolve_twice_run :
  let first := Proxy.resolveTargetUrl services "https://example.com/foo"
                 (start public_world empty_db []) in
  let second := Proxy.resolveTargetUrl services "https://example.com/foo" (fst first) in
  exists r1 r2,
    snd first = Ok r1 /\ snd second = Ok r2
    /\ res_slug r1 = "example-com" /\ res_slug r2 = "example-com"
    /\ res_created r1 = true /\ res_created r2 = false.
Proof.
  intros first second.
  set (r1 := mkResolved "example-com" "https://example.com" "/m/example-com/foo" true).
  set (r2 := mkResolved "example-com" "https://example.com" "/m/example-com/foo" false).
  assert (H1 : first = (fst first, Ok r1)) by (vm_compute; reflexivity).
  assert (H2 : second = (fst second, Ok r2)) by (vm_compute; reflexivity).
  destruct (resolve_twice_same_slug services "https://example.com/foo"
              (start public_world empty_db []) (fst first) (fst second) r1 r2)
    as (Hslug & Hc2 & _).
  - exact H1.
  - exact H2.
  - exists r1, r2. rewrite H1 at 1. rewrite H2 at 1. cbn [snd].
    repeat split; auto.
Defined.

(** Two resolves of [https://example.com/] when a mirror of that origin is
    registered already: both return its slug, and the first one returns
    [created = false] as the second does. *)
Lemma resolve_registered_origin_run :
  let first := Proxy.resolveTargetUrl services "https://example.com/"
                 (start public_world registered_db []) in
  let second := Proxy.resolveTargetUrl services "https://example.com/" (fst first) in
  exists r1 r2,
    snd first = Ok r1 /\ snd second = Ok r2
    /\ res_slug r1 = "example-com" /\ res_slug r2 = "example-com"
    /\ res_created r1 = false /\ res_created r2 = false
    /\ res_created r1 <> true.
Proof.
  intros first second.
  exists (mkResolved "example-com" "https://example.com" "/m/example-com" false),
         (mkResolved "example-com" "https://example.com" "/m/example-com" false).
  split; [vm_compute; reflexivity|]. split; [vm_compute; reflexivity|].
  repeat split. discriminate.
Qed.

(** [POST /api/resolve] when the lookup of the host returns no answer:
    the identifier [dns_resolution_failed] goes out with status 400, not
    502. *)
Lemma resolve_route_dns_failure_run :
  let reply := snd (Routes.serve (Routes.apiResolve services)
                      (resolve_request "https://example.com/")
                      (start silent_dns_world empty_db [])) in
  reply_payload reply = Some (PError "dns_resolution_failed")
  /\ reply_status reply = 400
  /\ reply_status reply <> 502.
Proof. vm_compute. repeat split; discriminate. Qed.

(** The two routes in the same world: 502 for the mirrored request, 400
    for the resolve request. *)
Lemma dns_failure_statuses_run :
  (let reply := snd (Routes.serve (Routes.mirrorTail services) (mirror_request "GET")
                       (start silent_dns_world registered_db [])) in
   reply_payload reply = Some (PError "dns_resolution_failed") /\ reply_status reply = 502)
  /\ (let reply := snd (Routes.serve (Routes.apiResolve services)
                          (resolve_request "https://example.com/")
                          (start silent_dns_world empty_db [])) in
      reply_payload reply = Some (PError "dns_resolution_failed")
      /\ reply_status reply = 400).
Proof.
  destruct (dns_resolution_failed_status services (mirror_request "GET") fresh_reply
              (start silent_dns_world registered_db [])) as [Hmirror _].
  destruct (dns_resolution_failed_status services (resolve_request "https://example.com/")
              fresh_reply (start silent_dns_world empty_db [])) as [_ Hresolve].
  split; intros reply.
  - assert (Hp : reply_payload reply = Some (PError "dns_resolution_failed"))
      by (vm_compute; reflexivity).
    split; [exact Hp|].
    apply (Hmirror (fst (Routes.serve (Routes.mirrorTail services) (mirror_request "GET")
                           (start silent_dns_world registered_db [])))).
    + vm_compute. reflexivity.
    + exact Hp.
  - assert (Hp : reply_payload reply = Some (PError "dns_resolution_failed"))
      by (vm_compute; reflexivity).
    split; [exact Hp|].
    apply (Hresolve (fst (Routes.serve (Routes.apiResolve services)
                            (resolve_request "https://example.com/")
                            (start silent_dns_world empty_db [])))).
    + vm_compute. reflexivity.
    + exact Hp.
Defined.

(** A page with the in-origin link [/x], base URL and target origin both
    [https://example.com/]: the first pass gives [/m/example-com/x], the
    second [/m/example-com/m/example-com/x], on the document as on its
    text. *)
Lemma rewrite_twice_differs_run :
  URL_origin example_root = URL_origin example_root
  /\ RewriteHtml.rewriteDom example_root example_root "example-com" linked_page
     = linked_page_once
  /\ RewriteHtml.rewriteDom example_root example_root "example-com" linked_page_once
     <> linked_page_once
  /\ (let once := RewriteHtml.rewriteHtmlDocument (html_text linked_page) example_root
                    example_root "example-com" in
      RewriteHtml.rewriteHtmlDocument once example_root example_root "example-com" <> once).
Proof.
  split; [reflexivity|]. split; [vm_compute; reflexivity|].
  split; vm_compute; discriminate.
Qed.

(** A GET for a page whose upstream response carries hop-by-hop headers, a
    cookie, a policy and the encoding of the original body. *)
Lemma proxied_page_run :
  let out := Proxy.proxyUpstream services (mirror_request "GET") fresh_reply "GET"
               "example-com" "key" example_root example_root
               (start page_world registered_db []) in
  exists r,
    snd out = Ok r
    /\ reply_headers r !! "set-cookie" = None
    /\ reply_headers r !! "connection" = None
    /\ reply_headers r !! "content-security-policy" = None
    /\ reply_headers r !! "x-robots-tag" = Some "noindex, nofollow"
    /\ reply_headers r !! "cache-control" = Some "max-age=60".
Proof.
  intros out.
  set (r := match snd out with Ok r => r | Throw _ => fresh_reply end).
  assert (Hrun : out = (fst out, Ok r)) by (vm_compute; reflexivity).
  destruct (proxied_reply_headers services (mirror_request "GET") fresh_reply "GET"
              "example-com" "key" example_root example_root
              (start page_world registered_db []) (fst out) r)
    as (Hdropped & Hrobots & _).
  - intros k Hk. cbn in Hk.
    repeat match goal with
      | Hor : _ \/ _ |- _ => destruct Hor as [<- | Hor]
      | Hf : False |- _ => destruct Hf
      end; vm_compute; reflexivity.
  - vm_compute. reflexivity.
  - exact Hrun.
  - exists r. split; [rewrite Hrun at 1; reflexivity|].
    split; [apply Hdropped; cbn; tauto|].
    split; [apply Hdropped; cbn; tauto|].
    split; [apply Hdropped; cbn; tauto|].
    split; [exact Hrobots|]. vm_compute. reflexivity.
Defined.

(** A page whose references all point elsewhere. *)
Lemma foreign_page_untouched : no_in_origin_reference example_root example_root "example-com"
                                 foreign_page.
Proof.
  unfold no_in_origin_reference, foreign_page.
  repeat first [ apply List.Forall_nil | apply List.Forall_cons
               | apply all_elems_Elem; split | exact I ];
    intros attr current Hin Hget; vm_compute in Hin;
    repeat match goal with
      | Hor : _ \/ _ |- _ => destruct Hor as [<- | Hor]
      | Hf : False |- _ => destruct Hf
      end;
    vm_compute in Hget; try discriminate; injection Hget as <-;
    unfold attr_untouched;
    first [ change (String.eqb "srcset" "srcset") with true; cbn iota;
            match goal with
            | |- Forall _ (srcset_parts ?v) =>
                let l := eval vm_compute in (srcset_parts v) in
                change (srcset_parts v) with l
            end;
            repeat (apply List.Forall_cons; [vm_compute; reflexivity|]);
            apply List.Forall_nil
          | vm_compute; reflexivity ].
Defined.

(** On that page, whose text the parser reads back, the second pass returns
    the output of the first. *)
Lemma rewrite_foreign_page_twice_run :
  let html := html_text foreign_page in
  cheerio_load html = foreign_page
  /\ RewriteHtml.rewriteDom example_root example_root "example-com" foreign_page
     = foreign_page_once
  /\ RewriteHtml.rewriteDom example_root example_root "example-com" foreign_page_once
     = foreign_page_once
  /\ RewriteHtml.rewriteHtmlDocument
       (RewriteHtml.rewriteHtmlDocument html example_root example_root "example-com")
       example_root example_root "example-com"
     = RewriteHtml.rewriteHtmlDocument html example_root example_root "example-com".
Proof.
  intros html.
  assert (Hload : cheerio_load html = foreign_page) by (vm_compute; reflexivity).
  assert (Honce : RewriteHtml.rewriteDom example_root example_root "example-com" foreign_page
                  = foreign_page_once) by (vm_compute; reflexivity).
  destruct (rewrite_twice_without_in_origin_reference example_root example_root
              "example-com" html) as [Hdom Htext].
  - rewrite Hload. exact foreign_page_untouched.
  - rewrite Hload, Honce in Hdom.
    split; [exact Hload|]. split; [exact Honce|]. split; [exact Hdom|].
    apply Htext. rewrite Hload, Honce. vm_compute. reflexivity.
Defined.

(** A lookup, then a second one after the entry has expired. *)
Lemma cache_get_run :
  let entry := mkMeta "k" "example-com" 1000 "text/plain" 200 [] "example-com_k.bin" 5 in
  let d := [("example-com_k.bin", Bytes "hello"); ("example-com_k.json", MetaJson entry)] in
  snd (FileCache.get (cache services) "example-com" "k" (start public_world empty_db d))
  = Ok (Some (mkCached 200 [] "hello" "text/plain" 1000))
  /\ (let late := mkScript 9000000 0 [] [] in
      let out := FileCache.get (cache services) "example-com" "k" (start late empty_db d) in
      snd out = Ok None /\ sys_cache (fst out) = []).
Proof.
  intros entry d. split.
  - pose proof (cache_get_outcomes (cache services) "example-com" "k"
                  (start public_world empty_db d)) as Hget.
    cbn zeta in Hget.
    change (FileCache.fs_read (FileCache.metaName "example-com" "k")
              (sys_cache (start public_world empty_db d)))
      with (Some (MetaJson entry)) in Hget.
    change (FileCache.expired (cache services)
              (snd (date_now (sys_world (start public_world empty_db d))))
              (meta_cachedAt entry)) with false in Hget.
    change (FileCache.fs_read (meta_bodyFile entry)
              (sys_cache (start public_world empty_db d)))
      with (Some (Bytes "hello")) in Hget.
    exact (proj1 Hget).
  - vm_compute. auto.
Defined.

(** A [set] into a cache of 8 bytes that holds two entries of 3 bytes: the
    older one is evicted. *)
Lemma cache_set_run :
  let small := FileCache.mk 7200 8 in
  let old1 := mkMeta "a" "s" 10 "text/plain" 200 [] "s_a.bin" 3 in
  let old2 := mkMeta "b" "s" 20 "text/plain" 200 [] "s_b.bin" 3 in
  let d := [("s_a.bin", Bytes "aaa"); ("s_a.json", MetaJson old1);
            ("s_b.bin", Bytes "bbb"); ("s_b.json", MetaJson old2)] in
  let out := FileCache.set small "s" "c" (mkCached 200 [] "ccc" "text/plain" 0)
               (start public_world empty_db d) in
  map fst (sys_cache (fst out)) = ["s_b.bin"; "s_b.json"; "s_c.bin"; "s_c.json"]
  /\ liveBytes small 1001 (sys_cache (fst out)) <= 8.
Proof.
  intros small old1 old2 d out. split; [vm_compute; reflexivity|].
  apply (set_keeps_cache_within_maxBytes small "s" "c" (mkCached 200 [] "ccc" "text/plain" 0)
           (start public_world empty_db d)).
  - discriminate.
  - split.
    + repeat constructor; cbn; intuition discriminate.
    + intros n m Hin. cbn in Hin.
      repeat match goal with
        | Hor : _ \/ _ |- _ => destruct Hor as [Heq | Hor]
        | Hf : False |- _ => destruct Hf
        | Heq : (_, _) = (_, _) |- _ => injection Heq as <- <- || discriminate Heq
        end; discriminate.
  - discriminate.
Defined.

End Runs.

(* ===================================================================== *)
(** * Further properties of the code *)
(* ===================================================================== *)

(** ** Allowlist store *)

Section AllowlistMatch.
Import Js AllowlistStore.

Lemma match_loop_find (host scheme : string) (es : list AllowlistEntry) :
  match_loop host scheme es = List.find (entry_admits host scheme) es.
Proof.
  induction es as [|entry rest IH]; cbn [match_loop List.find]; [reflexivity|].
  unfold entry_admits.
  destruct (enabled entry); cbn [negb andb]; [|exact IH].
  destruct (existsb (String.eqb scheme) (schemes entry)); cbn [negb andb]; [|exact IH].
  destruct (String.eqb (entry_host entry) host); cbn [orb]; [reflexivity|].
  destruct (allowSubdomains entry && endsWith host ("." ++ entry_host entry));
    [reflexivity | exact IH].
Qed.

Lemma existsb_eqb_In (x : string) (l : list string) :
  existsb (String.eqb x) l = true <-> In x l.
Proof.
  rewrite existsb_exists. split.
  - intros (y & Hy & Heq). apply String.eqb_eq in Heq. subst. exact Hy.
  - intros Hx. exists x. split; [exact Hx | apply String.eqb_refl].
Qed.

(** X1 -- what [match] returns: an entry of the list that is enabled, lists
    the scheme of the URL, and whose host is the normalised hostname of the
    URL or, with [allowSubdomains], a suffix of it that starts at a dot; and
    it returns [null] exactly when no entry of the list passes that test. *)
Theorem match_returns_admitting_entry :
  forall (state : AllowlistFile) (url : URL),
    let host := normalizeHost (hostname url) in
    let scheme := removeFirst ":" (protocol url) in
    (forall entry,
        match_ state url = Some entry ->
        In entry (entries state)
        /\ enabled entry = true
        /\ In scheme (schemes entry)
        /\ (entry_host entry = host
            \/ allowSubdomains entry = true
               /\ exists sub, host = sub ++ "." ++ entry_host entry))
    /\ (match_ state url = None <->
        forall entry, In entry (entries state) -> entry_admits host scheme entry = false).
Proof.
  intros state url host scheme. unfold match_. fold host scheme.
  rewrite match_loop_find. split.
  - intros entry Hfind. apply find_some in Hfind. destruct Hfind as [Hin Hadm].
    unfold entry_admits in Hadm.
    apply andb_true_iff in Hadm. destruct Hadm as [Hadm Hhost].
    apply andb_true_iff in Hadm. destruct Hadm as [Hen Hsch].
    split; [exact Hin|]. split; [exact Hen|].
    split; [apply existsb_eqb_In; exact Hsch|].
    apply orb_true_iff in Hhost. destruct Hhost as [Heq | Hsub].
    + left. apply String.eqb_eq. exact Heq.
    + right. apply andb_true_iff in Hsub. destruct Hsub as [Hallow Hends].
      split; [exact Hallow|]. apply endsWith_inv in Hends. exact Hends.
  - split.
    + intros Hnone entry Hin. exact (find_none _ _ Hnone entry Hin).
    + intros Hall. destruct (List.find (entry_admits host scheme) (entries state)) eqn:E;
        [|reflexivity].
      apply find_some in E. destruct E as [Hin Hadm].
      rewrite (Hall _ Hin) in Hadm. discriminate.
Qed.

Lemma is_ws_lower (c : ascii) : is_ws (lower_char c) = is_ws c.
Proof. destruct c as [[] [] [] [] [] [] [] []]; reflexivity. Qed.

Lemma dropStart_lower (s : string) :
  dropStart is_ws (toLowerCase s) = toLowerCase (dropStart is_ws s).
Proof.
  induction s as [|c s IH]; cbn [toLowerCase dropStart]; [reflexivity|].
  rewrite is_ws_lower. destruct (is_ws c); [exact IH | reflexivity].
Qed.

Lemma dropEnd_lower (s : string) :
  dropEnd is_ws (toLowerCase s) = toLowerCase (dropEnd is_ws s).
Proof.
  induction s as [|c s IH]; cbn [toLowerCase dropEnd]; [reflexivity|].
  rewrite IH, is_ws_lower.
  destruct (dropEnd is_ws s); cbn [toLowerCase]; [destruct (is_ws c)|]; reflexivity.
Qed.

Lemma trim_lower (s : string) : trim (toLowerCase s) = toLowerCase (trim s).
Proof. unfold trim. rewrite dropStart_lower, dropEnd_lower. reflexivity. Qed.

Lemma lower_not_upper (c : ascii) : is_upper (lower_char c) = false.
Proof. destruct c as [[] [] [] [] [] [] [] []]; reflexivity. Qed.

Lemma toLowerCase_not_upper (s : string) : all_chars not_upper (toLowerCase s) = true.
Proof.
  induction s as [|c s IH]; cbn [toLowerCase all_chars]; [reflexivity|].
  unfold not_upper at 1. rewrite lower_not_upper, IH. reflexivity.
Qed.

Lemma dropEnd_last p (s : string) :
  forall pre c, dropEnd p s = pre ++ String c "" -> p c = false.
Proof.
  induction s as [|a s IH]; cbn [dropEnd]; intros pre c Heq.
  - destruct pre; discriminate.
  - destruct (dropEnd p s) as [|d t] eqn:E.
    + destruct (p a) eqn:Ea.
      * destruct pre; discriminate.
      * destruct pre as [|b pre]; cbn in Heq.
        -- injection Heq as <-. exact Ea.
        -- injection Heq as _ Heq. destruct pre; discriminate.
    + destruct pre as [|b pre]; cbn in Heq; [discriminate|].
      injection Heq as _ Heq. apply (IH pre c). exact Heq.
Qed.

Lemma startsWith_char (c d : ascii) (t : string) :
  startsWith (String c t) (String d "") = Ascii.eqb c d.
Proof.
  unfold startsWith. simpl String.prefix.
  destruct (Ascii.ascii_dec d c) as [E|E]; destruct (Ascii.eqb_spec c d);
    try reflexivity; try congruence; destruct t; reflexivity.
Qed.

(** X2 -- the host that [normalizeHost] returns has no upper-case letter,
    does not start with a dot and does not end with one. *)
Theorem normalizeHost_shape :
  forall host : string,
    all_chars not_upper (normalizeHost host) = true
    /\ startsWith (normalizeHost host) "." = false
    /\ endsWith (normalizeHost host) "." = false.
Proof.
  intros host. unfold normalizeHost.
  set (t := dropStart is_dot (toLowerCase (trim host))).
  assert (Ht : match t with EmptyString => True | String c _ => is_dot c = false end)
    by apply dropStart_head.
  split; [|split].
  - apply all_chars_dropEnd, all_chars_dropStart, toLowerCase_not_upper.
  - destruct t as [|c t']; [reflexivity|].
    destruct (dropEnd_head is_dot c t' Ht) as [u ->].
    rewrite startsWith_char. exact Ht.
  - destruct (endsWith (dropEnd is_dot t) ".") eqn:E; [|reflexivity].
    apply endsWith_inv in E. destruct E as [pre Hpre].
    apply dropEnd_last in Hpre. discriminate.
Qed.

(** X3 -- [match] does not see the case of the hostname: two hostnames that
    are equal up to the case of ASCII letters get the same answer. *)
Theorem match_ignores_host_case :
  forall (state : AllowlistFile) (url : URL) (h1 h2 : string),
    toLowerCase h1 = toLowerCase h2 ->
    match_ state (with_hostname url h1) = match_ state (with_hostname url h2).
Proof.
  intros state url h1 h2 Hcase. unfold match_, with_hostname, normalizeHost.
  cbn [hostname protocol]. rewrite <- !trim_lower, Hcase. reflexivity.
Qed.

End AllowlistMatch.

Section AllowlistAdmin.
Import Js AllowlistStore.

Lemma findIndex_none {A} (p : A -> bool) (l : list A) :
  findIndex p l = None -> List.find p l = None.
Proof.
  induction l as [|x l IH]; cbn [findIndex List.find]; [reflexivity|].
  destruct (p x); [discriminate|].
  destruct (findIndex p l); [discriminate | auto].
Qed.

Lemma findIndex_some {A} (p : A -> bool) (l : list A) (i : nat) :
  findIndex p l = Some i -> List.find p l <> None /\ (i < length l)%nat.
Proof.
  revert i. induction l as [|x l IH]; cbn [findIndex List.find length]; [discriminate|].
  intros i. destruct (p x).
  - intros [= <-]. split; [discriminate | lia].
  - destruct (findIndex p l) as [j|]; [|discriminate].
    intros [= <-]. destruct (IH j eq_refl). split; [assumption | lia].
Qed.

Lemma find_insert_at_index {A} (p : A -> bool) (l : list A) (i : nat) (n : A) :
  findIndex p l = Some i -> p n = true -> List.find p (<[i := n]> l) = Some n.
Proof.
  revert i. induction l as [|x l IH]; cbn [findIndex]; [discriminate|].
  intros i Hi Hn. destruct (p x) eqn:Ex.
  - injection Hi as <-. cbn. rewrite Hn. reflexivity.
  - destruct (findIndex p l) as [j|]; [|discriminate]. injection Hi as <-.
    cbn. rewrite Ex. apply IH; auto.
Qed.

Lemma find_insert_other {A} (p q : A -> bool) (l : list A) (i : nat) (n : A) :
  findIndex p l = Some i ->
  (forall x, p x = true -> q x = false) ->
  q n = false ->
  List.find q (<[i := n]> l) = List.find q l.
Proof.
  revert i. induction l as [|x l IH]; cbn [findIndex]; [discriminate|].
  intros i Hi Hpq Hn. destruct (p x) eqn:Ex.
  - injection Hi as <-. cbn. rewrite Hn, (Hpq x Ex). reflexivity.
  - destruct (findIndex p l) as [j|]; [|discriminate]. injection Hi as <-.
    cbn. destruct (q x); [reflexivity|]. apply IH; auto.
Qed.

Lemma find_app_other {A} (q : A -> bool) (l : list A) (n : A) :
  q n = false -> List.find q (l ++ [n]) = List.find q l.
Proof.
  intros Hn. induction l as [|x l IH]; cbn; [rewrite Hn; reflexivity|].
  destruct (q x); [reflexivity | exact IH].
Qed.

Lemma stored_schemes_eq (entry : AllowlistEntry) :
  (if (length (schemes entry) =? 0)%nat then ["https"] else schemes entry)
  = stored_schemes entry.
Proof. unfold stored_schemes. destruct (schemes entry); reflexivity. Qed.

Lemma eqb_ne (a b : string) : a <> b -> String.eqb a b = false.
Proof. intros Hne. destruct (String.eqb_spec a b); [contradiction | reflexivity]. Qed.

Lemma upsert_item (st : Store) (entry : AllowlistEntry) :
  snd (upsert st entry)
  = mkEntry (entry_id entry) (normalizeHost (entry_host entry))
      (allowSubdomains entry) (stored_schemes entry) (enabled entry) (label entry).
Proof. unfold upsert. cbn [snd]. rewrite stored_schemes_eq. reflexivity. Qed.

Lemma upsert_lookup_self (st : Store) (entry : AllowlistEntry) :
  getById (st_state (fst (upsert st entry))) (entry_id entry) = Some (snd (upsert st entry)).
Proof.
  unfold upsert, save, getById. cbn [fst snd st_state entries entry_id].
  set (item := mkEntry _ _ _ _ _ _).
  set (p := fun item0 : AllowlistEntry => String.eqb (entry_id item0) (entry_id entry)).
  assert (Hp : p item = true) by apply String.eqb_refl.
  destruct (findIndex p (entries (st_state st))) as [i|] eqn:Ei.
  - apply find_insert_at_index; assumption.
  - rewrite (find_app_none _ _ _ (findIndex_none _ _ Ei)), Hp. reflexivity.
Qed.

Lemma upsert_lookup_other (st : Store) (entry : AllowlistEntry) (id : string) :
  id <> entry_id entry ->
  getById (st_state (fst (upsert st entry))) id = getById (st_state st) id.
Proof.
  intros Hid. unfold upsert, save, getById. cbn [fst snd st_state entries entry_id].
  set (item := mkEntry _ _ _ _ _ _).
  set (p := fun item0 : AllowlistEntry => String.eqb (entry_id item0) (entry_id entry)).
  destruct (findIndex p (entries (st_state st))) as [i|] eqn:Ei.
  - apply (find_insert_other p); [exact Ei | |].
    + intros x Hx. apply String.eqb_eq in Hx. rewrite Hx. apply eqb_ne. congruence.
    + apply eqb_ne. cbn. congruence.
  - apply find_app_other. apply eqb_ne. cbn. congruence.
Qed.

Lemma upsert_length (st : Store) (entry : AllowlistEntry) :
  length (entries (st_state (fst (upsert st entry))))
  = match getById (st_state st) (entry_id entry) with
    | Some _ => length (entries (st_state st))
    | None => S (length (entries (st_state st)))
    end.
Proof.
  unfold upsert, save, getById. cbn [fst snd st_state entries entry_id].
  set (item := mkEntry _ _ _ _ _ _).
  set (p := fun item0 : AllowlistEntry => String.eqb (entry_id item0) (entry_id entry)).
  destruct (findIndex p (entries (st_state st))) as [i|] eqn:Ei.
  - destruct (findIndex_some _ _ _ Ei) as [Hfound _]. rewrite length_insert.
    destruct (List.find p (entries (st_state st))); [reflexivity | contradiction].
  - rewrite (findIndex_none _ _ Ei), length_app. cbn. lia.
Qed.

Lemma upsert_saved (st : Store) (entry : AllowlistEntry) :
  st_saved (fst (upsert st entry)) = st_state (fst (upsert st entry)).
Proof. reflexivity. Qed.

(** X4 -- [upsert] stores the entry with its host normalised and with
    [https] for an empty scheme list; [getById] on the id of the entry then
    returns exactly what [upsert] returned, every other id reads as before,
    the list grows by one only when the id was new, and the file holds the
    new state. *)
Theorem upsert_then_getById :
  forall (st : Store) (entry : AllowlistEntry),
    let st' := fst (upsert st entry) in
    let item := snd (upsert st entry) in
    item = mkEntry (entry_id entry) (normalizeHost (entry_host entry))
             (allowSubdomains entry) (stored_schemes entry) (enabled entry) (label entry)
    /\ getById (st_state st') (entry_id entry) = Some item
    /\ (forall id, id <> entry_id entry ->
          getById (st_state st') id = getById (st_state st) id)
    /\ length (entries (st_state st'))
       = match getById (st_state st) (entry_id entry) with
         | Some _ => length (entries (st_state st))
         | None => S (length (entries (st_state st)))
         end
    /\ st_saved st' = st_state st'.
Proof.
  intros st entry st' item. unfold st', item.
  split; [apply upsert_item|].
  split; [apply upsert_lookup_self|].
  split; [intros id Hid; apply upsert_lookup_other; exact Hid|].
  split; [apply upsert_length | apply upsert_saved].
Qed.

(** X5 -- [patch] on an id that is not in the list returns [null] and
    changes nothing; on an id that is there it replaces that entry in place:
    the id stays; [enabled], [allowSubdomains] and [label] are those of the
    patch where it gives them and those of the current entry otherwise; the
    host is the normalised host of the patch, or that of the current entry
    when the patch gives none or an empty one; the schemes are those of the
    patch, or those of the current entry (as [upsert] stores them) when the
    patch gives none or an empty list; the number of entries stays and every
    other id reads as before. *)
Theorem patch_updates_in_place :
  forall (st : Store) (id : string) (p : EntryPatch),
    let st' := fst (patch st id p) in
    (getById (st_state st) id = None -> patch st id p = (st, None))
    /\ (forall current,
          getById (st_state st) id = Some current ->
          exists item,
            snd (patch st id p) = Some item
            /\ getById (st_state st') id = Some item
            /\ entry_id item = id
            /\ enabled item = default (enabled current) (patch_enabled p)
            /\ allowSubdomains item
               = default (allowSubdomains current) (patch_allowSubdomains p)
            /\ (forall h, patch_host p = Some h -> h <> "" ->
                  entry_host item = normalizeHost (normalizeHost h))
            /\ (patch_host p = None \/ patch_host p = Some "" ->
                  entry_host item = normalizeHost (entry_host current))
            /\ (forall l, patch_schemes p = Some l -> l <> [] -> schemes item = l)
            /\ (patch_schemes p = None \/ patch_schemes p = Some [] ->
                  schemes item = stored_schemes current)
            /\ label item
               = match patch_label p with
                 | Some l => Some l
                 | None => label current
                 end
            /\ length (entries (st_state st')) = length (entries (st_state st))
            /\ (forall id', id' <> id ->
                  getById (st_state st') id' = getById (st_state st) id')).
Proof.
  intros st id p. cbn zeta. unfold patch. split.
  - intros ->. reflexivity.
  - intros current Hcur. rewrite Hcur.
    assert (Hid : entry_id current = id).
    { unfold getById in Hcur. apply find_some in Hcur. destruct Hcur as [_ Heq].
      apply String.eqb_eq. exact Heq. }
    match goal with
    | |- context [upsert st ?n] => set (next := n)
    end.
    assert (Hnext : entry_id next = id) by exact Hid.
    destruct (upsert st next) as [st1 item] eqn:Eup.
    pose proof (upsert_item st next) as Hitem.
    pose proof (upsert_lookup_self st next) as Hself.
    pose proof (upsert_length st next) as Hlen.
    pose proof (upsert_lookup_other st next) as Hother.
    rewrite Eup in Hitem, Hself, Hlen, Hother. cbn [fst snd] in *.
    rewrite Hnext in Hself, Hlen, Hother. rewrite Hcur in Hlen.
    exists item. split; [reflexivity|]. split; [exact Hself|].
    rewrite Hitem. cbn [entry_id enabled allowSubdomains entry_host schemes label].
    split; [exact Hnext|]. split; [reflexivity|]. split; [reflexivity|].
    split; [|split; [|split; [|split; [|split; [reflexivity|split; [exact Hlen | exact Hother]]]]]].
    + intros h Hh Hne. unfold next. cbn [entry_host]. rewrite Hh, (truthy_true h Hne).
      reflexivity.
    + intros [Hh | Hh]; unfold next; cbn [entry_host]; rewrite Hh; reflexivity.
    + intros l Hl Hne. unfold stored_schemes, next. cbn [schemes]. rewrite Hl.
      destruct l as [|x l]; [contradiction | reflexivity].
    + intros [Hl | Hl]; unfold stored_schemes, next; cbn [schemes]; rewrite Hl; reflexivity.
Qed.

Lemma find_filter_self {A} (p : A -> bool) (l : list A) :
  List.find p (List.filter (fun x => negb (p x)) l) = None.
Proof.
  induction l as [|x l IH]; cbn; [reflexivity|].
  destruct (p x) eqn:Ex; cbn; [exact IH | rewrite Ex; exact IH].
Qed.

Lemma find_filter_other {A} (p q : A -> bool) (l : list A) :
  (forall x, q x = true -> p x = false) ->
  List.find q (List.filter (fun x => negb (p x)) l) = List.find q l.
Proof.
  intros Hqp. induction l as [|x l IH]; cbn; [reflexivity|].
  destruct (q x) eqn:Eq.
  - rewrite (Hqp x Eq). cbn. rewrite Eq. reflexivity.
  - destruct (p x); cbn; [exact IH | rewrite Eq; exact IH].
Qed.

Lemma filter_keeps_all {A} (p : A -> bool) (l : list A) :
  length (List.filter (fun x => negb (p x)) l) = length l <-> List.find p l = None.
Proof.
  induction l as [|x l IH]; cbn; [tauto|].
  pose proof (List.filter_length_le (fun x => negb (p x)) l) as Hle.
  destruct (p x); cbn.
  - split; [lia | discriminate].
  - rewrite <- IH. lia.
Qed.

Lemma filter_same_length {A} (f : A -> bool) (l : list A) :
  length (List.filter f l) = length l -> List.filter f l = l.
Proof.
  induction l as [|x l IH]; cbn; [reflexivity|].
  pose proof (List.filter_length_le f l) as Hle.
  destruct (f x); cbn; [|lia].
  intros Hlen. f_equal. apply IH. lia.
Qed.

(** X6 -- after [remove(id)] no entry has the id; the call returns [true]
    exactly when there was one; every other id reads as before; and a file
    that held the state before the call holds it after the call (it is
    written when something was removed, and nothing changed otherwise). *)
Theorem remove_then_getById :
  forall (st : Store) (id : string),
    let st' := fst (remove st id) in
    getById (st_state st') id = None
    /\ (snd (remove st id) = true <-> getById (st_state st) id <> None)
    /\ (forall id', id' <> id -> getById (st_state st') id' = getById (st_state st) id')
    /\ (st_saved st = st_state st -> st_saved st' = st_state st').
Proof.
  intros st id. cbn zeta. unfold remove, getById.
  set (p := fun entry : AllowlistEntry => String.eqb (entry_id entry) id).
  set (es' := List.filter _ _).
  assert (Hself : List.find p es' = None) by apply find_filter_self.
  assert (Hother : forall id', id' <> id ->
            List.find (fun entry => String.eqb (entry_id entry) id') es'
            = List.find (fun entry => String.eqb (entry_id entry) id') (entries (st_state st))).
  { intros id' Hid. apply (find_filter_other p). intros x Hx.
    apply String.eqb_eq in Hx. unfold p. rewrite Hx. apply eqb_ne. exact Hid. }
  pose proof (filter_keeps_all p (entries (st_state st))) as Hkeep. fold es' in Hkeep.
  destruct (Nat.eqb_spec (length es') (length (entries (st_state st)))) as [Hlen|Hlen];
    cbn [negb fst snd st_state st_saved save entries].
  - split; [exact Hself|]. split; [|split; [exact Hother|]].
    + split; [discriminate|]. intros Hsome. apply Hkeep in Hlen. contradiction.
    + intros Hsaved. rewrite Hsaved. unfold es'. rewrite (filter_same_length _ _ Hlen).
      destruct (st_state st); reflexivity.
  - split; [exact Hself|]. split; [|split; [exact Hother | reflexivity]].
    split; [|reflexivity]. intros _ Hnone. apply Hkeep in Hnone. contradiction.
Qed.

Lemma upsert_stored (st : Store) (entry : AllowlistEntry) :
  In (snd (upsert st entry)) (entries (st_state (fst (upsert st entry)))).
Proof.
  pose proof (upsert_lookup_self st entry) as Hfind.
  unfold getById in Hfind. apply find_some in Hfind. tauto.
Qed.

(** X7 -- once an enabled entry has been stored by [upsert], every URL whose
    scheme is among the stored schemes and whose normalised hostname is the
    normalised host of the entry (or, with [allowSubdomains], ends with a dot
    followed by it) is allowed. *)
Theorem upsert_allows_host :
  forall (st : Store) (entry : AllowlistEntry) (url : URL),
    enabled entry = true ->
    In (removeFirst ":" (protocol url)) (stored_schemes entry) ->
    (normalizeHost (hostname url) = normalizeHost (entry_host entry)
     \/ allowSubdomains entry = true
        /\ exists sub, normalizeHost (hostname url)
                       = sub ++ "." ++ normalizeHost (entry_host entry)) ->
    isAllowed (st_state (fst (upsert st entry))) url = true.
Proof.
  intros st entry url Hen Hscheme Hhost.
  pose proof (upsert_item st entry) as Hitem.
  pose proof (upsert_stored st entry) as Hin.
  unfold isAllowed, match_. rewrite match_loop_find.
  set (host := normalizeHost (hostname url)) in *.
  set (scheme := removeFirst ":" (protocol url)) in *.
  destruct (List.find (entry_admits host scheme) _) eqn:E; [reflexivity|].
  pose proof (find_none _ _ E _ Hin) as Hadm. rewrite Hitem in Hadm.
  unfold entry_admits in Hadm.
  cbn [enabled schemes entry_host allowSubdomains] in Hadm.
  rewrite Hen in Hadm. apply existsb_eqb_In in Hscheme. rewrite Hscheme in Hadm.
  cbn [andb] in Hadm. destruct Hhost as [Heq | [Hallow [sub Hsub]]].
  - rewrite Heq, String.eqb_refl in Hadm. discriminate.
  - rewrite Hallow, Hsub, endsWith_app, orb_true_r in Hadm. discriminate.
Qed.

End AllowlistAdmin.

(** ** SSRF guard *)

(** Proves a disjunction of linear facts by proving one of its members. *)
Ltac disjunct_by_lia :=
  lazymatch goal with
  | |- _ \/ _ => first [left; disjunct_by_lia | right; disjunct_by_lia]
  | |- _ => lia
  end.

Section GuardMore.
Import Js SsrfGuard SpecRanges.

Lemma ranges_exact (v : Z) :
  0 <= v < 2 ^ 32 ->
  existsb (fun '(start, end_) => (start <=? v) && (v <=? end_)) IPV4_PRIVATE_RANGES = true ->
  existsb (fun '(base, len) => in_cidr base len v) blocked_blocks
    || (ipv4_value 224 0 0 0 <=? v) = true.
Proof.
  intros Hv.
  let r := eval vm_compute in IPV4_PRIVATE_RANGES in change IPV4_PRIVATE_RANGES with r.
  let r := eval vm_compute in blocked_blocks in change blocked_blocks with r.
  let r := eval vm_compute in (ipv4_value 224 0 0 0) in change (ipv4_value 224 0 0 0) with r.
  change (2 ^ 32) with 4294967296 in Hv.
  unfold in_cidr. cbn [existsb].
  rewrite !orb_true_iff, !andb_true_iff, !Z.eqb_eq, !Z.leb_le.
  intros Hrange.
  repeat match goal with
    | |- context [Z.shiftr ?x ?k] =>
        let k' := eval vm_compute in k in
        let p := eval vm_compute in (2 ^ k') in
        replace (Z.shiftr x k) with (x / p)
          by (symmetry; apply (Z.shiftr_div_pow2 x k'); lia)
    end.
  repeat match goal with
    | |- context [?a / ?b] =>
        lazymatch a with
        | v => fail
        | _ => let q := eval vm_compute in (a / b) in change (a / b) with q
        end
    end.
  Z.div_mod_to_equations.
  repeat match goal with
    | Hor : _ \/ _ |- _ => destruct Hor as [Hor | Hor]
    end; try discriminate; disjunct_by_lia.
Qed.

Context `{Platform}.

Lemma assertSafeIp_blocked (a b c d : nat) :
  (a < 256)%nat -> (b < 256)%nat -> (c < 256)%nat -> (d < 256)%nat ->
  blocked_ipv4 a b c d = true ->
  assertSafeIp (dotted a b c d) = Throw "ssrf_blocked".
Proof.
  intros Ha Hb Hc Hd Hblocked. unfold assertSafeIp, net_isIP.
  rewrite dotted_isIPv4 by assumption. cbn [Z.eqb Pos.eqb andb].
  rewrite isPrivateIpv4_dotted by assumption. reflexivity.
Qed.

(** X8 -- on a dotted-decimal IPv4 literal [assertSafeIp] throws
    [ssrf_blocked] when the address lies in one of the blocked blocks and
    returns normally otherwise: the table of ranges blocks those blocks and
    nothing else. *)
Theorem assertSafeIp_on_ipv4_literal :
  forall a b c d : nat,
    (a < 256)%nat -> (b < 256)%nat -> (c < 256)%nat -> (d < 256)%nat ->
    assertSafeIp (dotted a b c d)
    = if blocked_ipv4 a b c d then Throw "ssrf_blocked" else Ok tt.
Proof.
  intros a b c d Ha Hb Hc Hd.
  destruct (blocked_ipv4 a b c d) eqn:Eblocked.
  - apply assertSafeIp_blocked; assumption.
  - unfold assertSafeIp, net_isIP.
    rewrite dotted_isIPv4 by assumption. cbn [Z.eqb Pos.eqb andb].
    destruct (isPrivateIpv4 (dotted a b c d)) eqn:Eprivate; [|reflexivity].
    unfold isPrivateIpv4 in Eprivate. rewrite ipToInt_dotted in Eprivate by assumption.
    apply ranges_exact in Eprivate; [|unfold ipv4_value; lia].
    unfold blocked_ipv4 in Eblocked. rewrite Eprivate in Eblocked. discriminate.
Qed.

Lemma assertSafeAnswers_ok (answers : list string) :
  assertSafeAnswers answers = Ok tt ->
  Forall (fun address => assertSafeIp address = Ok tt) answers.
Proof.
  induction answers as [|address rest IH]; cbn [assertSafeAnswers]; intros Hok.
  - apply List.Forall_nil.
  - destruct (assertSafeIp address) as [[]|e] eqn:E; [|discriminate].
    apply List.Forall_cons; [exact E | exact (IH Hok)].
Qed.

Context {W : Type} `{World W}.

(** X9 -- when [assertSafeUrl] returns normally, the scheme is [https:], or
    [http:] with [allowHttp]; the URL has no credentials; the hostname
    passed [assertSafeHostname]; the DNS lookup of the hostname gave at
    least one answer; every answer passed [assertSafeIp], so that none of
    them is a dotted-decimal address of a blocked block; and only the state
    of the outside world has changed. *)
Theorem assertSafeUrl_accepts_only_safe :
  forall (url : URL) (allowHttp : bool) (s s' : Sys W),
    assertSafeUrl url allowHttp s = (s', Ok tt) ->
    (protocol url = "https:" \/ protocol url = "http:" /\ allowHttp = true)
    /\ username url = "" /\ password url = ""
    /\ assertSafeHostname (hostname url) = Ok tt
    /\ exists w answers,
         dns_lookup (hostname url) (sys_world s) = (w, Ok answers)
         /\ answers <> []
         /\ Forall (fun address => assertSafeIp address = Ok tt) answers
         /\ (forall a b c d : nat,
               (a < 256)%nat -> (b < 256)%nat -> (c < 256)%nat -> (d < 256)%nat ->
               In (dotted a b c d) answers -> blocked_ipv4 a b c d = false)
         /\ s' = mkSys w (sys_db s) (sys_cache s) (sys_trace s).
Proof.
  intros url allowHttp s s' Hrun. unfold assertSafeUrl in Hrun.
  destruct (existsb (String.eqb (protocol url)) ["https:"; "http:"]) eqn:Escheme;
    cbn [negb] in Hrun; [|discriminate].
  destruct (String.eqb (protocol url) "http:" && negb allowHttp) eqn:Ehttp; [discriminate|].
  destruct (truthy (username url) || truthy (password url)) eqn:Ecred; [discriminate|].
  apply orb_false_iff in Ecred. destruct Ecred as [Euser Epass].
  assert (Hempty : forall x, truthy x = false -> x = "").
  { intros x Hx. unfold truthy in Hx. apply negb_false_iff, String.eqb_eq in Hx. exact Hx. }
  split.
  { cbn [existsb] in Escheme. rewrite orb_false_r in Escheme.
    apply orb_true_iff in Escheme. destruct Escheme as [E|E]; apply String.eqb_eq in E.
    - left. exact E.
    - right. split; [exact E|]. rewrite E in Ehttp. cbn in Ehttp.
      destruct allowHttp; [reflexivity | discriminate]. }
  split; [apply Hempty, Euser|]. split; [apply Hempty, Epass|].
  unfold assertSafeResolvedHost in Hrun.
  bind_cases Hrun; [|discriminate].
  unfold lift in E. injection E as <- Ehost.
  split; [destruct a; exact Ehost|].
  bind_cases Hrun; [|discriminate].
  unfold with_world_result in E.
  destruct (dns_lookup (hostname url) (sys_world s)) as [w r] eqn:Edns.
  injection E as <- ->.
  destruct (length a0 =? 0)%nat eqn:Elen; [discriminate|].
  unfold lift in Hrun. injection Hrun as <- Hanswers.
  pose proof (assertSafeAnswers_ok _ Hanswers) as Hall.
  exists w, a0. split; [reflexivity|].
  split; [intros ->; discriminate|]. split; [exact Hall|]. split; [|reflexivity].
  intros x y z t Hx Hy Hz Ht Hin.
  rewrite List.Forall_forall in Hall. specialize (Hall _ Hin).
  destruct (blocked_ipv4 x y z t) eqn:Eb; [|reflexivity].
  rewrite (assertSafeIp_blocked x y z t Hx Hy Hz Ht Eb) in Hall. discriminate.
Qed.

End GuardMore.

(** ** Strings: slugs, escaping *)

Section SlugFacts.
Import Js.

Lemma slice0_length (n : nat) (s : string) : (String.length (slice0 n s) <= n)%nat.
Proof.
  revert s. induction n as [|n IH]; intros [|c s]; cbn; try lia.
  specialize (IH s). lia.
Qed.

Lemma slice0_all_chars q (n : nat) (s : string) :
  all_chars q s = true -> all_chars q (slice0 n s) = true.
Proof.
  revert s. induction n as [|n IH]; intros [|c s]; cbn; try reflexivity.
  rewrite !andb_true_iff. intros [Hc Hs]. auto.
Qed.

Lemma slice0_short (n : nat) (s : string) :
  (String.length s <= n)%nat -> slice0 n s = s.
Proof.
  revert s. induction n as [|n IH]; intros [|c s]; cbn; try reflexivity; try lia.
  intros Hlen. rewrite IH by lia. reflexivity.
Qed.

Lemma slice0_head (n : nat) (c : ascii) (s : string) :
  match slice0 n (String c s) with
  | EmptyString => True
  | String a _ => a = c
  end.
Proof. destruct n; cbn; auto. Qed.

Lemma replaceEach_all_chars keep r (s : string) :
  keep r = true -> all_chars keep (replaceEach keep r s) = true.
Proof.
  intros Hr. induction s as [|c s IH]; cbn; [reflexivity|].
  rewrite IH, andb_true_r. destruct (keep c) eqn:Ec; assumption.
Qed.

Lemma replaceEach_id keep r (s : string) :
  all_chars keep s = true -> replaceEach keep r s = s.
Proof.
  induction s as [|c s IH]; cbn; [reflexivity|].
  rewrite andb_true_iff. intros [-> Hs]. rewrite IH by exact Hs. reflexivity.
Qed.

Lemma replaceRunsFrom_all_chars keep r inRun (s : string) :
  all_chars (fun c => keep c || Ascii.eqb c r) (replaceRunsFrom keep r inRun s) = true.
Proof.
  revert inRun. induction s as [|c s IH]; intros inRun; cbn [replaceRunsFrom]; [reflexivity|].
  destruct (keep c) eqn:Ec.
  - cbn [all_chars]. rewrite Ec, IH. reflexivity.
  - destruct inRun; [apply IH|].
    cbn [all_chars]. rewrite Ascii.eqb_refl, orb_true_r, IH. reflexivity.
Qed.

Lemma all_chars_no_char q (c : ascii) (rest s : string) :
  all_chars q s = true -> q c = false -> includes s (String c rest) = false.
Proof.
  intros Hs Hc. induction s as [|a s IH]; cbn [includes String.prefix]; [reflexivity|].
  cbn [all_chars] in Hs. apply andb_true_iff in Hs. destruct Hs as [Ha Hs].
  destruct (Ascii.ascii_dec c a) as [->|_]; [congruence|]. exact (IH Hs).
Qed.

Import FileCache.

(** X10 -- [safeSlug] returns a name of 1 to 80 characters among letters,
    digits, [_] and [-]: in particular without [/] and without [.]; the
    empty slug gives [default]; and applying it again changes nothing. *)
Theorem safeSlug_shape :
  forall slug : string,
    safeSlug slug <> ""
    /\ (String.length (safeSlug slug) <= 80)%nat
    /\ all_chars is_slug_char (safeSlug slug) = true
    /\ includes (safeSlug slug) "/" = false
    /\ includes (safeSlug slug) "." = false
    /\ safeSlug "" = "default"
    /\ safeSlug (safeSlug slug) = safeSlug slug.
Proof.
  intros slug.
  assert (Hshape : safeSlug slug <> "" /\ (String.length (safeSlug slug) <= 80)%nat
                   /\ all_chars is_slug_char (safeSlug slug) = true).
  { unfold safeSlug.
    set (t := slice0 80 (replaceEach is_slug_char "_" slug)).
    assert (Hlen : (String.length t <= 80)%nat) by apply slice0_length.
    assert (Hall : all_chars is_slug_char t = true)
      by (apply slice0_all_chars, replaceEach_all_chars; reflexivity).
    destruct (truthy t) eqn:Et.
    - apply truthy_iff in Et. auto.
    - split; [discriminate|]. split; [cbn; lia | reflexivity]. }
  destruct Hshape as (Hne & Hlen & Hall).
  split; [exact Hne|]. split; [exact Hlen|]. split; [exact Hall|].
  split; [apply (all_chars_no_char is_slug_char); [exact Hall | reflexivity]|].
  split; [apply (all_chars_no_char is_slug_char); [exact Hall | reflexivity]|].
  split; [reflexivity|].
  unfold safeSlug at 1. rewrite replaceEach_id by exact Hall.
  rewrite slice0_short by exact Hlen. rewrite (truthy_true _ Hne). reflexivity.
Qed.

Lemma all_chars_app_intro q (s t : string) :
  all_chars q s = true -> all_chars q t = true -> all_chars q (s ++ t) = true.
Proof. intros Hs Ht. rewrite all_chars_app, Hs, Ht. reflexivity. Qed.

Lemma append_inj_l (p s t : string) : p ++ s = p ++ t -> s = t.
Proof. induction p as [|c p IH]; cbn; [auto|]. intros [= Heq]. auto. Qed.

Lemma safeSlug_names (slug : string) :
  all_chars is_slug_char (safeSlug slug) = true /\ safeSlug slug <> "".
Proof.
  unfold safeSlug. set (t := slice0 80 (replaceEach is_slug_char "_" slug)).
  assert (Hall : all_chars is_slug_char t = true)
    by (apply slice0_all_chars, replaceEach_all_chars; reflexivity).
  destruct (truthy t) eqn:Et; [apply truthy_iff in Et; auto|].
  split; [reflexivity | discriminate].
Qed.

Lemma includes_slash_app (s t : string) :
  includes (s ++ t) "/" = includes s "/" || includes t "/".
Proof.
  induction s as [|c s IH]; cbn [String.append].
  - destruct t; reflexivity.
  - cbn [includes String.prefix].
    destruct (Ascii.ascii_dec "/" c); [destruct (s ++ t), s; reflexivity|]. exact IH.
Qed.

(** X11 -- the two files of a cache entry have different names, and when
    the cache key has no [/] neither name has one, whatever the slug: the
    files are entries of the cache directory itself. *)
Theorem cache_file_names_stay_in_directory :
  forall slug cacheKey : string,
    metaName slug cacheKey <> bodyName slug cacheKey
    /\ (includes cacheKey "/" = false ->
        includes (metaName slug cacheKey) "/" = false
        /\ includes (bodyName slug cacheKey) "/" = false).
Proof.
  intros slug cacheKey. split.
  - unfold metaName, bodyName. intros Heq.
    apply append_inj_l in Heq. apply append_inj_l in Heq. apply append_inj_l in Heq.
    discriminate.
  - intros Hkey.
    destruct (safeSlug_names slug) as [Hall _].
    split; unfold metaName, bodyName;
      rewrite !includes_slash_app, Hkey;
      rewrite (all_chars_no_char is_slug_char "/" "" _ Hall eq_refl); reflexivity.
Qed.

End SlugFacts.

Section HostSlug.
Import Js Proxy.

Lemma host_slug_unreserved (c : ascii) : host_slug_char c = true -> uri_unreserved c = true.
Proof. destruct c as [[] [] [] [] [] [] [] []]; cbn; intros E; try reflexivity; discriminate. Qed.

Lemma encodeURIComponent_id (s : string) :
  all_chars uri_unreserved s = true -> encodeURIComponent s = s.
Proof.
  induction s as [|c s IH]; cbn [all_chars encodeURIComponent]; [reflexivity|].
  rewrite andb_true_iff. intros [-> Hs]. rewrite IH by exact Hs. reflexivity.
Qed.

Lemma hex_digit_output (n : nat) : (n < 16)%nat -> uri_output_char (hex_digit n) = true.
Proof.
  intros Hn. do 16 (destruct n as [|n]; [reflexivity|]). lia.
Qed.

(** [encodeURIComponent] produces only unreserved characters and
    [%]: no [/], [?], [#], [&], quote or space comes out of it; and it
    returns a string of unreserved characters as it is. *)
Lemma encodeURIComponent_alphabet :
  forall s : string,
    all_chars uri_output_char (encodeURIComponent s) = true
    /\ includes (encodeURIComponent s) "/" = false
    /\ includes (encodeURIComponent s) "?" = false
    /\ includes (encodeURIComponent s) "#" = false
    /\ (all_chars uri_unreserved s = true -> encodeURIComponent s = s).
Proof.
  intros s.
  assert (Hall : all_chars uri_output_char (encodeURIComponent s) = true).
  { induction s as [|c s IH]; cbn [encodeURIComponent]; [reflexivity|].
    destruct (uri_unreserved c) eqn:Ec; cbn [all_chars].
    - unfold uri_output_char at 1. rewrite Ec, IH. reflexivity.
    - rewrite IH, !hex_digit_output.
      + reflexivity.
      + apply Nat.mod_upper_bound. discriminate.
      + apply Nat.Div0.div_lt_upper_bound.
        pose proof (nat_ascii_bounded c). lia. }
  split; [exact Hall|].
  split; [apply (all_chars_no_char uri_output_char); [exact Hall | reflexivity]|].
  split; [apply (all_chars_no_char uri_output_char); [exact Hall | reflexivity]|].
  split; [apply (all_chars_no_char uri_output_char); [exact Hall | reflexivity]|].
  apply encodeURIComponent_id.
Qed.

Lemma slugified_chars (host : string) :
  all_chars host_slug_char
    (slice0 48 (dropEnd is_dash (dropStart is_dash
       (replaceRuns is_lower_or_digit "-" (toLowerCase host))))) = true.
Proof.
  apply slice0_all_chars, all_chars_dropEnd, all_chars_dropStart.
  eapply all_chars_impl; [|apply replaceRunsFrom_all_chars].
  intros c Hc. exact Hc.
Qed.

Lemma prefix_app (p s : string) : String.prefix p (p ++ s) = true.
Proof.
  induction p as [|c p IH]; cbn [String.append String.prefix]; [destruct s; reflexivity|].
  destruct (Ascii.ascii_dec c c); [exact IH | contradiction].
Qed.

(** X12 -- the slug that [slugifyHost] makes of a hostname has 1 to 48
    characters among [a-z], [0-9] and [-], does not start with [-], and is
    left as it is by [encodeURIComponent], so that the launch path of a
    mirror is [/m/] followed by the slug itself. *)
Theorem slugifyHost_shape :
  forall host : string,
    slugifyHost host <> ""
    /\ (String.length (slugifyHost host) <= 48)%nat
    /\ all_chars host_slug_char (slugifyHost host) = true
    /\ startsWith (slugifyHost host) "-" = false
    /\ encodeURIComponent (slugifyHost host) = slugifyHost host
    /\ (forall url : URL,
          startsWith (buildLaunchUrl (slugifyHost host) url)
            ("/m/" ++ slugifyHost host) = true).
Proof.
  intros host.
  assert (Hchars : all_chars host_slug_char (slugifyHost host) = true).
  { unfold slugifyHost. destruct (truthy _); [apply slugified_chars | reflexivity]. }
  assert (Henc : encodeURIComponent (slugifyHost host) = slugifyHost host).
  { apply encodeURIComponent_id. eapply all_chars_impl; [|exact Hchars].
    apply host_slug_unreserved. }
  split; [|split; [|split; [exact Hchars | split; [|split; [exact Henc|]]]]].
  - unfold slugifyHost. destruct (truthy _) eqn:Et; [apply truthy_iff, Et | discriminate].
  - unfold slugifyHost. destruct (truthy _); [apply slice0_length | cbn; lia].
  - unfold slugifyHost.
    set (t := dropStart is_dash (replaceRuns is_lower_or_digit "-" (toLowerCase host))).
    assert (Ht : match t with EmptyString => True | String c _ => is_dash c = false end)
      by apply dropStart_head.
    destruct (truthy _) eqn:Et; [|reflexivity].
    destruct t as [|c t']; [discriminate|].
    destruct (dropEnd_head is_dash c t' Ht) as [u Hu]. rewrite Hu in *.
    pose proof (slice0_head 48 c u) as Hhead.
    destruct (slice0 48 (String c u)) as [|a r]; [reflexivity|].
    subst a. rewrite startsWith_char. exact Ht.
  - intros url. unfold buildLaunchUrl. rewrite Henc.
    unfold startsWith.
    match goal with
    | |- String.prefix ?p (_ ++ _ ++ ?rest) = true =>
        replace ("/m/" ++ slugifyHost host ++ rest) with (p ++ rest)
          by apply string_app_assoc
    end.
    apply prefix_app.
Qed.

End HostSlug.

Section UniqueSlug.
Import Js Proxy.
Context `{Platform} `{CssRewriter} {W : Type} `{World W}.

Lemma firstFreeSuffix_seq (base : string) (exists_ : string -> bool) (len start : nat) :
  match firstFreeSuffix base exists_ (seq start len) with
  | Some next =>
      exists i, (start <= i < start + len)%nat
                /\ next = base ++ "-" ++ show_nat i
                /\ exists_ next = false
                /\ forall j, (start <= j < i)%nat -> exists_ (base ++ "-" ++ show_nat j) = true
  | None =>
      forall i, (start <= i < start + len)%nat -> exists_ (base ++ "-" ++ show_nat i) = true
  end.
Proof.
  revert start. induction len as [|len IH]; intros start; cbn [seq firstFreeSuffix].
  - intros i Hi. lia.
  - destruct (exists_ (base ++ "-" ++ show_nat start)) eqn:Estart; cbn [negb].
    + specialize (IH (S start)).
      destruct (firstFreeSuffix base exists_ (seq (S start) len)) as [next|].
      * destruct IH as (i & Hi & Hnext & Hfree & Hbefore).
        exists i. split; [lia|]. split; [exact Hnext|]. split; [exact Hfree|].
        intros j Hj. destruct (Nat.eq_dec j start) as [->|Hne]; [exact Estart|].
        apply Hbefore. lia.
      * intros i Hi. destruct (Nat.eq_dec i start) as [->|Hne]; [exact Estart|].
        apply IH. lia.
    + exists start. split; [lia|]. split; [reflexivity|]. split; [exact Estart|].
      intros j Hj. lia.
Qed.

(** X13 -- [ensureUniqueSlug] returns the base slug when it is free;
    otherwise the base with the smallest suffix [-2] .. [-999] that is free;
    and only when all of these are taken the base with random hexadecimal
    digits, the one case in which the slug returned may be taken already. *)
Theorem ensureUniqueSlug_result :
  forall (base : string) (exists_ : string -> bool) (s : Sys W),
    let out := ensureUniqueSlug base exists_ s in
    (exists_ base = false -> out = (s, Ok base))
    /\ (exists_ base = true ->
        (exists i, (2 <= i < 1000)%nat
           /\ out = (s, Ok (base ++ "-" ++ show_nat i))
           /\ exists_ (base ++ "-" ++ show_nat i) = false
           /\ forall j, (2 <= j < i)%nat -> exists_ (base ++ "-" ++ show_nat j) = true)
        \/ ((forall i, (2 <= i < 1000)%nat -> exists_ (base ++ "-" ++ show_nat i) = true)
            /\ snd out = Ok (base ++ "-" ++ snd (random_hex 3 (sys_world s))))).
Proof.
  intros base exists_ s. cbn zeta. unfold ensureUniqueSlug. split.
  - intros ->. reflexivity.
  - intros ->. cbn [negb].
    pose proof (firstFreeSuffix_seq base exists_ 998 2) as Hloop.
    destruct (firstFreeSuffix base exists_ (seq 2 998)) as [next|].
    + left. destruct Hloop as (i & Hi & -> & Hfree & Hbefore).
      exists i. split; [lia|]. split; [reflexivity|]. split; [exact Hfree | exact Hbefore].
    + right. split; [intros i Hi; apply Hloop; lia|].
      unfold mbind, M_bind, bind, with_world.
      destruct (random_hex 3 (sys_world s)) as [w hex]. reflexivity.
Qed.

End UniqueSlug.

Section EscapeHtml.
Import Js Launcher.

Lemma subst_chars_app f (s t : string) :
  subst_chars f (s ++ t) = subst_chars f s ++ subst_chars f t.
Proof.
  induction s as [|c s IH]; cbn [String.append subst_chars]; [reflexivity|].
  rewrite IH, string_app_assoc. reflexivity.
Qed.

Lemma replaceAll_subst (c : ascii) (r s : string) :
  replaceAll c r s = subst_chars (fun a => if Ascii.eqb a c then r else String a "") s.
Proof.
  induction s as [|a s IH]; cbn [replaceAll subst_chars]; [reflexivity|].
  rewrite IH. destruct (Ascii.eqb a c); reflexivity.
Qed.

Lemma subst_chars_compose f g (s : string) :
  subst_chars g (subst_chars f s) = subst_chars (fun a => subst_chars g (f a)) s.
Proof.
  induction s as [|c s IH]; cbn [subst_chars]; [reflexivity|].
  rewrite subst_chars_app, IH. reflexivity.
Qed.

Lemma subst_chars_ext f g (s : string) :
  (forall c, f c = g c) -> subst_chars f s = subst_chars g s.
Proof.
  intros Hfg. induction s as [|c s IH]; cbn [subst_chars]; [reflexivity|].
  rewrite Hfg, IH. reflexivity.
Qed.

Lemma escapeHtml_subst (value : string) :
  escapeHtml value = subst_chars escape_char value.
Proof.
  unfold escapeHtml. rewrite !replaceAll_subst, !subst_chars_compose.
  apply subst_chars_ext. intros c.
  destruct c as [[] [] [] [] [] [] [] []]; reflexivity.
Qed.

Lemma escape_char_plain (c : ascii) :
  all_chars (fun a => negb (html_special a)) (escape_char c) = true.
Proof. destruct c as [[] [] [] [] [] [] [] []]; reflexivity. Qed.

(** X14 -- the five replacements of [escapeHtml] amount to one pass that
    replaces each of [&], [<], [>], the double quote and ['] by its entity
    (an [&] written by a later replacement is not escaped again); the
    result has no [<], [>], double quote or [']; and a string without the
    five characters is returned as it is. *)
Theorem escapeHtml_escapes_once :
  forall value : string,
    escapeHtml value = subst_chars escape_char value
    /\ all_chars (fun a => negb (html_special a)) (escapeHtml value) = true
    /\ (all_chars (fun a => negb (html_special a) && negb (Ascii.eqb a "&")) value = true ->
        escapeHtml value = value).
Proof.
  intros value. rewrite escapeHtml_subst. split; [reflexivity|]. split.
  - induction value as [|c value IH]; cbn [subst_chars]; [reflexivity|].
    rewrite all_chars_app, escape_char_plain, IH. reflexivity.
  - induction value as [|c value IH]; cbn [subst_chars all_chars]; [reflexivity|].
    rewrite andb_true_iff. intros [Hc Hrest]. rewrite (IH Hrest).
    revert Hc. destruct c as [[] [] [] [] [] [] [] []]; cbn; intros Hc;
      try reflexivity; discriminate.
Qed.

End EscapeHtml.

(** ** File cache: purge, and a round trip *)

Section CachePurge.
Import Js FileCache.
Context `{Platform} {W : Type} `{World W}.

Lemma fs_read_filter (p : string -> bool) (n : string) (d : Dir) :
  fs_read n (List.filter (fun '(k, _) => p k) d) = if p n then fs_read n d else None.
Proof.
  unfold fs_read. induction d as [|[k f] d IH]; cbn [List.filter List.find].
  - destruct (p n); reflexivity.
  - destruct (p k) eqn:Ek; cbn [List.find].
    + destruct (String.eqb_spec k n) as [->|Hkn]; [rewrite Ek; reflexivity | exact IH].
    + destruct (String.eqb_spec k n) as [->|Hkn]; [rewrite Ek in IH |- *; exact IH | exact IH].
Qed.

Lemma filter_split_length {A} (p : A -> bool) (l : list A) :
  (length (List.filter (fun x => negb (p x)) l) + length (List.filter p l))%nat = length l.
Proof.
  induction l as [|x l IH]; cbn; [reflexivity|].
  destruct (p x); cbn; lia.
Qed.

Lemma metaName_prefix (slug cacheKey : string) :
  startsWith (metaName slug cacheKey) (safeSlug slug ++ "_") = true.
Proof.
  unfold startsWith, metaName.
  replace (safeSlug slug ++ "_" ++ cacheKey ++ ".json")
    with ((safeSlug slug ++ "_") ++ cacheKey ++ ".json") by apply string_app_assoc.
  apply prefix_app.
Qed.

Lemma get_absent (c : FileCache.t) (slug cacheKey : string) (s : Sys W) :
  fs_read (metaName slug cacheKey) (sys_cache s) = None ->
  get c slug cacheKey s = (s, Ok None).
Proof.
  intros Hread. unfold get, mbind, M_bind, bind, get_cache, fs_exists.
  rewrite Hread. reflexivity.
Qed.

(** X15 -- [purgeBySlug] removes the files whose name starts with the safe
    slug followed by [_], and no other file; it returns how many it
    removed; and afterwards [get] misses for every key of the slug.
    [purgeAll] returns the number of files and leaves no file, so that every
    [get] misses. *)
Theorem purge_then_get_misses :
  forall (c : FileCache.t) (slug : string) (s : Sys W),
    let d := sys_cache s in
    let byslug := purgeBySlug slug s in
    let all := purgeAll s in
    (forall n, fs_read n (sys_cache (fst byslug))
               = if startsWith n (safeSlug slug ++ "_") then None else fs_read n d)
    /\ (exists removed,
          snd byslug = Ok removed
          /\ (length (sys_cache (fst byslug)) + removed)%nat = length d)
    /\ (forall cacheKey, snd (get c slug cacheKey (fst byslug)) = Ok None)
    /\ snd all = Ok (length d)
    /\ sys_cache (fst all) = []
    /\ (forall slug' cacheKey, snd (get c slug' cacheKey (fst all)) = Ok None).
Proof.
  intros c slug s. cbn zeta.
  unfold purgeBySlug, purgeAll, mbind, M_bind, bind, get_cache, put_cache.
  cbn [fst snd sys_cache sys_world sys_db sys_trace].
  set (pre := safeSlug slug ++ "_").
  assert (Hread : forall n,
            fs_read n (List.filter (fun '(n0, _) => negb (startsWith n0 pre)) (sys_cache s))
            = if startsWith n pre then None else fs_read n (sys_cache s)).
  { intros n. rewrite (fs_read_filter (fun k => negb (startsWith k pre))).
    destruct (startsWith n pre); reflexivity. }
  split; [exact Hread|]. split; [|split; [|split; [reflexivity | split; [reflexivity|]]]].
  - eexists. split; [reflexivity|].
    rewrite <- (filter_split_length (fun x : string * File => startsWith (fst x) pre)
                  (sys_cache s)).
    f_equal; f_equal; apply List.filter_ext; intros [k f]; reflexivity.
  - intros cacheKey. rewrite get_absent; [reflexivity|].
    cbn [sys_cache]. rewrite Hread. unfold pre. rewrite metaName_prefix. reflexivity.
  - intros slug' cacheKey. rewrite get_absent; reflexivity.
Qed.

End CachePurge.

Section CacheRoundTrip.
Import Js FileCache.
Context `{Platform} {W : Type} `{World W}.

Lemma string_length_app (s t : string) :
  String.length (s ++ t) = (String.length s + String.length t)%nat.
Proof. induction s as [|c s IH]; cbn; [reflexivity | rewrite IH; reflexivity]. Qed.

Lemma endsWith_bin_json (x : string) : endsWith (x ++ ".bin") ".json" = false.
Proof.
  induction x as [|c x IH]; [reflexivity|].
  rewrite endsWith_unfold. cbn [String.append]. rewrite IH.
  destruct (String.eqb_spec (String c (x ++ ".bin")) ".json") as [E|_]; [|reflexivity].
  exfalso. pose proof (f_equal String.length E) as Hlen.
  cbn [String.length] in Hlen. rewrite string_length_app in Hlen. cbn in Hlen.
  destruct x; [discriminate | cbn in Hlen; lia].
Qed.

Lemma bodyName_not_json (slug cacheKey : string) :
  endsWith (bodyName slug cacheKey) ".json" = false.
Proof.
  unfold bodyName.
  replace (safeSlug slug ++ "_" ++ cacheKey ++ ".bin")
    with ((safeSlug slug ++ "_" ++ cacheKey) ++ ".bin")
    by (rewrite !string_app_assoc; reflexivity).
  apply endsWith_bin_json.
Qed.

Lemma metaName_json (slug cacheKey : string) :
  endsWith (metaName slug cacheKey) ".json" = true.
Proof.
  unfold metaName.
  replace (safeSlug slug ++ "_" ++ cacheKey ++ ".json")
    with ((safeSlug slug ++ "_" ++ cacheKey) ++ ".json")
    by (rewrite !string_app_assoc; reflexivity).
  apply endsWith_app.
Qed.

Lemma fs_write_new (name : string) (f : File) (d : Dir) :
  ~ In name (fs_readdir d) -> fs_write name f d = (d ++ [(name, f)])%list.
Proof.
  unfold fs_readdir. induction d as [|[k g] d IH]; cbn; [reflexivity|].
  intros Hnot. destruct (String.eqb_spec k name) as [->|Hne]; [tauto|].
  rewrite IH by tauto. reflexivity.
Qed.

Lemma prune_scan_skip (c : FileCache.t) (l1 l2 : list string) (metas : list PruneItem)
    (s : Sys W) :
  (forall n, In n l1 -> endsWith n ".json" = false) ->
  prune_scan c (l1 ++ l2) metas s = prune_scan c l2 metas s.
Proof.
  induction l1 as [|n l1 IH]; intros Hl1; [reflexivity|].
  cbn [app prune_scan]. rewrite (Hl1 n) by (left; reflexivity). cbn [negb].
  apply IH. intros m Hm. apply Hl1. right. exact Hm.
Qed.

(** X16 -- a response stored by [set] in a cache directory that holds no
    metadata file is what [get] returns for the same slug and key: status,
    headers, content type and body are those of the response, and [cachedAt]
    is the time [set] read; provided the body is at most half of
    [maxBytes] and the entry has not expired when [prune] examines it, nor
    when [get] reads it. *)
Theorem set_then_get :
  forall (c : FileCache.t) (slug cacheKey : string) (response : CachedResponse) (s : Sys W),
    let t1 := date_now (sys_world s) in
    let t2 := date_now (fst t1) in
    let t3 := date_now (fst t2) in
    2 * Z.of_nat (String.length (cr_body response)) <= maxBytes c ->
    (forall n, In n (fs_readdir (sys_cache s)) -> endsWith n ".json" = false) ->
    expired c (snd t2) (snd t1) = false ->
    expired c (snd t3) (snd t1) = false ->
    snd (get c slug cacheKey (fst (set c slug cacheKey response s)))
    = Ok (Some (mkCached (cr_status response) (cr_headers response) (cr_body response)
                  (cr_contentType response) (snd t1))).
Proof.
  intros c slug cacheKey response s t1 t2 t3 Hsize Hnojson. subst t1 t2 t3.
  destruct (date_now (sys_world s)) as [w1 now1] eqn:E1. cbn [fst snd].
  destruct (date_now w1) as [w2 now2] eqn:E2. cbn [fst snd].
  destruct (date_now w2) as [w3 now3] eqn:E3. cbn [fst snd].
  intros Hlive2 Hlive3.
  set (metaFile := metaName slug cacheKey).
  set (bodyFile := bodyName slug cacheKey).
  set (size := Z.of_nat (String.length (cr_body response))) in *.
  set (d1 := fs_write bodyFile (Bytes (cr_body response)) (sys_cache s)).
  set (meta := mkMeta cacheKey slug now1 (cr_contentType response) (cr_status response)
                 (cr_headers response) bodyFile size).
  set (d2 := fs_write metaFile (MetaJson meta) d1).
  assert (Hd1 : forall n, In n (fs_readdir d1) -> endsWith n ".json" = false).
  { intros n Hn. apply fs_write_names_In in Hn. destruct Hn as [-> | Hn].
    - apply bodyName_not_json.
    - apply Hnojson. exact Hn. }
  assert (Hd2 : d2 = (d1 ++ [(metaFile, MetaJson meta)])%list).
  { apply fs_write_new. intros Hin. apply Hd1 in Hin.
    unfold metaFile in Hin. rewrite metaName_json in Hin. discriminate. }
  assert (Hnames : fs_readdir d2 = (fs_readdir d1 ++ [metaFile])%list).
  { rewrite Hd2. unfold fs_readdir. rewrite map_app. reflexivity. }
  assert (Hne : String.eqb bodyFile metaFile = false).
  { destruct (String.eqb_spec bodyFile metaFile) as [E|_]; [|reflexivity].
    pose proof (bodyName_not_json slug cacheKey) as Hb. fold bodyFile in Hb.
    rewrite E in Hb. unfold metaFile in Hb. rewrite metaName_json in Hb. discriminate. }
  assert (Hmeta : fs_read metaFile d2 = Some (MetaJson meta)).
  { unfold d2. rewrite fs_read_write, String.eqb_refl. reflexivity. }
  assert (Hbody : fs_read bodyFile d2 = Some (Bytes (cr_body response))).
  { unfold d2, d1. rewrite fs_read_write, Hne, fs_read_write, String.eqb_refl. reflexivity. }
  assert (Hscan : prune_scan c (fs_readdir d2) []
                    (mkSys w1 (sys_db s) d2 (sys_trace s))
                  = (mkSys w2 (sys_db s) d2 (sys_trace s),
                     Ok [mkItem metaFile bodyFile now1 size])).
  { rewrite Hnames, prune_scan_skip by exact Hd1.
    cbn [prune_scan]. unfold metaFile at 1. rewrite metaName_json. cbn [negb].
    unfold mbind, M_bind, bind, get_cache, with_world.
    cbn [sys_world sys_db sys_cache sys_trace].
    rewrite Hmeta. cbn [meta_bodyFile meta]. unfold fs_exists. rewrite Hbody. cbn [negb].
    cbn [sys_world sys_db sys_cache sys_trace].
    rewrite E2. cbn [meta_cachedAt meta meta_size]. rewrite Hlive2. reflexivity. }
  assert (Hset : set c slug cacheKey response s
                 = (mkSys w2 (sys_db s) d2 (sys_trace s), Ok tt)).
  { unfold set. fold size.
    destruct (Z.ltb_spec (maxBytes c) (2 * size)) as [Hlt|_]; [lia|].
    unfold mbind, M_bind, bind, get_cache, put_cache, with_world.
    cbn [sys_world sys_db sys_cache sys_trace]. rewrite E1.
    cbn [sys_world sys_db sys_cache sys_trace].
    unfold prune, mbind, M_bind, bind, get_cache.
    cbn [sys_world sys_db sys_cache sys_trace].
    change (fs_write (metaName slug cacheKey)
              (MetaJson (mkMeta cacheKey slug now1 (cr_contentType response)
                           (cr_status response) (cr_headers response)
                           (bodyName slug cacheKey) size))
              (fs_write (bodyName slug cacheKey) (Bytes (cr_body response)) (sys_cache s)))
      with d2.
    rewrite Hscan. cbn [total_size fold_left item_size].
    destruct (Z.leb_spec (0 + size) (maxBytes c)) as [_|Hgt]; [reflexivity|].
    unfold size in *. lia. }
  rewrite Hset. cbn [fst].
  unfold get, mbind, M_bind, bind, get_cache, with_world, fs_exists.
  cbn [sys_world sys_db sys_cache sys_trace]. fold metaFile. rewrite Hmeta. cbn [negb].
  cbn [sys_world sys_db sys_cache sys_trace].
  rewrite E3. cbn [meta_cachedAt meta meta_bodyFile]. rewrite Hlive3, Hbody. reflexivity.
Qed.

End CacheRoundTrip.

(** ** Mirror registry *)

Section RegistryFacts.
Import Js MirrorDb.
Context {W : Type} `{World W}.

Lemma touchRow_same slug lp now (r : MirrorRecord) : same_mirror r (touchRow slug lp now r).
Proof. unfold touchRow, same_mirror. destruct (String.eqb (mr_slug r) slug); cbn; auto. Qed.

Lemma Forall2_map_r {A B} (P : A -> B -> Prop) (f : A -> B) (l : list A) :
  (forall x, P x (f x)) -> List.Forall2 P l (map f l).
Proof. intros Hf. induction l; cbn; constructor; auto. Qed.

(** X17 -- [touchMirror] changes nothing but [updatedAt] and [lastPath] of
    the rows with the given slug: the rows stay in place with their id,
    slug, target origin, creation time and [disabled] flag; rows with
    another slug are untouched; a [null] path keeps the path recorded
    before; the event log and the cache are untouched; and it is not an
    error when no row has the slug. *)
Theorem touchMirror_keeps_identity :
  forall (slug : string) (lastPath : option string) (s : Sys W),
    let out := touchMirror slug lastPath s in
    let rows := mirrors (sys_db s) in
    let rows' := mirrors (sys_db (fst out)) in
    snd out = Ok tt
    /\ events (sys_db (fst out)) = events (sys_db s)
    /\ sys_cache (fst out) = sys_cache s
    /\ List.Forall2 same_mirror rows rows'
    /\ List.Forall2
         (fun r r' =>
            if String.eqb (mr_slug r) slug
            then mr_lastPath r' = match lastPath with
                                  | Some p => Some p
                                  | None => mr_lastPath r
                                  end
            else r' = r)
         rows rows'
    /\ (findMirrorBySlug (sys_db s) slug = None -> rows' = rows).
Proof.
  intros slug lastPath s. cbn zeta.
  destruct (touchMirror_run slug lastPath s) as (w & now & ->).
  cbn [fst snd sys_db sys_cache mirrors events].
  split; [reflexivity|]. split; [reflexivity|]. split; [reflexivity|].
  split; [apply Forall2_map_r; intros r; apply touchRow_same|].
  split.
  - apply Forall2_map_r. intros r. unfold touchRow.
    destruct (String.eqb (mr_slug r) slug); reflexivity.
  - unfold findMirrorBySlug. intros Hnone.
    rewrite <- (map_id (mirrors (sys_db s))) at 2. apply map_ext_in.
    intros r Hr. unfold touchRow.
    rewrite (find_none _ _ Hnone r Hr). reflexivity.
Qed.

Lemma find_slug_none_notin (db : Db) (slug : string) :
  findMirrorBySlug db slug = None -> ~ In slug (map mr_slug (mirrors db)).
Proof.
  unfold findMirrorBySlug. intros Hnone Hin. apply in_map_iff in Hin.
  destruct Hin as (r & Hslug & Hr). pose proof (find_none _ _ Hnone r Hr) as Hneq.
  cbn in Hneq. rewrite Hslug, String.eqb_refl in Hneq. discriminate.
Qed.

Lemma find_origin_none_notin (db : Db) (origin : string) :
  findMirrorByOrigin db origin = None ->
  ~ In origin (map mr_targetOrigin
                 (List.filter (fun r => negb (mr_disabled r)) (mirrors db))).
Proof.
  unfold findMirrorByOrigin. intros Hnone Hin. apply in_map_iff in Hin.
  destruct Hin as (r & Horigin & Hr). apply List.filter_In in Hr. destruct Hr as [Hr Hen].
  pose proof (find_none _ _ Hnone r Hr) as Hneq. cbn in Hneq.
  rewrite Horigin, String.eqb_refl, Hen in Hneq. discriminate.
Qed.

Lemma NoDup_snoc {A} (l : list A) (x : A) :
  List.NoDup l -> ~ In x l -> List.NoDup (l ++ [x]).
Proof.
  intros Hl Hx. apply List.NoDup_app; [exact Hl | repeat constructor; intros [] |].
  intros y Hy [<- | []]. exact (Hx Hy).
Qed.

(** X18 -- when [createMirror] returns a row, that row is what
    [findMirrorBySlug] now returns for the slug: enabled, with the given
    origin and path and equal creation and update times; the registry has
    one row more; and [findMirrorByOrigin] finds an enabled mirror for the
    origin. When the slug is taken, [createMirror] throws and the registry
    is as before: no second row gets the slug. *)
Theorem createMirror_then_find :
  forall (slug origin : string) (lastPath : option string) (s : Sys W),
    let out := createMirror slug origin lastPath s in
    (findMirrorBySlug (sys_db s) slug <> None ->
     exists e, snd out = Throw e /\ sys_db (fst out) = sys_db s)
    /\ (forall row,
          snd out = Ok row ->
          findMirrorBySlug (sys_db (fst out)) slug = Some row
          /\ mr_slug row = slug /\ mr_targetOrigin row = origin
          /\ mr_disabled row = false /\ mr_lastPath row = lastPath
          /\ mr_createdAt row = mr_updatedAt row
          /\ countMirrors (sys_db (fst out)) = S (countMirrors (sys_db s))
          /\ exists m, findMirrorByOrigin (sys_db (fst out)) origin = Some m
                       /\ mr_disabled m = false).
Proof.
  intros slug origin lastPath s. cbn zeta.
  unfold createMirror, MirrorDb.id, mbind, M_bind, bind, with_world, get_db, put_db, mret,
    M_ret, ret, throw.
  destruct (date_iso (sys_world s)) as [w1 now]. cbn [sys_world sys_db sys_cache sys_trace].
  destruct (random_hex 8 w1) as [w2 hex]. cbn [sys_world sys_db sys_cache sys_trace].
  set (id := "mir" ++ "_" ++ hex).
  destruct (existsb (fun r => String.eqb (mr_id r) id) (mirrors (sys_db s))) eqn:Eid.
  { cbn [fst snd sys_db]. split; [eauto | discriminate]. }
  destruct (existsb (fun r => String.eqb (mr_slug r) slug) (mirrors (sys_db s))) eqn:Eslug.
  { cbn [fst snd sys_db]. split; [eauto | discriminate]. }
  cbn [sys_world sys_db sys_cache sys_trace].
  pose proof (existsb_false_find _ _ Eslug) as Hfree.
  set (row := mkMirror id slug origin now now lastPath false).
  assert (Hfind : findMirrorBySlug (mkDb (mirrors (sys_db s) ++ [row]) (events (sys_db s))) slug
                  = Some row).
  { unfold findMirrorBySlug. cbn [mirrors].
    rewrite (find_app_none _ _ _ Hfree). cbn. rewrite String.eqb_refl. reflexivity. }
  rewrite Hfind. cbn [fst snd sys_db]. split.
  - intros Htaken. unfold findMirrorBySlug in Htaken. rewrite Hfree in Htaken. contradiction.
  - intros row' [= <-]. split; [exact Hfind|]. repeat (split; [reflexivity|]).
    split; [unfold countMirrors; cbn [mirrors]; rewrite length_app; cbn; lia|].
    unfold findMirrorByOrigin. cbn [mirrors].
    destruct (List.find (fun r => String.eqb (mr_targetOrigin r) origin && negb (mr_disabled r))
                (mirrors (sys_db s))) as [m|] eqn:Em.
    + exists m. split; [apply find_app_some; exact Em|].
      apply find_some in Em. destruct Em as [_ Em].
      apply andb_true_iff in Em. destruct Em as [_ Em].
      apply negb_true_iff in Em. exact Em.
    + exists row. rewrite (find_app_none _ _ _ Em). cbn. rewrite String.eqb_refl.
      split; reflexivity.
Qed.

End RegistryFacts.

Section RegistryInvariants.
Import Js MirrorDb Proxy.
Context `{Platform} `{CssRewriter} {W : Type} `{World W}.

Lemma touched_slugs slug lp now (rows : list MirrorRecord) :
  map mr_slug (map (touchRow slug lp now) rows) = map mr_slug rows.
Proof. rewrite map_map. apply map_ext. intros r. apply touchRow_slug. Qed.

Lemma touched_enabled_origins slug lp now (rows : list MirrorRecord) :
  map mr_targetOrigin
    (List.filter (fun r => negb (mr_disabled r)) (map (touchRow slug lp now) rows))
  = map mr_targetOrigin (List.filter (fun r => negb (mr_disabled r)) rows).
Proof.
  induction rows as [|r rows IH]; cbn [map List.filter]; [reflexivity|].
  rewrite touchRow_disabled. destruct (mr_disabled r); cbn [negb map]; [exact IH|].
  rewrite touchRow_origin, IH. reflexivity.
Qed.

Lemma resolveOrCreate_cases (url : URL) (s : Sys W) :
  let origin := protocol url ++ "//" ++ URL_host url in
  let db := sys_db s in
  let db' := sys_db (fst (resolveOrCreateMirrorForUrl url s)) in
  (exists slug lp now, mirrors db' = map (touchRow slug lp now) (mirrors db))
  \/ db' = db
  \/ (exists row,
        mirrors db' = (mirrors db ++ [row])%list
        /\ mr_targetOrigin row = origin /\ mr_disabled row = false
        /\ findMirrorByOrigin db origin = None
        /\ findMirrorBySlug db (mr_slug row) = None).
Proof.
  cbn zeta.
  destruct (findMirrorByOrigin (sys_db s) (protocol url ++ "//" ++ URL_host url))
    as [existing|] eqn:Efind.
  - left. unfold resolveOrCreateMirrorForUrl.
    unfold mbind at 1, M_bind at 1, bind at 1, get_db at 1. rewrite Efind.
    destruct (touchMirror_run (mr_slug existing) (Some (pathname url ++ search url)) s)
      as (w & now & Etouch).
    unfold mbind, M_bind, bind. rewrite Etouch. cbn [fst sys_db mirrors]. eauto.
  - right.
    destruct (resolveOrCreateMirrorForUrl url s) as [s' r] eqn:Erun.
    unfold resolveOrCreateMirrorForUrl in Erun.
    unfold mbind at 1, M_bind at 1, bind at 1, get_db at 1 in Erun.
    rewrite Efind in Erun.
    match type of Erun with
    | (?m ≫= ?k) s = _ => change ((m ≫= k) s) with (bind m k s) in Erun; unfold bind in Erun
    end.
    match type of Erun with
    | context [ensureUniqueSlug ?b ?e s] =>
        destruct (ensureUniqueSlug b e s) as [s1 r1] eqn:Eslug
    end.
    apply ensureUniqueSlug_run in Eslug. destruct Eslug as [(Hdb & _ & _) [slug ->]].
    match type of Erun with
    | (?m ≫= ?k) s1 = _ => change ((m ≫= k) s1) with (bind m k s1) in Erun; unfold bind in Erun
    end.
    destruct (createMirror slug (protocol url ++ "//" ++ URL_host url)
                (Some (pathname url ++ search url)) s1) as [s2 r2] eqn:Ecreate.
    apply createMirror_run in Ecreate.
    destruct Ecreate as (_ & _ & [(e & -> & Hsame) | (row & -> & Hslug & Horigin & Hen & Hfree & Hnew)]).
    + injection Erun as <- _. left. cbn [fst]. congruence.
    + injection Erun as <- _. right. cbn [fst]. exists row.
      rewrite Hnew, Hdb. cbn [mirrors]. rewrite Hslug, <- Hdb. auto.
Qed.

Lemma Forall2_map_r_id (rows : list MirrorRecord) : List.Forall2 same_mirror rows rows.
Proof. induction rows; constructor; [repeat split | assumption]. Qed.

(** X19 -- [resolveOrCreateMirrorForUrl] keeps the registry well formed:
    if no two rows had the same slug before the call, none have after it;
    if no two enabled rows had the same target origin before, none have
    after it; the rows that were there stay, in place, with their id, slug,
    origin, creation time and [disabled] flag; and at most one row is
    added. *)
Theorem resolveOrCreate_keeps_registry_unique :
  forall (url : URL) (s : Sys W),
    let db := sys_db s in
    let db' := sys_db (fst (resolveOrCreateMirrorForUrl url s)) in
    (slugs_unique db -> slugs_unique db')
    /\ (enabled_origins_unique db -> enabled_origins_unique db')
    /\ exists kept added,
         mirrors db' = (kept ++ added)%list
         /\ List.Forall2 same_mirror (mirrors db) kept
         /\ (length added <= 1)%nat.
Proof.
  intros url s. cbn zeta. unfold slugs_unique, enabled_origins_unique.
  destruct (resolveOrCreate_cases url s)
    as [(slug & lp & now & ->) | [-> | (row & -> & Horigin & Hen & Hnone & Hfree)]].
  - rewrite touched_slugs, touched_enabled_origins.
    split; [auto|]. split; [auto|].
    exists (map (touchRow slug lp now) (mirrors (sys_db s))), [].
    rewrite app_nil_r. split; [reflexivity|].
    split; [apply Forall2_map_r; intros r; apply touchRow_same | cbn; lia].
  - split; [auto|]. split; [auto|].
    exists (mirrors (sys_db s)), []. rewrite app_nil_r. split; [reflexivity|].
    split; [|cbn; lia].
    apply Forall2_map_r_id.
  - split; [|split].
    + intros Hslugs. rewrite map_app. apply NoDup_snoc; [exact Hslugs|].
      apply find_slug_none_notin. exact Hfree.
    + intros Horigins. rewrite List.filter_app, map_app. cbn [List.filter].
      rewrite Hen. cbn [negb map]. apply NoDup_snoc; [exact Horigins|].
      rewrite Horigin. apply find_origin_none_notin. exact Hnone.
    + exists (mirrors (sys_db s)), [row]. split; [reflexivity|].
      split; [apply Forall2_map_r_id | cbn; lia].
Qed.

End RegistryInvariants.

(** ** Headers *)

Section HeaderMore.
Import Js Proxy.

(** X20 -- the headers [sanitizeOutgoingHeaders] sends upstream are among
    [user-agent], [accept], [accept-language], [cache-control] and
    [pragma]: a cookie or an authorization header of the client is never
    forwarded; the first three carry the value the client sent, when it sent
    one; and [cache-control] and [pragma] are always [no-cache], whatever the
    client sent. *)
Theorem sanitizeOutgoingHeaders_forwards_only_safe :
  forall request : Request,
    let hs := sanitizeOutgoingHeaders request in
    (forall n v, In (n, v) hs -> In n outgoing_names)
    /\ headers_get "cookie" hs = None
    /\ headers_get "authorization" hs = None
    /\ headers_get "cache-control" hs = Some "no-cache"
    /\ headers_get "pragma" hs = Some "no-cache"
    /\ (forall n, In n ["user-agent"; "accept"; "accept-language"] ->
          headers_get n hs = headers_get n (req_headers request)).
Proof.
  intros request. cbn zeta. unfold sanitizeOutgoingHeaders.
  destruct (headers_get "user-agent" (req_headers request)) as [ua|] eqn:Eua;
    destruct (headers_get "accept" (req_headers request)) as [ac|] eqn:Eac;
    destruct (headers_get "accept-language" (req_headers request)) as [al|] eqn:Eal;
    cbn [app];
    (split; [intros n v Hin; cbn in Hin;
             repeat match goal with
               | Hor : _ \/ _ |- _ => destruct Hor as [Hor | Hor]
               | Heq : (_, _) = (_, _) |- _ => injection Heq as <- <-
               | Hf : False |- _ => destruct Hf
               end; cbn; tauto|]);
    (split; [reflexivity|]); (split; [reflexivity|]);
    (split; [reflexivity|]); (split; [reflexivity|]);
    intros n [<- | [<- | [<- | []]]]; rewrite ?Eua, ?Eac, ?Eal; reflexivity.
Qed.

Lemma not_dropped_copied (rw : bool) (reply : Reply) (key value : string) :
  ~ In (toLowerCase key) always_dropped ->
  (rw = true -> ~ In (toLowerCase key) dropped_when_rewritten) ->
  copyHeader rw reply (key, value) = reply_header key value reply.
Proof.
  intros Hkeep Hrw. unfold copyHeader.
  destruct (existsb (String.eqb (toLowerCase key)) hopByHop) eqn:Ehop.
  { exfalso. apply Hkeep. apply existsb_eqb_In in Ehop.
    unfold always_dropped. change (In (toLowerCase key) (hopByHop ++ ["content-security-policy"; "set-cookie"])%list).
    apply in_or_app. left. exact Ehop. }
  destruct (String.eqb_spec (toLowerCase key) "content-security-policy") as [E|_].
  { exfalso. apply Hkeep. rewrite E. cbn. tauto. }
  destruct (String.eqb_spec (toLowerCase key) "set-cookie") as [E|_].
  { exfalso. apply Hkeep. rewrite E. cbn. tauto. }
  destruct rw; cbn [andb]; [|reflexivity].
  destruct (String.eqb_spec (toLowerCase key) "content-length") as [E|_].
  { exfalso. apply (Hrw eq_refl). rewrite E. cbn. tauto. }
  destruct (String.eqb_spec (toLowerCase key) "content-encoding") as [E|_].
  { exfalso. apply (Hrw eq_refl). rewrite E. cbn. tauto. }
  destruct (String.eqb_spec (toLowerCase key) "etag") as [E|_].
  { exfalso. apply (Hrw eq_refl). rewrite E. cbn. tauto. }
  reflexivity.
Qed.

Lemma copyHeader_other_name (rw : bool) (reply : Reply) (h : string * string) (k : string) :
  toLowerCase (fst h) <> k ->
  reply_headers (copyHeader rw reply h) !! k = reply_headers reply !! k.
Proof.
  intros Hne. destruct h as [key value]. unfold copyHeader. cbn [fst] in Hne.
  repeat match goal with
    | |- context [if ?b then _ else _] => destruct b; [reflexivity|]
    end.
  apply reply_header_lookup_ne. exact Hne.
Qed.

Lemma copy_loop_other_names (rw : bool) (headers : list (string * string)) :
  forall (reply : Reply) (k : string),
    ~ In k (map (fun h => toLowerCase (fst h)) headers) ->
    reply_headers (fold_left (copyHeader rw) headers reply) !! k = reply_headers reply !! k.
Proof.
  induction headers as [|h headers IH]; intros reply k Hk; cbn [fold_left]; [reflexivity|].
  rewrite IH by (intros Hin; apply Hk; right; exact Hin).
  apply copyHeader_other_name. intros E. apply Hk. left. exact E.
Qed.

(** X21 -- [copySafeHeaders] passes every other upstream header on: a
    header whose name is not among the dropped ones and is not
    [x-robots-tag] reaches the reply with the value upstream gave it (names
    as [Headers] yields them: one entry per name), and a header of the reply
    that upstream does not send stays as it was. *)
Theorem copySafeHeaders_passes_other_headers :
  forall (reply : Reply) (headers : list (string * string)) (rw : bool),
    List.NoDup (map (fun h => toLowerCase (fst h)) headers) ->
    (forall key value,
        In (key, value) headers ->
        ~ In (toLowerCase key) always_dropped ->
        (rw = true -> ~ In (toLowerCase key) dropped_when_rewritten) ->
        toLowerCase key <> "x-robots-tag" ->
        reply_headers (copySafeHeaders reply headers rw) !! toLowerCase key = Some value)
    /\ (forall k,
          ~ In k (map (fun h => toLowerCase (fst h)) headers) ->
          k <> "x-robots-tag" ->
          reply_headers (copySafeHeaders reply headers rw) !! k = reply_headers reply !! k).
Proof.
  intros reply headers rw Hnodup. split.
  - intros key value Hin Hkeep Hrw Hrobots. unfold copySafeHeaders.
    rewrite reply_header_lookup_ne by (intros E; apply Hrobots; symmetry; exact E).
    revert reply. induction headers as [|h headers IH]; intros reply; [destruct Hin|].
    cbn [map] in Hnodup. inversion Hnodup as [|? ? Hfirst Hrest]; subst.
    cbn [fold_left]. destruct Hin as [-> | Hin].
    + rewrite copy_loop_other_names by exact Hfirst.
      rewrite not_dropped_copied by assumption. apply reply_header_lookup_eq.
    + apply IH; assumption.
  - intros k Hk Hrobots. unfold copySafeHeaders.
    rewrite reply_header_lookup_ne by (intros E; apply Hrobots; symmetry; exact E).
    apply copy_loop_other_names. exact Hk.
Qed.

End HeaderMore.

(** ** Proxy pipeline *)

Section FetchMore.
Import Js Proxy.
Context `{Platform} `{CssRewriter} {W : Type} `{World W}.


Lemma fetch_frame request upstreamUrl services method (s s' : Sys W) r :
  fetchWithRedirectValidation request upstreamUrl services method s = (s', r) ->
  sys_db s' = sys_db s /\ sys_cache s' = sys_cache s.
Proof.
  unfold fetchWithRedirectValidation. intros Hrun.
  apply redirectLoop_trace in Hrun. tauto.
Qed.

Lemma touchMirror_cache slug lp (s s' : Sys W) r :
  MirrorDb.touchMirror slug lp s = (s', r) -> sys_cache s' = sys_cache s.
Proof.
  destruct (touchMirror_run slug lp s) as (w & now & ->).
  intros [= <- _]. reflexivity.
Qed.

Lemma tail_cache (m : M W unit) slug lp (r4 : Reply) (s s' : Sys W) (res : result Reply) :
  (forall s1 r1, m s = (s1, r1) -> sys_cache s1 = sys_cache s) ->
  (m ;; MirrorDb.touchMirror slug lp ;; mret r4) s = (s', res) ->
  sys_cache s' = sys_cache s.
Proof.
  intros Hm Hrun. bind_cases Hrun.
  - apply Hm in E. bind_cases Hrun.
    + apply touchMirror_cache in E0. injection Hrun as <- _. congruence.
    + apply touchMirror_cache in E0. congruence.
  - apply Hm in E. exact E.
Qed.

(** X23 -- the [try] block of [handleMirrorRequest] writes to the cache only
    for a [GET] whose upstream response has a status from 200 to 299: in
    every other run the cache directory is left as it was. And the reply to
    a [HEAD] has no body. *)
Theorem only_successful_GET_is_cached :
  forall (services : AppServices) (request : Request) (reply : Reply)
         (method slug cacheKey : string) (targetOrigin upstreamUrl : URL)
         (s s' : Sys W) (res : result Reply),
    proxyUpstream services request reply method slug cacheKey targetOrigin upstreamUrl s
    = (s', res) ->
    (sys_cache s' = sys_cache s
     \/ (method = "GET"
         /\ exists s1 response finalUrl,
              fetchWithRedirectValidation request upstreamUrl services method s
              = (s1, Ok (response, finalUrl))
              /\ 200 <= resp_status response < 300))
    /\ (method = "HEAD" -> forall r, res = Ok r -> reply_payload r = Some PEmpty).
Proof.
  intros services request reply method slug cacheKey targetOrigin upstreamUrl s s' res Hrun.
  unfold proxyUpstream in Hrun.
  bind_cases Hrun.
  2:{ apply fetch_frame in E. destruct E as [_ Hcache].
      split; [left; exact Hcache|]. intros _ r Hr. subst res. discriminate. }
  destruct a as [response finalUrl]. pose proof (fetch_frame _ _ _ _ _ _ _ E) as [_ Hcache1].
  cbn zeta in Hrun.
  destruct (String.eqb_spec method "HEAD") as [Hhead|Hhead].
  { injection Hrun as <- <-. split; [left; exact Hcache1|].
    intros _ r [= <-]. reflexivity. }
  split; [|intros Hm; contradiction].
  bind_cases Hrun.
  2:{ unfold SsrfGuard.lift in E0. injection E0 as <- _. left. exact Hcache1. }
  unfold SsrfGuard.lift in E0. injection E0 as <- Hbody.
  match type of Hrun with
  | (if ?b then _ else _) _ = _ => destruct b
  end; [injection Hrun as <- _; left; exact Hcache1|].
  match type of Hrun with
  | (if ?b then _ else _) _ = _ => destruct b
  end; [injection Hrun as <- _; left; exact Hcache1|].
  bind_cases Hrun.
  2:{ left. rewrite <- Hcache1.
      match type of E0 with
      | (if ?b then _ else _) _ = _ => destruct b
      end; [discriminate|].
      match type of E0 with
      | (if ?b then _ else _) _ = _ => destruct b
      end; [|discriminate].
      bind_cases E0; [discriminate|].
      unfold SsrfGuard.lift in E1. injection E1 as <- _. reflexivity. }
  assert (Hs1 : s1 = s0).
  { match type of E0 with
    | (if ?b then _ else _) _ = _ => destruct b
    end; [injection E0 as <- _; reflexivity|].
    match type of E0 with
    | (if ?b then _ else _) _ = _ => destruct b
    end; [|injection E0 as <- _; reflexivity].
    bind_cases E0; [|discriminate].
    unfold SsrfGuard.lift in E1. injection E1 as <- _. injection E0 as <- _. reflexivity. }
  subst s1. destruct a0 as [outputBody rewritten]. cbn zeta in Hrun.
  destruct (String.eqb_spec method "GET") as [Hget|Hget]; cbn [andb] in Hrun.
  - destruct (200 <=? resp_status response) eqn:Elo; cbn [andb] in Hrun.
    + destruct (resp_status response <? 300) eqn:Ehi.
      * right. split; [exact Hget|]. exists s0, response, finalUrl.
        split; [exact E|]. apply Z.leb_le in Elo. apply Z.ltb_lt in Ehi. lia.
      * left. apply tail_cache in Hrun; [congruence|].
        intros s2 r2 [= <- _]. reflexivity.
    + left. apply tail_cache in Hrun; [congruence|].
      intros s2 r2 [= <- _]. reflexivity.
  - left. apply tail_cache in Hrun; [congruence|].
    intros s2 r2 [= <- _]. reflexivity.
Qed.

End FetchMore.

Section PipelineMore.
Import Js Proxy MirrorDb.
Context `{Platform} `{CssRewriter} {W : Type} `{World W}.

(** X24 -- a body larger than the limit of its kind is refused with status
    413: [html_too_large] for an HTML response above [MIRROR_MAX_HTML_BYTES],
    [binary_too_large] for a response that is not text-like above
    [MIRROR_MAX_BINARY_BYTES]; nothing is rewritten, cached or recorded in
    the registry. *)
Theorem oversized_body_refused :
  forall (services : AppServices) (request : Request) (reply : Reply)
         (method slug cacheKey : string) (targetOrigin upstreamUrl : URL)
         (s s1 : Sys W) (response : UpstreamResponse) (finalUrl : URL) (buffer : string),
    fetchWithRedirectValidation request upstreamUrl services method s
    = (s1, Ok (response, finalUrl)) ->
    method <> "HEAD" ->
    resp_body response = Ok buffer ->
    let contentType := content_type_of response in
    let size := Z.of_nat (String.length buffer) in
    let run := proxyUpstream services request reply method slug cacheKey targetOrigin
                 upstreamUrl s in
    (includes contentType "text/html" = true ->
     MIRROR_MAX_HTML_BYTES (config services) < size ->
     run = (s1, Ok (reply_send (PError "html_too_large") (reply_code 413 reply))))
    /\ (text_like contentType = false ->
        MIRROR_MAX_BINARY_BYTES (config services) < size ->
        run = (s1, Ok (reply_send (PError "binary_too_large") (reply_code 413 reply))))
    /\ sys_db s1 = sys_db s /\ sys_cache s1 = sys_cache s.
Proof.
  intros services request reply method slug cacheKey targetOrigin upstreamUrl s s1
    response finalUrl buffer Hfetch Hhead Hbody contentType size run.
  pose proof (fetch_frame _ _ _ _ _ _ _ Hfetch) as [Hdb Hcache].
  assert (Hlift : SsrfGuard.lift (resp_body response) s1 = (s1, Ok buffer))
    by (unfold SsrfGuard.lift; rewrite Hbody; reflexivity).
  assert (Hstart : run
            = if text_like contentType && includes contentType "text/html"
                 && (MIRROR_MAX_HTML_BYTES (config services) <? size)
              then (s1, Ok (reply_send (PError "html_too_large") (reply_code 413 reply)))
              else if negb (text_like contentType)
                      && (MIRROR_MAX_BINARY_BYTES (config services) <? size)
              then (s1, Ok (reply_send (PError "binary_too_large") (reply_code 413 reply)))
              else run).
  { subst run. unfold proxyUpstream. rewrite (bind_ok _ _ _ _ _ Hfetch). cbn zeta.
    destruct (String.eqb_spec method "HEAD") as [E|_]; [contradiction|].
    rewrite (bind_ok _ _ _ _ _ Hlift).
    fold (content_type_of response). fold contentType. fold size.
    fold (text_like contentType).
    destruct (text_like contentType && includes contentType "text/html"
              && (MIRROR_MAX_HTML_BYTES (config services) <? size)); [reflexivity|].
    destruct (negb (text_like contentType)
              && (MIRROR_MAX_BINARY_BYTES (config services) <? size)); reflexivity. }
  split; [|split; [|split; [exact Hdb | exact Hcache]]].
  - intros Hhtml Hsize. rewrite Hstart.
    assert (Htext : text_like contentType = true)
      by (unfold text_like; rewrite Hhtml; reflexivity).
    rewrite Htext, Hhtml. apply Z.ltb_lt in Hsize. rewrite Hsize. reflexivity.
  - intros Htext Hsize. rewrite Hstart, Htext. cbn [andb negb].
    apply Z.ltb_lt in Hsize. rewrite Hsize. reflexivity.
Qed.

End PipelineMore.

Section Serving.
Import Js Proxy MirrorDb.
Context `{Platform} `{CssRewriter} {W : Type} `{World W}.


Lemma logEvent_event level kind slug message meta (s s' : Sys W) (r : result MirrorEvent) :
  logEvent level kind slug message meta s = (s', r) ->
  sys_cache s' = sys_cache s /\ sys_trace s' = sys_trace s
  /\ mirrors (sys_db s') = mirrors (sys_db s)
  /\ ((exists ev,
         r = Ok ev /\ events (sys_db s') = (events (sys_db s) ++ [ev])%list
         /\ ev_level ev = level /\ ev_kind ev = kind /\ ev_slug ev = slug
         /\ ev_message ev = message /\ ev_meta ev = meta)
      \/ (r = Throw "UNIQUE constraint failed: events.id" /\ sys_db s' = sys_db s)).
Proof.
  unfold logEvent, MirrorDb.id, mbind, M_bind, bind, with_world, get_db, put_db, mret, M_ret,
    ret, throw.
  destruct (random_hex 8 (sys_world s)) as [w1 hex]. cbn [sys_world sys_db sys_cache sys_trace].
  destruct (date_iso w1) as [w2 at_]. cbn [sys_world sys_db sys_cache sys_trace].
  destruct (existsb _ (events (sys_db s))); intros [= <- <-];
    cbn [sys_world sys_db sys_cache sys_trace mirrors events].
  - repeat (split; [reflexivity|]). right. split; reflexivity.
  - repeat (split; [reflexivity|]). left. eexists. repeat (split; [reflexivity|]). reflexivity.
Qed.



End Serving.

Section Refusals.
Import Js Proxy MirrorDb.
Context `{Platform} `{CssRewriter} {W : Type} `{World W}.

Lemma disableRow_slug slug b now (r : MirrorRecord) :
  mr_slug (disableRow slug b now r) = mr_slug r.
Proof. unfold disableRow. destruct (String.eqb (mr_slug r) slug); reflexivity. Qed.

Lemma refused (services : AppServices) (request : Request) (reply : Reply) (s : Sys W) :
  match findMirrorBySlug (sys_db s) (req_slug request) with
  | Some mirror => mr_disabled mirror = true
  | None => True
  end ->
  exists code message,
    In (code, message) refusals
    /\ handleMirrorRequest services request reply s
       = (s, Ok (reply_send (PError message) (reply_code code reply))).
Proof.
  intros Hslug. unfold handleMirrorRequest, refusals.
  destruct (negb (existsb _ methodsAllowed)); [do 2 eexists; split; [|reflexivity]; cbn; tauto|].
  destruct (serviceDisabled services); [do 2 eexists; split; [|reflexivity]; cbn; tauto|].
  unfold mbind, M_bind, bind, get_db.
  destruct (findMirrorBySlug (sys_db s) (req_slug request)) as [mirror|].
  - rewrite Hslug. do 2 eexists; split; [|reflexivity]; cbn; tauto.
  - do 2 eexists; split; [|reflexivity]; cbn; tauto.
Qed.

(** X26 -- a mirror that [setMirrorDisabled] has disabled is no longer
    served and no longer found by its origin: every request for its slug is
    refused (with [mirror_not_found], unless the method or the service
    switch refuses it first) without any change of state, hence without a
    cache lookup or a fetch; and [findMirrorByOrigin] never returns the
    row. A slug that is not in the registry is refused in the same way. *)
Theorem disabled_mirror_is_not_served :
  forall (services : AppServices) (request : Request) (reply : Reply) (s : Sys W),
    let s1 := fst (setMirrorDisabled (req_slug request) true s) in
    (exists code message,
        In (code, message) refusals
        /\ handleMirrorRequest services request reply s1
           = (s1, Ok (reply_send (PError message) (reply_code code reply))))
    /\ (forall origin m,
          findMirrorByOrigin (sys_db s1) origin = Some m -> mr_slug m <> req_slug request)
    /\ (findMirrorBySlug (sys_db s) (req_slug request) = None ->
        exists code message,
          In (code, message) refusals
          /\ handleMirrorRequest services request reply s
             = (s, Ok (reply_send (PError message) (reply_code code reply)))).
Proof.
  intros services request reply s.
  set (slug := req_slug request).
  assert (Hs1 : exists w now,
             fst (setMirrorDisabled slug true s)
             = mkSys w (mkDb (map (disableRow slug true now) (mirrors (sys_db s)))
                          (events (sys_db s)))
                 (sys_cache s) (sys_trace s)).
  { unfold setMirrorDisabled, mbind, M_bind, bind, with_world, get_db, put_db.
    destruct (date_iso (sys_world s)) as [w now]. exists w, now. reflexivity. }
  destruct Hs1 as (w & now & Hs1). cbn zeta. rewrite Hs1.
  split; [|split].
  - apply refused. cbn [sys_db]. unfold findMirrorBySlug. cbn [mirrors]. fold slug.
    rewrite (find_map_preserved _ (disableRow slug true now))
      by (intros x; rewrite disableRow_slug; reflexivity).
    destruct (List.find _ (mirrors (sys_db s))) as [m|] eqn:Efind; cbn [option_map]; [|exact I].
    apply find_some in Efind. destruct Efind as [_ Eslug].
    unfold disableRow. rewrite Eslug. reflexivity.
  - intros origin m Hfind Hslug. unfold findMirrorByOrigin in Hfind. cbn [sys_db mirrors] in Hfind.
    apply find_some in Hfind. destruct Hfind as [Hin Hen].
    apply in_map_iff in Hin. destruct Hin as (m0 & <- & _).
    rewrite disableRow_slug in Hslug. unfold disableRow in Hen.
    apply String.eqb_eq in Hslug. rewrite Hslug in Hen. cbn in Hen.
    rewrite andb_false_r in Hen. discriminate.
  - intros Hnone. apply refused. fold slug. rewrite Hnone. exact I.
Qed.

End Refusals.

Section ResolveLog.
Import Js Proxy MirrorDb Routes.
Context `{Platform} `{CssRewriter} {W : Type} `{World W}.

Lemma resolveTargetUrl_events (services : AppServices) (rawUrl : string) (s s' : Sys W)
    (r : result ResolveResult) :
  resolveTargetUrl services rawUrl s = (s', r) ->
  match r with
  | Ok res =>
      exists ev, events (sys_db s') = (events (sys_db s) ++ [ev])%list
                 /\ ev_level ev = info /\ ev_kind ev = resolve
                 /\ ev_slug ev = Some (res_slug res)
  | Throw _ => events (sys_db s') = events (sys_db s)
  end.
Proof.
  unfold resolveTargetUrl. intros Hrun.
  destruct (URL_parse rawUrl) as [parsed|]; [|injection Hrun as <- <-; reflexivity].
  bind_cases Hrun;
    apply assertSafeUrl_stores in E; destruct E as (Hdb & _ & _);
    [|subst r; congruence].
  destruct (negb (AllowlistStore.isAllowed (allowlist services) parsed));
    [injection Hrun as <- <-; congruence|].
  bind_cases Hrun.
  - apply resolveOrCreate_run in E. destruct E as (_ & _ & Hevents & _).
    destruct a0 as [created mirror]. bind_cases Hrun.
    + apply logEvent_event in E.
      destruct E as (_ & _ & _ & [(ev & _ & Hlog & Hlevel & Hkind & Hslug & _) | [[=] _]]).
      injection Hrun as <- <-. cbn [res_slug]. exists ev.
      rewrite Hlog, Hevents, Hdb. auto.
    + apply logEvent_event in E.
      destruct E as (_ & _ & _ & [(ev & [=] & _) | [_ Hsame]]).
      subst r. congruence.
  - apply resolveOrCreate_run in E. destruct E as (_ & _ & Hevents & _).
    subst r. congruence.
Qed.

(** X27 -- every reply of [POST /api/resolve] comes with its record: a
    successful resolution has appended exactly one event, of kind [resolve]
    and with the slug returned; a failed one exactly one event of kind
    [resolve-fail] carrying the error and the URL of the request body, and
    its status is 403 for [domain_not_allowed] and [ssrf_blocked], 429 for
    [rate_limited] and 400 otherwise; and a request refused because the
    service is disabled or the body is invalid changes nothing. *)
Theorem apiResolve_logs_outcome :
  forall (services : AppServices) (request : Request) (reply : Reply)
         (s s' : Sys W) (r : Reply),
    apiResolve services request reply s = (s', Ok r) ->
    match reply_payload r with
    | Some (PResolved res) =>
        reply_status r = reply_status reply
        /\ exists ev, events (sys_db s') = (events (sys_db s) ++ [ev])%list
                      /\ ev_kind ev = resolve /\ ev_slug ev = Some (res_slug res)
    | Some (PError message) =>
        (s' = s
         /\ (reply_status r = 503 /\ message = "service_disabled"
             \/ reply_status r = 400 /\ message = "invalid_url"))
        \/ (reply_status r = resolveErrorStatus message
            /\ exists ev url,
                 parseResolveBody (req_body request) = Some url
                 /\ events (sys_db s') = (events (sys_db s) ++ [ev])%list
                 /\ ev_kind ev = resolve_fail /\ ev_level ev = warn
                 /\ ev_meta ev = [("error", MetaStr message); ("url", MetaStr url)])
    | _ => False
    end.
Proof.
  intros services request reply s s' r Hrun. unfold apiResolve in Hrun.
  destruct (serviceDisabled services).
  { injection Hrun as <- <-. cbn. left. auto. }
  destruct (parseResolveBody (req_body request)) as [url|] eqn:Ebody.
  2:{ injection Hrun as <- <-. cbn. left. auto. }
  unfold try_catch in Hrun.
  match type of Hrun with
  | context [mbind ?k ?m ?st] => destruct (mbind k m st) as [s3 [r3|msg]] eqn:Etry
  end.
  - injection Hrun as <- <-. bind_cases Etry; [|discriminate].
    injection Etry as <- <-. cbn [reply_send reply_payload reply_status].
    split; [reflexivity|].
    apply resolveTargetUrl_events in E. destruct E as (ev & Hev & _ & Hkind & Hslug).
    exists ev. auto.
  - bind_cases Etry; [discriminate|]. injection Etry as <-.
    apply resolveTargetUrl_events in E.
    bind_cases Hrun; [|discriminate].
    apply logEvent_event in E0.
    destruct E0 as (_ & _ & _ & [(ev & _ & Hlog & Hlevel & Hkind & _ & _ & Hmeta) | [[=] _]]).
    injection Hrun as <- <-. cbn [reply_send reply_payload reply_status reply_code].
    right. split; [reflexivity|]. exists ev, url. rewrite Hlog, E. auto.
Qed.

End ResolveLog.

(** ** Rewriters *)

Section RewriterShape.
Import Js RewriteHtml.
Context `{Platform}.

Lemma mirror_path_prefix (slug : string) (url : URL) :
  startsWith (buildMirrorPath slug url) ("/m/" ++ encodeURIComponent slug) = true.
Proof.
  unfold buildMirrorPath, startsWith.
  match goal with
  | |- String.prefix ?p (_ ++ _ ++ ?rest) = true =>
      replace ("/m/" ++ encodeURIComponent slug ++ rest) with (p ++ rest)
        by apply string_app_assoc
  end.
  apply prefix_app.
Qed.

(** X28 -- what the two URL rewriters return is the value they were given,
    or the mirror path [/m/<slug><path><search>] of a URL that the value
    resolves to against the base URL and that has the origin of the target:
    a reference to another origin is never changed, and a rewritten one
    always starts with [/m/] and the encoded slug. A value that starts
    (after trimming) with [#], [data:], [mailto:], [tel:] or [javascript:]
    is returned as it is by the HTML rewriter. *)
Theorem rewritten_url_is_mirror_path :
  forall (raw : string) (baseUrl targetOrigin : URL) (slug : string),
    let html := maybeRewriteUrl raw baseUrl targetOrigin slug in
    let css := RewriteCss.maybeRewriteCssUrl raw baseUrl targetOrigin slug in
    (html = raw
     \/ exists resolved,
          URL_resolve (trim raw) baseUrl = Some resolved
          /\ URL_origin resolved = URL_origin targetOrigin
          /\ html = buildMirrorPath slug resolved
          /\ startsWith html ("/m/" ++ encodeURIComponent slug) = true)
    /\ (css = raw
        \/ exists resolved,
             URL_resolve (RewriteCss.stripQuotes (trim raw)) baseUrl = Some resolved
             /\ URL_origin resolved = URL_origin targetOrigin
             /\ css = buildMirrorPath slug resolved
             /\ startsWith css ("/m/" ++ encodeURIComponent slug) = true)
    /\ (forall p, In p skipped_prefixes -> startsWith (trim raw) p = true -> html = raw).
Proof.
  intros raw baseUrl targetOrigin slug. cbn zeta. split; [|split].
  - unfold maybeRewriteUrl.
    destruct (negb (truthy raw)); [left; reflexivity|].
    destruct (negb (truthy (trim raw))); [left; reflexivity|].
    match goal with
    | |- context [if ?b then raw else _] => destruct b; [left; reflexivity|]
    end.
    destruct (URL_resolve (trim raw) baseUrl) as [resolved|]; [|left; reflexivity].
    destruct (String.eqb_spec (URL_origin resolved) (URL_origin targetOrigin)) as [E|_];
      cbn [negb]; [|left; reflexivity].
    right. exists resolved. split; [reflexivity|]. split; [exact E|].
    split; [reflexivity | apply mirror_path_prefix].
  - unfold RewriteCss.maybeRewriteCssUrl.
    destruct (negb (truthy (RewriteCss.stripQuotes (trim raw)))); [left; reflexivity|].
    match goal with
    | |- context [if ?b then raw else _] => destruct b; [left; reflexivity|]
    end.
    destruct (URL_resolve (RewriteCss.stripQuotes (trim raw)) baseUrl) as [resolved|];
      [|left; reflexivity].
    destruct (String.eqb_spec (URL_origin resolved) (URL_origin targetOrigin)) as [E|_];
      cbn [negb]; [|left; reflexivity].
    right. exists resolved. split; [reflexivity|]. split; [exact E|].
    split; [reflexivity | apply mirror_path_prefix].
  - intros p Hp Hstart. unfold maybeRewriteUrl.
    destruct (negb (truthy raw)); [reflexivity|].
    destruct (negb (truthy (trim raw))); [reflexivity|].
    cbn in Hp.
    repeat match goal with
      | Hor : _ \/ _ |- _ => destruct Hor as [<- | Hor]
      | Hf : False |- _ => destruct Hf
      end; rewrite Hstart, ?orb_true_r; reflexivity.
Qed.

End RewriterShape.

Section RewriterOutput.
Import Js RewriteHtml.
Context `{Platform}.

Lemma has_tag_prepend (t : string) (n : node) :
  t <> "meta" -> has_tag t (prepend_to_head n) = has_tag t n.
Proof.
  intros Ht. induction n as [s | tag attrs children IH] using node_induction;
    cbn [prepend_to_head has_tag]; [reflexivity|].
  f_equal.
  assert (Hmap : existsb (has_tag t) (map prepend_to_head children)
                 = existsb (has_tag t) children).
  { induction IH as [|c l Hc Hl IHl]; cbn [map existsb]; [reflexivity|].
    rewrite Hc, IHl. reflexivity. }
  destruct (String.eqb tag "head"); [|exact Hmap].
  cbn [existsb has_tag robots_meta]. rewrite Hmap.
  destruct (String.eqb_spec "meta" t) as [E|_]; [congruence | reflexivity].
Qed.

Lemma prepend_head_robots (n : node) :
  forall inHead, has_tag "head" n = true -> has_robots inHead (prepend_to_head n) = true.
Proof.
  induction n as [s | tag attrs children IH] using node_induction; intros inHead;
    cbn [has_tag prepend_to_head]; [discriminate|].
  destruct (String.eqb tag "head") eqn:Ehead; cbn [orb].
  - intros _. cbn [has_robots existsb]. rewrite Ehead, orb_true_r. cbn.
    apply orb_true_r.
  - intros Hchild. cbn [has_robots]. rewrite Ehead, orb_false_r.
    apply orb_true_iff. right.
    induction IH as [|c l Hc Hl IHl]; cbn [map existsb] in *; [discriminate|].
    apply orb_true_iff in Hchild. destruct Hchild as [Hhere | Hlater].
    + rewrite (Hc inHead Hhere). reflexivity.
    + rewrite (IHl Hlater). apply orb_true_r.
Qed.

(** X29 -- in the document that [rewriteHtmlDocument] serialises no [base]
    element is left, and whenever it has a [head] element, a [meta]
    element named [robots] stands in a [head]. *)
Theorem rewritten_document_has_robots_and_no_base :
  forall (baseUrl targetOrigin : URL) (slug : string) (doc : list node),
    let out := rewriteDom baseUrl targetOrigin slug doc in
    Forall (no_tag "base") out
    /\ (existsb (has_tag "head") out = true -> existsb (has_robots false) out = true).
Proof.
  intros baseUrl targetOrigin slug doc. cbn zeta. unfold rewriteDom.
  set (doc1 := flat_map (remove_tag "base") doc).
  set (doc2 := rewriteAttrs baseUrl targetOrigin slug doc1).
  assert (Hbase : Forall (no_tag "base") doc2).
  { unfold doc2. rewrite rewriteAttrs_map. apply Forall_map.
    assert (H1 : Forall (no_tag "base") doc1)
      by (apply flat_map_Forall, List.Forall_forall; intros n _; apply remove_tag_gone).
    eapply List.Forall_impl; [|exact H1]. intros n. apply map_elems_no_tag. }
  destruct (existsb (has_robots false) doc2) eqn:Erobots.
  - split; [exact Hbase | intros _; exact Erobots].
  - split.
    + apply Forall_map. eapply List.Forall_impl; [|exact Hbase].
      intros n. apply prepend_no_base.
    + clear Hbase Erobots. induction doc2 as [|n rest IH]; cbn [map existsb]; [discriminate|].
      rewrite has_tag_prepend by discriminate.
      destruct (has_tag "head" n) eqn:Ehead; cbn [orb].
      * intros _. rewrite (prepend_head_robots n false Ehead). reflexivity.
      * intros Hrest. rewrite (IH Hrest). apply orb_true_r.
Qed.

Lemma attr_set_names (name value : string) (attrs : list (string * string)) (v : string) :
  attr_get name attrs = Some v ->
  map fst (attr_set name value attrs) = map fst attrs.
Proof.
  unfold attr_get. induction attrs as [|[n w] attrs IH]; cbn [List.find attr_set map fst];
    [discriminate|].
  destruct (String.eqb n name); [reflexivity|].
  intros Hfind. cbn [map fst]. rewrite (IH Hfind). reflexivity.
Qed.

Lemma rewriteAttr_names baseUrl targetOrigin slug (attrs : list (string * string))
    (attr : string) :
  map fst (rewriteAttr baseUrl targetOrigin slug attrs attr) = map fst attrs.
Proof.
  unfold rewriteAttr. destruct (attr_get attr attrs) as [current|] eqn:Eget; [|reflexivity].
  destruct (negb (truthy current)); [reflexivity|].
  destruct (String.eqb attr "srcset");
    match goal with
    | |- context [if ?b then _ else _] => destruct b; [|reflexivity]
    end; eapply attr_set_names; exact Eget.
Qed.

Lemma rewriteElem_names baseUrl targetOrigin slug (tag : string)
    (attrs : list (string * string)) :
  map fst (rewriteElem baseUrl targetOrigin slug tag attrs) = map fst attrs.
Proof.
  unfold rewriteElem. generalize (names_for tag). intros names. revert attrs.
  induction names as [|a names IH]; intros attrs; cbn [fold_left]; [reflexivity|].
  rewrite IH. apply rewriteAttr_names.
Qed.

Lemma outline_map_elems f (n : node) :
  (forall tag attrs, map fst (f tag attrs) = map fst attrs) ->
  outline (map_elems f n) = outline n.
Proof.
  intros Hf. induction n as [s | tag attrs children IH] using node_induction;
    cbn [map_elems outline]; [reflexivity|].
  f_equal.
  - rewrite <- (map_map fst (fun k : string => (k, ""))), Hf, map_map. reflexivity.
  - rewrite map_map. induction IH as [|c l Hc Hl IHl]; cbn [map]; [reflexivity|].
    rewrite Hc, IHl. reflexivity.
Qed.

(** X30 -- the attribute loop of [rewriteHtmlDocument] changes attribute
    values only: elements, their nesting and order, their tags, the names
    and order of their attributes, and the texts are what they were. *)
Theorem rewriteAttrs_changes_values_only :
  forall (baseUrl targetOrigin : URL) (slug : string) (doc : list node),
    map outline (rewriteAttrs baseUrl targetOrigin slug doc) = map outline doc.
Proof.
  intros baseUrl targetOrigin slug doc. rewrite rewriteAttrs_map, map_map.
  apply map_ext. intros n. apply outline_map_elems.
  intros tag attrs. apply rewriteElem_names.
Qed.

End RewriterOutput.

(** ** Runs of the further properties *)

Section MoreRuns.
Import Model Scenario.

(** The allowlisted host in two spellings. *)
Lemma match_host_case_run :
  Js.toLowerCase "EXAMPLE.com" = Js.toLowerCase "example.COM"
  /\ AllowlistStore.match_ (allowlist services) (with_hostname example_root "EXAMPLE.com")
     = AllowlistStore.match_ (allowlist services) (with_hostname example_root "example.COM")
  /\ AllowlistStore.isAllowed (allowlist services) (with_hostname example_root "EXAMPLE.com")
     = true.
Proof.
  split; [reflexivity|].
  split; [apply match_ignores_host_case; reflexivity | vm_compute; reflexivity].
Defined.

(** An entry stored with an untidy host and no scheme admits a subdomain
    over [https]. *)
Lemma upsert_allows_subdomain_run :
  let st := AllowlistStore.mkStore (mkAllowlist 1 []) (mkAllowlist 1 []) in
  let entry := mkEntry "docs" " Docs.Example.ORG. " true [] true None in
  AllowlistStore.isAllowed (AllowlistStore.st_state (fst (AllowlistStore.upsert st entry)))
    (mkURL "https:" "" "" "api.docs.example.org" "" "/" "" "")
  = true.
Proof.
  intros st entry. apply upsert_allows_host.
  - reflexivity.
  - left. reflexivity.
  - right. split; [reflexivity|]. exists "api". vm_compute. reflexivity.
Defined.

(** A private and a public address. *)
Lemma assertSafeIp_literals_run :
  SsrfGuard.assertSafeIp "10.1.2.3" = Throw "ssrf_blocked"
  /\ SsrfGuard.assertSafeIp "93.184.216.34" = Ok tt.
Proof.
  split.
  - exact (assertSafeIp_on_ipv4_literal 10 1 2 3 ltac:(lia) ltac:(lia) ltac:(lia) ltac:(lia)).
  - exact (assertSafeIp_on_ipv4_literal 93 184 216 34
             ltac:(lia) ltac:(lia) ltac:(lia) ltac:(lia)).
Defined.

(** The guard on a URL whose host resolves to a public address. *)
Lemma guard_accepts_public_run :
  let s := start public_world empty_db [] in
  let out := SsrfGuard.assertSafeUrl example_root false s in
  snd out = Ok tt
  /\ exists w answers,
       dns_lookup (hostname example_root) (sys_world s) = (w, Ok answers)
       /\ answers <> []
       /\ Forall (fun address => SsrfGuard.assertSafeIp address = Ok tt) answers.
Proof.
  intros s out.
  assert (Hrun : out = (fst out, Ok tt)) by (vm_compute; reflexivity).
  destruct (assertSafeUrl_accepts_only_safe _ _ _ _ Hrun)
    as (_ & _ & _ & _ & w & answers & Hdns & Hne & Hall & _).
  split; [vm_compute; reflexivity|]. exists w, answers. auto.
Defined.

(** A response stored next to a file that is no metadata, and read back. *)
Lemma set_then_get_run :
  let c := FileCache.mk 7200 1073741824 in
  let s := start public_world empty_db [("note.txt", Bytes "x")] in
  let response := mkCached 200 [("content-type", "text/html")] "hello" "text/html" 0 in
  snd (FileCache.get c "example-com" "k" (fst (FileCache.set c "example-com" "k" response s)))
  = Ok (Some (mkCached 200 [("content-type", "text/html")] "hello" "text/html" 1000)).
Proof.
  intros c s response.
  rewrite (set_then_get c "example-com" "k" response s).
  - reflexivity.
  - vm_compute. discriminate.
  - intros n [<- | []]. reflexivity.
  - reflexivity.
  - reflexivity.
Defined.

(** An upstream content type reaches the reply. *)
Lemma copied_header_run :
  reply_headers
    (Proxy.copySafeHeaders fresh_reply
       [("Content-Type", "text/html"); ("Set-Cookie", "a=b")] false)
    !! "content-type" = Some "text/html".
Proof.
  destruct (copySafeHeaders_passes_other_headers fresh_reply
              [("Content-Type", "text/html"); ("Set-Cookie", "a=b")] false) as [Hpass _].
  - cbn. repeat constructor; cbn; intros Hin;
      repeat match goal with
        | Hor : _ \/ _ |- _ => destruct Hor as [Hor | Hor]
        | Hf : False |- _ => destruct Hf
        end; discriminate.
  - apply (Hpass "Content-Type" "text/html").
    + left. reflexivity.
    + cbn. intros Hin.
      repeat match goal with
        | Hor : _ \/ _ |- _ => destruct Hor as [Hor | Hor]
        | Hf : False |- _ => destruct Hf
        end; discriminate.
    + discriminate.
    + discriminate.
Defined.


(** A page fetched with [GET] and status 200 is the case in which the cache
    is written. *)
Lemma cached_page_run :
  let s := start page_world registered_db [] in
  let run := Proxy.proxyUpstream services (mirror_request "GET") fresh_reply "GET"
               "example-com" "key" example_root example_root s in
  sys_cache (fst run) <> sys_cache s
  /\ exists s1 response finalUrl,
       Proxy.fetchWithRedirectValidation (mirror_request "GET") example_root services "GET" s
       = (s1, Ok (response, finalUrl))
       /\ 200 <= resp_status response < 300.
Proof.
  intros s run.
  assert (Hchanged : sys_cache (fst run) <> sys_cache s) by (vm_compute; discriminate).
  split; [exact Hchanged|].
  destruct (only_successful_GET_is_cached services (mirror_request "GET") fresh_reply "GET"
              "example-com" "key" example_root example_root s (fst run) (snd run))
    as [[Hsame | [_ Hfetch]] _].
  - apply surjective_pairing.
  - contradiction.
  - exact Hfetch.
Defined.

(** The page of [page_world] against a limit of three bytes. *)
Lemma oversized_page_run :
  let small := mkServices (mkConfig false 12000 3 3) (allowlist services) (cache services)
                 false in
  let s := start page_world registered_db [] in
  let run := Proxy.proxyUpstream small (mirror_request "GET") fresh_reply "GET"
               "example-com" "key" example_root example_root s in
  snd run = Ok (reply_send (PError "html_too_large") (reply_code 413 fresh_reply))
  /\ sys_cache (fst run) = [].
Proof.
  intros small s run.
  set (f := Proxy.fetchWithRedirectValidation (mirror_request "GET") example_root small "GET" s).
  set (response := match snd f with
                   | Ok (r, _) => r
                   | Throw _ => mkResponse 0 [] (Ok "")
                   end).
  assert (Hfetch : f = (fst f, Ok (response, example_root))) by (vm_compute; reflexivity).
  destruct (oversized_body_refused small (mirror_request "GET") fresh_reply "GET"
              "example-com" "key" example_root example_root s (fst f) response example_root
              "hello" Hfetch)
    as (Hhtml & _ & _ & Hcache).
  - discriminate.
  - reflexivity.
  - fold run in Hhtml. rewrite Hhtml.
    + split; [reflexivity | exact Hcache].
    + vm_compute. reflexivity.
    + vm_compute. reflexivity.
Defined.


(** A first resolution of [https://example.com/]: one [resolve] event. *)
Lemma resolve_logged_run :
  let run := Routes.apiResolve services (resolve_request "https://example.com/") fresh_reply
               (start public_world empty_db []) in
  exists r res ev,
    snd run = Ok r
    /\ reply_payload r = Some (PResolved res)
    /\ events (sys_db (fst run)) = [ev]
    /\ ev_kind ev = resolve_kind
    /\ ev_slug ev = Some "example-com".
Proof.
  intros run.
  set (r := match snd run with Ok r => r | Throw _ => fresh_reply end).
  assert (Hrun : run = (fst run, Ok r)) by (vm_compute; reflexivity).
  pose proof (apiResolve_logs_outcome services (resolve_request "https://example.com/")
                fresh_reply (start public_world empty_db []) (fst run) r Hrun) as Hlog.
  set (res := match reply_payload r with
              | Some (PResolved res) => res
              | _ => mkResolved "" "" "" false
              end).
  assert (Hpayload : reply_payload r = Some (PResolved res)) by (vm_compute; reflexivity).
  rewrite Hpayload in Hlog. destruct Hlog as (_ & ev & Hevents & Hkind & Hslug).
  exists r, res, ev. split; [rewrite Hrun at 1; reflexivity|].
  split; [exact Hpayload|]. split; [exact Hevents|]. split; [exact Hkind | exact Hslug].
Defined.

End MoreRuns.
